(** * ArchiveBot: rotation, hand-off and background compression

    A shallow embedding of [abusehelper/bots/archivebot/archivebot.py]
    (Python 2).  Python byte strings ([str]) are lists of [ascii]
    characters, the file system is a finite map from paths to nodes, and
    code that raises returns a [result]. *)

From Stdlib Require Import Ascii String ZArith NArith QArith List Lia Bool.
From stdpp Require Import base option list gmap strings.

Local Open Scope Z_scope.
Local Open Scope list_scope.

(** Python 2 [str]: a sequence of bytes. *)
Abbreviation str := (list ascii).

(** A string literal as a [str]. *)
Definition b (s : string) : str := list_ascii_of_string s.

(** ** Exceptions and results *)

Inductive errno := EEXIST | ENOENT | EISDIR | EIO | ENOTEMPTY.

Inductive exn :=
| ValueError (msg : str)
| IOError (code : errno) (path : str)
| OSError (code : errno) (path : str)
| JIDError.

Inductive result (A : Type) :=
| Ok (v : A)
| Raise (e : exn).
Arguments Ok {A} v.
Arguments Raise {A} e.

Definition is_ValueError {A} (r : result A) : bool :=
  match r with Raise (ValueError _) => true | _ => false end.

Definition is_Ok {A} (r : result A) : bool :=
  match r with Ok _ => true | _ => false end.

#[global] Instance errno_eq_dec : EqDecision errno.
Proof. solve_decision. Defined.

#[global] Instance exn_eq_dec : EqDecision exn.
Proof. solve_decision. Defined.

(** ** Python string primitives *)

Definition slash : ascii := "/"%char.
Definition dot : ascii := "."%char.
Definition newline : ascii := "010"%char.

(** [s.rfind(c)] for a one-character needle: the highest index of [c] in
    [s], or [-1]. *)
Fixpoint rfind (c : ascii) (s : str) : Z :=
  match s with
  | [] => -1
  | x :: s' =>
      let r := rfind c s' in
      if 0 <=? r then r + 1
      else if bool_decide (x = c) then 0 else -1
  end.

(** [s[:i]] and [s[i:]] for [0 <= i]. *)
Definition slice_to (i : Z) (s : str) : str := take (Z.to_nat i) s.
Definition slice_from (i : Z) (s : str) : str := drop (Z.to_nat i) s.

(** [s.rstrip(c)] for a one-character set. *)
Fixpoint rstrip (c : ascii) (s : str) : str :=
  match s with
  | [] => []
  | x :: s' =>
      match rstrip c s' with
      | [] => if bool_decide (x = c) then [] else [x]
      | r => x :: r
      end
  end.

Definition startswith (s pre : str) : bool := bool_decide (pre `prefix_of` s).
Definition endswith (s suf : str) : bool := bool_decide (suf `suffix_of` s).

(** ** [posixpath] *)

(** [os.path.split]:
    i = p.rfind('/') + 1; head, tail = p[:i], p[i:];
    if head and head != '/'*len(head): head = head.rstrip('/'). *)
Definition path_split (p : str) : str * str :=
  let i := rfind slash p + 1 in
  let head := slice_to i p in
  let tail := slice_from i p in
  if bool_decide (head ≠ []) && bool_decide (head ≠ replicate (length head) slash)
  then (rstrip slash head, tail)
  else (head, tail).

(** [os.path.join(a, b)] for two components. *)
Definition path_join (a b0 : str) : str :=
  if startswith b0 [slash] then b0
  else if bool_decide (a = []) || endswith a [slash] then a ++ b0
  else a ++ slash :: b0.

(** [os.path.splitext] ([genericpath._splitext] with sep='/', extsep='.'):
    the extension starts at the last dot of the last component, unless
    that component has only leading dots before it. *)
Fixpoint skip_leading_dots (p : str) (filenameIndex dotIndex : Z) (fuel : nat) : bool :=
  match fuel with
  | O => false
  | S fuel' =>
      if filenameIndex <? dotIndex then
        match p !! Z.to_nat filenameIndex with
        | Some c =>
            if bool_decide (c ≠ dot) then true
            else skip_leading_dots p (filenameIndex + 1) dotIndex fuel'
        | None => false
        end
      else false
  end.

Definition splitext (p : str) : str * str :=
  let sepIndex := rfind slash p in
  let dotIndex := rfind dot p in
  if (sepIndex <? dotIndex) && skip_leading_dots p (sepIndex + 1) dotIndex (length p)
  then (slice_to dotIndex p, slice_from dotIndex p)
  else (p, []).

(** ** [str.format] number fields *)

Definition digit_char (upper : bool) (d : N) : ascii :=
  ascii_of_N (if (d <? 10)%N then 48 + d else if upper then 55 + d else 87 + d)%N.

(** Digits of [n] in base [base], most significant first, pushed in front
    of [acc]. *)
Fixpoint digits_acc (upper : bool) (base : N) (fuel : nat) (n : N) (acc : str) : str :=
  match fuel with
  | O => acc
  | S fuel' =>
      let acc' := digit_char upper (n mod base)%N :: acc in
      if (n / base =? 0)%N then acc'
      else digits_acc upper base fuel' (n / base)%N acc'
  end.

Definition digits (upper : bool) (base n : N) : str :=
  digits_acc upper base (S (N.to_nat (N.log2 n))) n [].

(** Zero padding on the left up to a minimum width (the [0w] of a format
    field). *)
Definition zfill (width : nat) (s : str) : str :=
  replicate (width - length s)%nat "0"%char ++ s.

(** The fields [{:08x}], [{:08d}], [{:02X}] of [str.format]; the
    two-digit decimal fields [%m] and [%d] of [strftime], and its [%Y],
    the year as a decimal number with no padding. *)
Definition format_08x (n : N) : str := zfill 8 (digits false 16 n).
Definition format_08d (n : N) : str := zfill 8 (digits false 10 n).
Definition format_02X (n : N) : str := zfill 2 (digits true 16 n).
Definition format_02d (n : N) : str := zfill 2 (digits false 10 n).
Definition format_Y (n : N) : str := digits false 10 n.

(** ** The regular expression of the rotated-file name

    A small backtracking matcher in the manner of [re.match]: the pattern
    is a sequence of items, a greedy star gives back characters one at a
    time, and each star captures what it consumed. *)

Inductive re_item :=
| One (p : ascii -> bool)      (* one character satisfying p *)
| Many (p : ascii -> bool)     (* a greedy star over such characters, captured *)
| AtEnd.                       (* $ *)

(** [$] without [re.MULTILINE]: the end of the string, or just before a
    newline that ends the string. *)
Definition at_end (s : str) : bool :=
  bool_decide (s = []) || bool_decide (s = [newline]).

Fixpoint greedy (p : ascii -> bool) (k : str -> option (list str)) (s : str)
  : option (str * list str) :=
  let stop := (fun gs => ([], gs)) <$> k s in
  match s with
  | c :: s' =>
      if p c then
        match greedy p k s' with
        | Some (g, gs) => Some (c :: g, gs)
        | None => stop
        end
      else stop
  | [] => stop
  end.

Fixpoint re_match (pat : list re_item) (s : str) : option (list str) :=
  match pat with
  | [] => Some []
  | One p :: pat' =>
      match s with
      | c :: s' => if p c then re_match pat' s' else None
      | [] => None
      end
  | Many p :: pat' => (fun '(g, gs) => g :: gs) <$> greedy p (re_match pat') s
  | AtEnd :: pat' => if at_end s then re_match pat' s else None
  end.

(** [re.I] on byte strings folds ASCII letters only. *)
Definition lower (c : ascii) : ascii :=
  let n := N_of_ascii c in
  if ((65 <=? n) && (n <=? 90))%N then ascii_of_N (n + 32) else c.

Definition any_char (c : ascii) : bool := bool_decide (c ≠ newline).
Definition lit_i (l c : ascii) : bool := bool_decide (lower c = lower l).
Definition hex_i (c : ascii) : bool :=
  let n := N_of_ascii (lower c) in
  ((48 <=? n) && (n <=? 57) || (97 <=? n) && (n <=? 102))%N.

(** The pattern of [_split_compress_path], compiled with [re.I]: a captured
    greedy star of any character but newline, then the literal
    [.compress-], eight characters of [0-9a-f], and the end anchor.
    [re.match] anchors at the start of the string, which is all the
    leading caret asks. *)
Definition compress_re : list re_item :=
  Many any_char :: map (fun l => One (lit_i l)) (b ".compress-")
    ++ repeat (One hex_i) 8 ++ [AtEnd].

(** ** Rotated-file names *)

Definition invalid_filename (path : str) : exn :=
  ValueError (b "invalid filename " ++ path).

Definition _split_compress_path (path : str) : result (str * str) :=
  let '(directory, filename) := path_split path in
  match re_match compress_re filename with
  | None => Raise (invalid_filename path)
  | Some groups => Ok (directory, nth 0 groups [])
  end.

Definition _is_compress_path (path : str) : bool :=
  match _split_compress_path path with
  | Raise (ValueError _) => false
  | _ => true
  end.

(** ** The world: file system, random source, work queue, operation trace *)

(** A path names a regular file with its content, or a directory.
    Directories on the way to a file are implicit. *)
Inductive node :=
| File (content : str)
| Dir.

Inductive log_msg :=
| MsgOpened (name : str)
| MsgClosed (name : str)
| MsgCompressed (path : str)
| MsgInvalidPath (path : str).

Inductive stream_name := CollectStream | CompressStream | RotateStream.

(** What the program asked of its environment, oldest first. *)
Inductive op :=
| OpOpenRead (path : str)
| OpOpenAppend (path : str)
| OpCreateExcl (path : str) (created : bool)
| OpWrite (path : str) (data : str)
| OpFlush (path : str)
| OpClose (path : str)
| OpRename (src dst : str)
| OpRemove (path : str)
| OpMkdir (path : str)
| OpQueue (delay : Q) (item : str)
| OpLogInfo (m : log_msg)
| OpLogError (m : log_msg)
| OpSpawn (s : stream_name).

Record world := World {
  fs : gmap str node;
  rng : nat -> N;             (* the raw outputs of the random generator *)
  rng_pos : nat;              (* how many of them were drawn *)
  queue : list (Q * str);     (* the WaitQueue of the pipeline *)
  trace : list op
}.

Definition set_fs (f : gmap str node -> gmap str node) (w : world) : world :=
  {| fs := f (fs w); rng := rng w; rng_pos := rng_pos w; queue := queue w; trace := trace w |}.
Definition set_rng_pos (n : nat) (w : world) : world :=
  {| fs := fs w; rng := rng w; rng_pos := n; queue := queue w; trace := trace w |}.
Definition set_queue (q : list (Q * str)) (w : world) : world :=
  {| fs := fs w; rng := rng w; rng_pos := rng_pos w; queue := q; trace := trace w |}.
Definition add_trace (o : op) (w : world) : world :=
  {| fs := fs w; rng := rng w; rng_pos := rng_pos w; queue := queue w; trace := trace w ++ [o] |}.

(** A computation changes the world and returns or raises; [None] is a
    loop that ran out of fuel. Effects made before an exception stay. *)
Definition M (A : Type) : Type := world -> option (result A * world).

Definition ret {A} (v : A) : M A := fun w => Some (Ok v, w).
Definition raise {A} (e : exn) : M A := fun w => Some (Raise e, w).
Definition lift {A} (r : result A) : M A := fun w => Some (r, w).

Definition bind {A B} (m : M A) (k : A -> M B) : M B := fun w =>
  match m w with
  | None => None
  | Some (Ok v, w') => k v w'
  | Some (Raise e, w') => Some (Raise e, w')
  end.

Notation "x <- m ;; k" := (bind m (fun x => k))
  (at level 100, m at level 60, right associativity).
Notation "m ;;; k" := (bind m (fun _ => k))
  (at level 100, right associativity).

(** [try: m finally: c]. *)
Definition finally {A} (m : M A) (c : M unit) : M A := fun w =>
  match m w with
  | None => None
  | Some (r, w') =>
      match c w' with
      | None => None
      | Some (Ok _, w'') => Some (r, w'')
      | Some (Raise e, w'') => Some (Raise e, w'')
      end
  end.

(** [try: m except OSError: pass]. *)
Definition except_OSError_pass (m : M unit) : M unit := fun w =>
  match m w with
  | Some (Raise (OSError _ _), w') => Some (Ok tt, w')
  | r => r
  end.

Definition emit (o : op) : M unit := fun w => Some (Ok tt, add_trace o w).

(** *** File system calls *)

Definition os_path_isfile (path : str) : M bool := fun w =>
  Some (Ok (match fs w !! path with Some (File _) => true | _ => false end), w).

(** [open(path, "rb")]: the content that iterating the file will give. *)
Definition open_rb (path : str) : M str := fun w =>
  match fs w !! path with
  | Some (File content) => Some (Ok content, add_trace (OpOpenRead path) w)
  | Some Dir => Some (Raise (IOError EISDIR path), w)
  | None => Some (Raise (IOError ENOENT path), w)
  end.

(** [os.open(path, os.O_CREAT | os.O_EXCL | os.O_RDWR)]. *)
Definition os_open_excl (path : str) : M unit := fun w =>
  match fs w !! path with
  | Some _ => Some (Raise (OSError EEXIST path), add_trace (OpCreateExcl path false) w)
  | None => Some (Ok tt, add_trace (OpCreateExcl path true) (set_fs <[path := File []]> w))
  end.

(** Bytes appended through an open descriptor; a file that was unlinked
    meanwhile takes them with it. *)
Definition append_bytes (path data : str) (m : gmap str node) : gmap str node :=
  match m !! path with
  | Some (File content) => <[path := File (content ++ data)]> m
  | _ => m
  end.

Definition fd_write (path data : str) : M unit := fun w =>
  Some (Ok tt, add_trace (OpWrite path data) (set_fs (append_bytes path data) w)).

Definition os_remove (path : str) : M unit := fun w =>
  match fs w !! path with
  | Some (File _) => Some (Ok tt, add_trace (OpRemove path) (set_fs (delete path) w))
  | Some Dir => Some (Raise (OSError EISDIR path), w)
  | None => Some (Raise (OSError ENOENT path), w)
  end.

(** [os.rename(src, dst)]: a regular file replaces a regular file at
    [dst] silently, and cannot replace a directory. *)
Definition os_rename (src dst : str) : M unit := fun w =>
  match fs w !! src with
  | None => Some (Raise (OSError ENOENT src), w)
  | Some Dir => Some (Raise (OSError ENOTEMPTY src), w)
  | Some (File content) =>
      match fs w !! dst with
      | Some Dir => Some (Raise (OSError EISDIR dst), w)
      | _ => Some (Ok tt, add_trace (OpRename src dst)
                            (set_fs (fun m => <[dst := File content]> (delete src m)) w))
      end
  end.

(** [random.getrandbits(k)]. *)
Definition getrandbits (k : N) : M N := fun w =>
  Some (Ok (rng w (rng_pos w) mod 2 ^ k)%N, set_rng_pos (S (rng_pos w)) w).

(** Modelled from the spec: [utils.WaitQueue] of abusehelper.core is not
    among the sources; [queue(delay, item)] schedules the item to become
    eligible after the delay, and items of equal eligibility leave in the
    order they were put. *)
Definition queue_put (delay : Q) (item : str) : M unit := fun w =>
  Some (Ok tt, add_trace (OpQueue delay item) (set_queue (queue w ++ [(delay, item)]) w)).

(** ** Choosing the rotated name *)

Fixpoint _create_compress_path_loop (fuel : nat) (head tail : str) : M str :=
  match fuel with
  | O => fun _ => None
  | S fuel' =>
      r <- getrandbits 32 ;;
      let new_tail := tail ++ b ".compress-" ++ format_08x r in
      let new_path := path_join head new_tail in
      isfile <- os_path_isfile new_path ;;
      if negb isfile then ret new_path
      else _create_compress_path_loop fuel' head tail
  end.

Definition _create_compress_path (fuel : nat) (path : str) : M str :=
  let '(head, tail) := path_split path in
  _create_compress_path_loop fuel head tail.

Definition _rename (fuel : nat) (path : str) : M str :=
  new_path <- _create_compress_path fuel path ;;
  os_rename path new_path ;;;
  ret new_path.

(** ** Choosing the compressed name *)

(** The path that the loop holds in [path] while [count] has this value. *)
Definition unique_candidate (directory prefix suffix : str) (count : N) : str :=
  if (count =? 0)%N then path_join directory (prefix ++ suffix)
  else path_join directory (prefix ++ b "-" ++ format_08d count ++ suffix).

(** The loop of [_unique_writable_file] over its variables [count] and
    [path]. Of the failures of [os.open] only the existing path is
    modelled. *)
Fixpoint _unique_writable_file_loop (fuel : nat) (directory prefix suffix : str)
    (count : N) (path : str) : M str :=
  match fuel with
  | O => fun _ => None
  | S fuel' => fun w =>
      match os_open_excl path w with
      | Some (Raise (OSError EEXIST _), w') =>
          let count := (count + 1)%N in
          let path := path_join directory (prefix ++ b "-" ++ format_08d count ++ suffix) in
          _unique_writable_file_loop fuel' directory prefix suffix count path w'
      | Some (Raise e, w') => Some (Raise e, w')
      | Some (Ok _, w') => Some (Ok path, w')
      | None => None
      end
  end.

(** The context manager: the body runs with the created path, and the
    file object is closed when the body leaves, however it leaves. *)
Definition _unique_writable_file {A} (fuel : nat) (directory prefix suffix : str)
    (body : str -> M A) : M A :=
  path <- _unique_writable_file_loop fuel directory prefix suffix 0
            (path_join directory (prefix ++ suffix)) ;;
  finally (body path) (emit (OpClose path)).

(** ** Library functions taken as given

    [gzip], [json], [time] and the path normalisation of [os.path] are
    not part of the program; the program is read over any behaviour of
    them. *)
Class Externals := {
  (* bytes in the underlying file after a GzipFile wrote these lines *)
  gz_write : list str -> str;
  (* bytes that GzipFile.close() appends once those lines are written *)
  gz_trailer : list str -> str;
  (* json.dumps of a mapping from keys to value lists *)
  json_dumps : list (str * list str) -> str;
  (* time.gmtime(ts): year, month, day of month *)
  gmtime : Z -> N * N * N;
  (* os.path.abspath and os.path.normpath *)
  abspath : str -> str;
  normpath : str -> str
}.

(** Iterating a file opened for reading: its lines, each with its line
    end. *)
Fixpoint readlines (s : str) : list str :=
  match s with
  | [] => []
  | c :: s' =>
      if bool_decide (c = newline) then [c] :: readlines s'
      else match readlines s' with
           | [] => [[c]]
           | l :: ls => (c :: l) :: ls
           end
  end.

(** Where the input or output stream breaks, if it does: after so many
    lines went through. *)
Inductive fault :=
| NoFault
| FailAfter (n : nat).

Section Compressor.
Context `{Externals}.

(** [compressed.writelines(archive)] on a GzipFile over [gz_path]. *)
Definition GzipFile_writelines (flt : fault) (gz_path : str) (lines : list str)
  : M (list str) :=
  match flt with
  | NoFault => fd_write gz_path (gz_write lines) ;;; ret lines
  | FailAfter n =>
      fd_write gz_path (gz_write (take n lines)) ;;;
      raise (IOError EIO gz_path)
  end.

(** [compressed.close()] after [written] went through. *)
Definition GzipFile_close (gz_path : str) (written : list str) : M unit :=
  fd_write gz_path (gz_trailer written).

(** try: compressed.writelines(archive) finally: compressed.close() *)
Definition gzip_stream (flt : fault) (gz_path : str) (lines : list str) : M unit :=
  let written := match flt with NoFault => lines | FailAfter n => take n lines end in
  finally (GzipFile_writelines flt gz_path lines ;;; ret tt)
          (GzipFile_close gz_path written).

Definition compress (fuel : nat) (flt : fault) (path : str) : M str :=
  archive <- open_rb path ;;
  gz_path <- finally
    (split <- lift (_split_compress_path path) ;;
     let '(directory, filename) := split in
     let '(prefix, suffix) := splitext filename in
     _unique_writable_file fuel directory prefix (suffix ++ b ".gz")
       (fun gz_path =>
          gzip_stream flt gz_path (readlines archive) ;;;
          ret gz_path))
    (emit (OpClose path)) ;;
  except_OSError_pass (os_remove path) ;;;
  ret gz_path.

(** Modelled from the spec: [WaitQueue.wait()] gives the next eligible
    item; with every delay zero that is the oldest one. [None] stands
    for a worker left waiting on an empty queue. *)
Definition queue_wait : M (option str) := fun w =>
  match queue w with
  | [] => Some (Ok None, w)
  | (_, item) :: rest => Some (Ok (Some item), set_queue rest w)
  end.

(** The worker: each round of the loop takes one item. It ends here
    when the queue is empty (the stream stays suspended in the wait) or
    when an exception leaves the loop. *)
Fixpoint _compress (rounds fuel : nat) (flt : str -> fault) : M unit :=
  match rounds with
  | O => fun _ => None
  | S rounds' =>
      next <- queue_wait ;;
      match next with
      | None => ret tt
      | Some compress_path => fun w =>
          match compress fuel (flt compress_path) compress_path w with
          | None => None
          | Some (Ok path, w') =>
              (emit (OpLogInfo (MsgCompressed path)) ;;;
               _compress rounds' fuel flt) w'
          | Some (Raise (ValueError _), w') =>
              (emit (OpLogError (MsgInvalidPath compress_path)) ;;;
               _compress rounds' fuel flt) w'
          | Some (Raise e, w') => Some (Raise e, w')
          end
      end
  end.
End Compressor.

(** ** Room names as path segments *)

(** [urllib.quote(s, safe)] of Python 2: letters, digits, [_.-] and the
    characters of [safe] stay, every other byte becomes [%XX]. *)
Definition always_safe : str :=
  b "ABCDEFGHIJKLMNOPQRSTUVWXYZabcdefghijklmnopqrstuvwxyz0123456789_.-".

Definition quoter (safe : str) (c : ascii) : str :=
  if bool_decide (c ∈ safe) then [c]
  else if (N_of_ascii c <? 128)%N && bool_decide (c ∈ always_safe) then [c]
  else "%"%char :: format_02X (N_of_ascii c).

Definition quote (s safe : str) : str :=
  if bool_decide (s = []) then s
  else if forallb (fun c => bool_decide (c ∈ always_safe ++ safe)) s then s
  else concat (map (quoter safe) s).

(** [u.encode("utf-8")] of a sequence of code points. *)
Definition utf8_encode_char (u : N) : list N :=
  (if u <? 0x80 then [u]
   else if u <? 0x800 then [0xC0 + u / 0x40; 0x80 + u mod 0x40]
   else if u <? 0x10000 then
     [0xE0 + u / 0x1000; 0x80 + (u / 0x40) mod 0x40; 0x80 + u mod 0x40]
   else
     [0xF0 + u / 0x40000; 0x80 + (u / 0x1000) mod 0x40;
      0x80 + (u / 0x40) mod 0x40; 0x80 + u mod 0x40])%N.

Definition utf8_encode (u : list N) : str :=
  map ascii_of_N (concat (map utf8_encode_char u)).

(** The JID class of idiokit, taken as given: construction (which may
    raise), the bare form, inequality, and [unicode()]. *)
Class JIDLib := {
  jid_arg : Type;
  jid_t : Type;
  JID : jid_arg -> result jid_t;
  jid_bare : jid_t -> jid_t;
  jid_ne : jid_t -> jid_t -> bool;
  jid_unicode : jid_t -> list N
}.

Definition bare_mismatch : exn :=
  ValueError (b "given room JID does not match with the bare room JID").

Definition _encode_room_jid `{JIDLib} (jid : jid_arg) : result str :=
  match JID jid with
  | Raise e => Raise e
  | Ok room_jid =>
      if jid_ne room_jid (jid_bare room_jid) then Raise bare_mismatch
      else Ok (quote (utf8_encode (jid_unicode room_jid)) (b " @"))
  end.

(** A plain reading of JIDs, without string preparation: an optional
    node before [@], a domain, an optional resource after the first
    [/]. It serves to run the functions above on concrete rooms. *)
Record plain_jid := PlainJID {
  pj_node : option (list N);
  pj_domain : list N;
  pj_resource : option (list N)
}.

Fixpoint cut_at (c : N) (s : list N) : option (list N * list N) :=
  match s with
  | [] => None
  | x :: s' =>
      if (x =? c)%N then Some ([], s')
      else match cut_at c s' with
           | Some (l, r) => Some (x :: l, r)
           | None => None
           end
  end.

Definition plain_jid_parse (s : list N) : result plain_jid :=
  let '(rest, resource) :=
    match cut_at 47 s with Some (l, r) => (l, Some r) | None => (s, None) end in
  let '(node, domain) :=
    match cut_at 64 rest with Some (l, r) => (Some l, r) | None => (None, rest) end in
  if bool_decide (domain = []) then Raise JIDError
  else Ok (PlainJID node domain resource).

Definition plain_jid_unicode (j : plain_jid) : list N :=
  match pj_node j with Some n => n ++ [64%N] | None => [] end
  ++ pj_domain j
  ++ match pj_resource j with Some r => 47%N :: r | None => [] end.

Definition plain_jids : JIDLib := {|
  jid_arg := list N;
  jid_t := plain_jid;
  JID := plain_jid_parse;
  jid_bare := fun j => PlainJID (pj_node j) (pj_domain j) None;
  jid_ne := fun j k => bool_decide (plain_jid_unicode j ≠ plain_jid_unicode k);
  jid_unicode := plain_jid_unicode
|}.

(** Code points of an ASCII literal. *)
Definition u (s : string) : list N := map N_of_ascii (b s).

(** ** The daily rotation signal *)

Inductive rotate_action :=
| Send            (* yield idiokit.send(event) *)
| Sleep.          (* yield idiokit.sleep(1.0) *)

(** The loop of [rotate] over the days that [datetime.utcnow().day]
    shows, one reading per round; [last] starts as [None]. *)
Fixpoint rotate_loop (last : option Z) (days : list Z) : list rotate_action :=
  match days with
  | [] => []
  | now :: days' =>
      if bool_decide (Some now ≠ last)
      then Send :: Sleep :: rotate_loop (Some now) days'
      else Sleep :: rotate_loop last days'
  end.

Definition rotate (days : list Z) : list rotate_action := rotate_loop None days.

(** How many signals each round sent: the sends before each sleep. *)
Fixpoint sends_per_round (acts : list rotate_action) (n : nat) : list nat :=
  match acts with
  | [] => []
  | Send :: acts' => sends_per_round acts' (S n)
  | Sleep :: acts' => n :: sends_per_round acts' 0
  end.

(** ** Archive files *)

(** A Python file object opened for appending with line buffering. *)
Record pyfile := PyFile {
  name : str;
  pending : str;      (* written, not yet handed to the system *)
  closed : bool
}.

Definition closed_file_error : exn := ValueError (b "I/O operation on closed file").

Definition write_pending (f : pyfile) : M unit :=
  if bool_decide (pending f = []) then ret tt else fd_write (name f) (pending f).

Definition file_flush (f : pyfile) : M pyfile :=
  if closed f then raise closed_file_error
  else
    emit (OpFlush (name f)) ;;;
    write_pending f ;;;
    ret (PyFile (name f) [] false).

Definition file_close (f : pyfile) : M pyfile :=
  if closed f then ret f
  else
    write_pending f ;;;
    emit (OpClose (name f)) ;;;
    ret (PyFile (name f) [] true).

(** [buffering=1]: a write that brings a line end flushes. *)
Definition file_write (f : pyfile) (data : str) : M pyfile :=
  if closed f then raise closed_file_error
  else
    let f' := PyFile (name f) (pending f ++ data) false in
    if bool_decide (newline ∈ data) then
      write_pending f' ;;; ret (PyFile (name f) [] false)
    else ret f'.

(** [os.mkdir]. Of its failures only the existing path is modelled.
    The directories on the way being implicit, the parent of [path] is
    not looked at: a regular file that is a proper ancestor of [path]
    makes the operating system refuse with [ENOTDIR], which this model
    does not have. What is proved of a run that makes directories says
    that no regular file stands on the way. *)
Definition os_mkdir (path : str) : M unit := fun w =>
  match fs w !! path with
  | Some _ => Some (Raise (OSError EEXIST path), w)
  | None => Some (Ok tt, add_trace (OpMkdir path) (set_fs <[path := Dir]> w))
  end.

Definition os_path_exists (path : str) : M bool := fun w =>
  Some (Ok (bool_decide (is_Some (fs w !! path))), w).

(** [os.makedirs]; the recursion is on the head of the path, which gets
    shorter. *)
Fixpoint os_makedirs (fuel : nat) (dir_name : str) : M unit :=
  match fuel with
  | O => fun _ => None
  | S fuel' =>
      let '(head, tail) := path_split dir_name in
      let '(head, tail) := if bool_decide (tail = []) then path_split head else (head, tail) in
      exists_head <- os_path_exists head ;;
      if bool_decide (head ≠ []) && bool_decide (tail ≠ []) && negb exists_head then
        fun w =>
          match os_makedirs fuel' head w with
          | None => None
          | Some (Raise (OSError EEXIST _), w') | Some (Ok _, w') =>
              if bool_decide (tail = [dot]) then Some (Ok tt, w')
              else os_mkdir dir_name w'
          | Some (Raise e, w') => Some (Raise e, w')
          end
      else os_mkdir dir_name
  end.

Section Collector.
Context `{Externals}.

Definition ensure_dir (dir_name : str) : M str := fun w =>
  let dir_name := abspath dir_name in
  match os_makedirs (S (length dir_name)) dir_name w with
  | None => None
  | Some (Raise (OSError code p), w') =>
      if bool_decide (code ≠ EEXIST) then Some (Raise (OSError code p), w')
      else Some (Ok dir_name, w')
  | Some (Raise e, w') => Some (Raise e, w')
  | Some (Ok _, w') => Some (Ok dir_name, w')
  end.

(** [room_name] is the quoted name, plain ASCII, which its
    [encode("utf-8")] leaves as it is; on a byte string with a byte
    above 127 that call raises [UnicodeDecodeError], which is left out
    here. [time.strftime] of Python 2 refuses a year before 1900, which
    is left out as well: the year is rendered whatever it is. What is
    proved of the layout of the path says that the name is ASCII and
    bounds the date. *)
Definition archive_path (ts : Z) (room_name : str) : str :=
  let '(year, month, day) := gmtime ts in
  path_join (path_join (path_join room_name (format_Y year)) (format_02d month))
            (format_02d day ++ b ".json").

(** [open(path, "ab", buffering=1)]. *)
Definition open_append (path : str) : M pyfile := fun w =>
  match fs w !! path with
  | Some Dir => Some (Raise (IOError EISDIR path), w)
  | Some (File _) => Some (Ok (PyFile path [] false), add_trace (OpOpenAppend path) w)
  | None => Some (Ok (PyFile path [] false),
                  add_trace (OpOpenAppend path) (set_fs <[path := File []]> w))
  end.

Definition open_archive (archive_dir : str) (ts : Z) (room_name : str) : M pyfile :=
  let path := path_join archive_dir (archive_path ts room_name) in
  let dirname := fst (path_split path) in
  ensure_dir dirname ;;;
  open_append path.

(** What arrives at the collector: the rotate event, or a record with
    its keys and values and the [time.time()] at which it is handled. *)
Inductive item :=
| RotateEvent
| Record_ (ts : Z) (fields : list (str * list str)).

(** One round of the loop of [_collect]; [archive] is the local
    variable, [None] while no file is open. *)
Definition _collect_round (fuel : nat) (archive_dir room_name : str)
    (archive : option pyfile) (event : item) : M (option pyfile) :=
  match event with
  | RotateEvent =>
      match archive with
      | Some a =>
          a1 <- file_flush a ;;
          a2 <- file_close a1 ;;
          new_path <- _rename fuel (name a2) ;;
          queue_put 0 new_path ;;;
          ret None
      | None => ret None
      end
  | Record_ ts json_dict =>
      a <- match archive with
           | None =>
               a <- open_archive archive_dir ts room_name ;;
               emit (OpLogInfo (MsgOpened (name a))) ;;;
               ret a
           | Some a => ret a
           end ;;
      a' <- file_write a (json_dumps json_dict ++ [newline]) ;;
      ret (Some a')
  end.

(** The [finally] of [_collect]. *)
Definition _collect_finally (archive : option pyfile) : M unit :=
  match archive with
  | Some a =>
      a1 <- file_flush a ;;
      a2 <- file_close a1 ;;
      emit (OpLogInfo (MsgClosed (name a2)))
  | None => ret tt
  end.

(** The value of [archive] when a round is left by an exception: the
    rotation closes the file before anything in it can raise. *)
Definition archive_at_raise (archive : option pyfile) (event : item) : option pyfile :=
  match event, archive with
  | RotateEvent, Some a => Some (PyFile (name a) [] true)
  | _, _ => archive
  end.

(** The stream over the items it is sent; it is cancelled when they
    are over. *)
Fixpoint _collect (fuel : nat) (archive_dir room_name : str)
    (archive : option pyfile) (input : list item) : M unit :=
  match input with
  | [] => _collect_finally archive
  | event :: input' => fun w =>
      match _collect_round fuel archive_dir room_name archive event w with
      | None => None
      | Some (Ok archive', w') => _collect fuel archive_dir room_name archive' input' w'
      | Some (Raise e, w') =>
          finally (raise e) (_collect_finally (archive_at_raise archive event)) w'
      end
  end.
End Collector.

(** ** The startup scan *)

(** What [os.listdir] finds below a directory: sub-directories with their
    own content, and the other entries, in the order it gives them. *)
#[warnings="-register-all"]
Inductive dirtree :=
| DirTree (dirs : list (str * dirtree)) (nondirs : list str).

(** [os.walk(top)], top down. *)
Fixpoint os_walk (top : str) (t : dirtree) : list (str * list str * list str) :=
  match t with
  | DirTree dirs nondirs =>
      (top, map fst dirs, nondirs)
        :: flat_map (fun d => let '(name, sub) := d in os_walk (path_join top name) sub) dirs
  end.

Fixpoint scan_filenames (root : str) (filenames : list str) : M unit :=
  match filenames with
  | [] => ret tt
  | filename :: rest =>
      let path := path_join root filename in
      (if _is_compress_path path then queue_put 0 path else ret tt) ;;;
      scan_filenames root rest
  end.

Fixpoint scan_walk (entries : list (str * list str * list str)) : M unit :=
  match entries with
  | [] => ret tt
  | (root, _, filenames) :: rest =>
      scan_filenames root filenames ;;;
      scan_walk rest
  end.

Definition outside_archive : exn :=
  ValueError (b "incorrect room name lands outside the archive directory").

Section Archive.
Context `{Externals} `{JIDLib}.

(** [ArchiveBot._archive]; [listing] is the tree that the walk finds at
    [_dir], [None] when there is no such directory. The queue is new.
    The three streams are made at the end, in this order; the name of
    the room directory is returned in place of the piped stream. *)
Definition _archive (archive_dir : str) (room_bare_jid : jid_arg)
    (listing : option dirtree) : M str :=
  (fun w => Some (Ok tt, set_queue [] w)) ;;;
  room_name <- lift (_encode_room_jid room_bare_jid) ;;
  let _dir := path_join archive_dir room_name in
  if bool_decide (_dir ≠ normpath _dir) then raise outside_archive
  else
    scan_walk (match listing with Some t => os_walk _dir t | None => [] end) ;;;
    emit (OpSpawn CollectStream) ;;;
    emit (OpSpawn CompressStream) ;;;
    emit (OpSpawn RotateStream) ;;;
    ret room_name.
End Archive.

(** ** Compressions that run side by side

    The choice of the compressed name is a loop around one system call,
    the exclusive creation. Several compressions under way are so many
    loops, and a schedule says whose round comes next. *)

Record naming := Naming {
  nm_directory : str;
  nm_prefix : str;
  nm_suffix : str;
  nm_count : N;                (* the variable [count] *)
  nm_path : str;               (* the variable [path] *)
  nm_done : bool               (* whether the loop was left *)
}.

(** A loop at its start. *)
Definition naming_start (directory prefix suffix : str) : naming :=
  Naming directory prefix suffix 0 (path_join directory (prefix ++ suffix)) false.

(** One round of the loop of [_unique_writable_file]. *)
Definition naming_round (p : naming) : M naming := fun w =>
  if nm_done p then Some (Ok p, w)
  else
    match os_open_excl (nm_path p) w with
    | Some (Raise (OSError EEXIST _), w') =>
        let count := (nm_count p + 1)%N in
        let path := path_join (nm_directory p)
                      (nm_prefix p ++ b "-" ++ format_08d count ++ nm_suffix p) in
        Some (Ok (Naming (nm_directory p) (nm_prefix p) (nm_suffix p) count path false), w')
    | Some (Raise e, w') => Some (Raise e, w')
    | Some (Ok _, w') =>
        Some (Ok (Naming (nm_directory p) (nm_prefix p) (nm_suffix p) (nm_count p)
                    (nm_path p) true), w')
    | None => None
    end.

(** The rounds of several loops in the order of a schedule; an index
    that names no loop is skipped. *)
Fixpoint interleave (schedule : list nat) (ps : list naming) (w : world)
  : list naming * world :=
  match schedule with
  | [] => (ps, w)
  | i :: schedule' =>
      match ps !! i with
      | Some p =>
          match naming_round p w with
          | Some (Ok p', w') => interleave schedule' (<[i := p']> ps) w'
          | _ => (ps, w)
          end
      | None => interleave schedule' ps w
      end
  end.

(** ** Vocabulary of the statements *)

(** The heads that [os.path.split] gives. *)
Definition split_head (h : str) : Prop :=
  h = [] \/ h = replicate (length h) slash \/ exists h' x, h = h' ++ [x] /\ x ≠ slash.

Definition hex_digits : str := b "0123456789abcdef".

Definition is_One (i : re_item) : Prop :=
  match i with One _ => True | _ => False end.

Definition tail_re : list re_item :=
  map (fun l => One (lit_i l)) (b ".compress-") ++ repeat (One hex_i) 8.

(** Whether a path names a regular file. *)
Definition is_file (m : gmap str node) (path : str) : bool :=
  match m !! path with Some (File _) => true | _ => false end.

(** The rotated name that a raw random output gives to a path. *)
Definition tagged (path : str) (raw : N) : str :=
  path_join (fst (path_split path))
    (snd (path_split path) ++ b ".compress-" ++ format_08x (raw mod 2 ^ 32)%N).

(** Per round after the first, one signal where the day differs from the
    day of the round before, none where it does not. *)
Fixpoint day_changes (previous : Z) (days : list Z) : list nat :=
  match days with
  | [] => []
  | d :: days' => (if bool_decide (d ≠ previous) then 1%nat else 0%nat) :: day_changes d days'
  end.

(** The number that a decimal field shows. *)
Definition digit_value (c : ascii) : N := (N_of_ascii c - 48)%N.
Definition decimal_value (s : str) (start : N) : N :=
  fold_left (fun a c => a * 10 + digit_value c)%N s start.

(** The exclusive creations that failed before the one that succeeded. *)
Definition failed_creates (directory prefix suffix : str) (count : N) (n : nat) : list op :=
  map (fun i => OpCreateExcl (unique_candidate directory prefix suffix (count + N.of_nat i)) false)
      (seq 0 n).

(** What went through the compressor before the stream ended or broke. *)
Definition written_lines (flt : fault) (lines : list str) : list str :=
  match flt with NoFault => lines | FailAfter n => take n lines end.

(** The prefix and suffix that [compress] hands to the unique naming. *)
Definition gz_prefix (filename : str) : str := fst (splitext filename).
Definition gz_suffix (filename : str) : str := snd (splitext filename) ++ b ".gz".

(** A character that a one-character item takes. *)
Definition item_accepts (i : re_item) (c : ascii) : Prop :=
  match i with One p => p c = true | _ => False end.

(** The shape of a rotated file name, as the pattern reads it: a name
    free of newlines, [.compress-] in any letter case, eight hexadecimal
    digits in any letter case, and possibly one final newline. *)
Definition rotated_name (filename name : str) : Prop :=
  exists lit hex nl,
    filename = name ++ lit ++ hex ++ nl
    /\ (newline ∉ name)
    /\ map lower lit = b ".compress-"
    /\ length hex = 8%nat
    /\ Forall (fun c => hex_i c = true) hex
    /\ (nl = [] \/ nl = [newline]).

(** A failed exclusive creation. *)
Definition is_failed_create (o : op) : Prop :=
  match o with OpCreateExcl _ false => True | _ => False end.

(** The write that a flush makes, when something is pending. *)
Definition flushed_write (a : pyfile) : list op :=
  if bool_decide (pending a = []) then [] else [OpWrite (name a) (pending a)].

(** The characters that [quote] with [safe=" @"] leaves as they are. *)
Definition room_safe : str := b " @" ++ always_safe.

Definition upper_hex_digits : str := b "0123456789ABCDEF".

(** The paths of the files of a tree, the files of a directory before
    those of its sub-directories. *)
Fixpoint tree_files (top : str) (t : dirtree) : list str :=
  match t with
  | DirTree dirs nondirs =>
      map (path_join top) nondirs
        ++ flat_map (fun d => let '(name, sub) := d in tree_files (path_join top name) sub) dirs
  end.

Definition listed_files (top : str) (listing : option dirtree) : list str :=
  match listing with Some t => tree_files top t | None => [] end.

(** The rotated files among them. *)
Definition rotated_files (top : str) (listing : option dirtree) : list str :=
  List.filter _is_compress_path (listed_files top listing).

(** The file paths that a walk yields. *)
Definition walked_files (entries : list (str * list str * list str)) : list str :=
  flat_map (fun e => map (path_join e.1.1) e.2) entries.

(** The paths that the loops left with. *)
Definition committed (ps : list naming) : list str :=
  omap (fun p => if nm_done p then Some (nm_path p) else None) ps.

(** The compressed paths that the worker logged. *)
Definition compressed_paths (ops : list op) : list str :=
  omap (fun o => match o with OpLogInfo (MsgCompressed p) => Some p | _ => None end) ops.

(** An operation that is not a log entry. *)
Definition quiet (o : op) : Prop :=
  match o with OpLogInfo _ => False | _ => True end.

(** What holds of the loops at every moment: the paths they left with
    are pairwise different, were not there at the start, and are there
    now; and what was there at the start still is. *)
Definition naming_inv (w0 : world) (ps : list naming) (w : world) : Prop :=
  NoDup (committed ps)
  /\ (forall path, path ∈ committed ps -> fs w0 !! path = None /\ is_Some (fs w !! path))
  /\ (forall path, is_Some (fs w0 !! path) -> is_Some (fs w !! path)).

(** ** Worlds and inputs of the examples *)

(** A world to run examples in: nothing on disk, a constant generator. *)
Definition world0 : world :=
  {| fs := ∅; rng := fun _ => 42%N; rng_pos := 0; queue := []; trace := [] |}.

(** Putting a regular file on disk. *)
Definition with_file (path content : str) (w : world) : world :=
  set_fs <[path := File content]> w.

(** A file name with a newline in it. *)
Definition two_line_path : str := b "a" ++ newline :: b "b.json".

(** Example externals: a stored (uncompressed) member with a one-byte
    header and trailer, keys joined for JSON, a fixed day. *)
Definition toy_externals : Externals := {|
  gz_write := fun lines => "G"%char :: concat lines;
  gz_trailer := fun _ => b "Z";
  json_dumps := fun d => concat (map fst d);
  gmtime := fun _ => (2015, 1, 31)%N;
  abspath := fun p => p;
  normpath := fun p => p
|}.

(** Example files. *)
Definition rotated_example : str := b "room/2015/01/31.json.compress-0123abcd".
Definition active_example : str := b "room/2015/01/31.json".

Definition two_lines : str := b "first" ++ newline :: b "second" ++ [newline].

(** A disk that holds one rotated file of two lines. *)
Definition disk1 : world := with_file rotated_example two_lines world0.

(** A disk that holds one active file. *)
Definition disk2 : world := with_file active_example two_lines world0.

(** An archive file open on the active example, with a line pending. *)
Definition open_example : pyfile := PyFile active_example (b "third") false.

(** A bare room JID and a full one, as code points. *)
Definition bare_room : list N := u "lobby room@conference.example.com".
Definition full_room : list N := u "room@conference.example.com/nick".

(** A room directory as a crash may leave it: three rotated files, an
    active one and a compressed one. *)
Definition crashed_room : dirtree :=
  DirTree
    [(b "2015",
      DirTree
        [(b "01",
          DirTree []
            [b "29.json.compress-0123abcd"; b "30.json.gz";
             b "30.json.compress-89abcdef"; b "31.json"])]
        []);
     (b "2014",
      DirTree [(b "12", DirTree [] [b "31.json.compress-00c0ffee"])] [])]
    [].

(** Three rotated files of the same day, and two loops for the same name. *)
Definition disk3 : world :=
  with_file (b "room/2015/01/31.json.compress-00000001") two_lines
    (with_file (b "room/2015/01/31.json.compress-00000002") two_lines
       (with_file (b "room/2015/01/31.json.compress-00000003") two_lines world0)).

Definition same_day_queue : list (Q * str) :=
  [(0%Q, b "room/2015/01/31.json.compress-00000001");
   (0%Q, b "room/2015/01/31.json.compress-00000002");
   (0%Q, b "room/2015/01/31.json.compress-00000003")].

Definition two_namings : list naming :=
  [naming_start (b "room/2015/01") (b "31") (b ".json.gz");
   naming_start (b "room/2015/01") (b "31") (b ".json.gz")].

(** A disk where the plain compressed name of the rotated example is
    taken. *)
Definition disk4 : world := with_file (b "room/2015/01/31.json.gz") (b "old") disk1.

(** The worker on three rotated files of the same day. *)
Definition same_day_run : option (result unit * world) :=
  _compress (H := toy_externals) 4 8 (fun _ => NoFault) (set_queue same_day_queue disk3).

(** A disk that holds the archive directory only. *)
Definition disk0 : world := set_fs <[b "/var/archive" := Dir]> world0.

(** ** Vocabulary of the further properties *)

(** The line that the collector writes for a record. *)
Definition record_line `{Externals} (fields : list (str * list str)) : str :=
  json_dumps fields ++ [newline].

(** Records as they reach the collector, each with the time at which it
    is handled. *)
Definition record_items (rs : list (Z * list (str * list str))) : list item :=
  map (fun r => Record_ r.1 r.2) rs.

(** A disk where the rotated name that the constant generator gives to
    the active example is taken by a directory. *)
Definition disk5 : world :=
  set_fs <[b "room/2015/01/31.json.compress-0000002a" := Dir]> disk2.

(** The paths that the worker logged as invalid. *)
Definition invalid_paths (ops : list op) : list str :=
  omap (fun o => match o with OpLogError (MsgInvalidPath p) => Some p | _ => None end) ops.

(** What [compress] leaves in its output for a source of this content. *)
Definition gz_content `{Externals} (content : str) : str :=
  gz_write (readlines content) ++ gz_trailer (readlines content).

(** A disk with the active and the rotated example, both in the queue. *)
Definition disk6 : world :=
  set_queue [(0%Q, active_example); (0%Q, rotated_example)]
    (with_file active_example two_lines disk1).

(** The value of an upper-case hexadecimal digit. *)
Definition hex_value (c : ascii) : N :=
  let n := N_of_ascii c in if (n <? 58)%N then (n - 48)%N else (n - 55)%N.

(** The characters that an encoded room name is made of. *)
Definition room_alphabet : str := "%"%char :: room_safe.

(** A code point of Unicode. *)
Definition code_point (u : N) : Prop := (u < 0x110000)%N.

(** Arithmetic with quotients and remainders by constants. *)
Ltac divmod := zify; Z.to_euclidean_division_equations; lia.

(** Two rooms that differ in one character only, a space and a percent
    sign. *)
Definition space_room : list N := u "a b@conference.example.com".
Definition percent_room : list N := u "a%20b@conference.example.com".

Definition decimal_digits : str := b "0123456789".

(** A string that ends with a character other than the slash. *)
Definition ends_plain (s : str) : Prop := exists s' c, s = s' ++ [c] /\ c ≠ slash.

(** The fields of the date in the path of an archive file, and the
    directory and name that the path is made of. *)
Definition year_field `{Externals} (ts : Z) : str := format_Y (gmtime ts).1.1.
Definition month_field `{Externals} (ts : Z) : str := format_02d (gmtime ts).1.2.
Definition day_field `{Externals} (ts : Z) : str := format_02d (gmtime ts).2.

Definition archive_dirname `{Externals} (archive_dir room_name : str) (ts : Z) : str :=
  archive_dir ++ slash :: room_name ++ slash :: year_field ts ++ slash :: month_field ts.

Definition archive_filename `{Externals} (ts : Z) : str := day_field ts ++ b ".json".

(** A date that [time.gmtime] gives and [time.strftime] of Python 2
    takes: a month, a day of the month, and a year from 1900 on. *)
Definition calendar_date (date : N * N * N) : Prop :=
  (1900 <= date.1.1 /\ 1 <= date.1.2 <= 12 /\ 1 <= date.2 <= 31)%N.

(** A byte string of ASCII characters, which is its own
    [encode("utf-8")]. *)
Definition ascii_only (s : str) : Prop := Forall (fun c => (N_of_ascii c < 128)%N) s.

(** The directories that a run made. *)
Definition is_mkdir (o : op) : Prop :=
  match o with OpMkdir _ => True | _ => False end.

(** The content of a path that is a regular file, nothing otherwise. *)
Definition content_of (m : gmap str node) (path : str) : str :=
  match m !! path with Some (File content) => content | _ => [] end.

(** A world that differs from another by the directories made: what
    was there is as it was, and what is new is one of those
    directories. *)
Definition made_dirs (mk : list str) (w w' : world) : Prop :=
  rng w' = rng w /\ rng_pos w' = rng_pos w /\ queue w' = queue w
  /\ trace w' = trace w ++ map OpMkdir mk
  /\ (forall p, is_Some (fs w !! p) -> fs w' !! p = fs w !! p)
  /\ (forall p, fs w !! p = None -> fs w' !! p = None \/ fs w' !! p = Some Dir /\ p ∈ mk).

(** A disk where the archive directory and a room directory exist,
    and the month directory of the example is a regular file. *)
Definition disk7 : world :=
  set_fs (fun m => <[b "/var/archive/room" := Dir]>
                     (<[b "/var/archive/room/2015" := File (b "x")]> m)) disk0.

(** The lines of a list of records, one after the other. *)
Definition record_lines `{Externals} (rs : list (Z * list (str * list str))) : str :=
  concat (map (fun r => record_line r.2) rs).

(** Two records of one day, a rotation, and a record of the next day
    as they reach the collector. *)
Definition two_days : list item :=
  record_items [(0, [(b "k", [b "v"])]); (10, [(b "l", [])])]
    ++ RotateEvent :: record_items [(86400, [(b "m", [])])].

(** Example externals with a calendar that moves: the days of January
    2015, one for every 86400 seconds. *)
Definition january_externals : Externals := {|
  gz_write := fun lines => "G"%char :: concat lines;
  gz_trailer := fun _ => b "Z";
  json_dumps := fun d => concat (map fst d);
  gmtime := fun ts => (2015%N, 1%N, Z.to_N (1 + ts / 86400));
  abspath := fun p => p;
  normpath := fun p => p
|}.

(** The files of the crashed room on disk. *)
Definition disk8 : world :=
  with_file (b "/var/archive/lobby room@conference.example.com/2015/01/29.json.compress-0123abcd")
    two_lines
    (with_file (b "/var/archive/lobby room@conference.example.com/2015/01/30.json.gz") (b "old")
       (with_file
          (b "/var/archive/lobby room@conference.example.com/2015/01/30.json.compress-89abcdef")
          two_lines
          (with_file (b "/var/archive/lobby room@conference.example.com/2015/01/31.json")
             two_lines
             (with_file
                (b "/var/archive/lobby room@conference.example.com/2014/12/31.json.compress-00c0ffee")
                two_lines world0)))).

(** A disk where the archive file of the example day is a directory. *)
Definition disk9 : world :=
  set_fs <[b "/var/archive/room/2015/01/31.json" := Dir]> disk0.

(** ** The naming pattern in the words of the specification *)

(** [<name>.compress-<8 hex digits>] read as it is written: a name,
    then [.compress-] in these very letters, then eight hexadecimal
    digits (taken in either letter case), and nothing after them. *)
Definition finalized_pattern (filename : str) : Prop :=
  exists name hex,
    filename = name ++ b ".compress-" ++ hex
    /\ length hex = 8%nat
    /\ Forall (fun c => hex_i c = true) hex.

(** A file whose name has the tag in capital letters, and one whose
    name has a newline after the digits, each alone on a disk. *)
Definition capital_example : str := b "room/2015/01/31.json.COMPRESS-0123ABCD".
Definition final_newline_example : str :=
  b "room/2015/01/31.json.compress-0123abcd" ++ [newline].

Definition disk10 : world := with_file capital_example two_lines world0.
Definition disk11 : world := with_file final_newline_example two_lines world0.

(** ** UTF-8 and path segments in the words of the specification *)






(** * Properties *)

(** ** Doctests and small checks *)

Example format_08x_ex : format_08x 0x123abcd = b "0123abcd".
Proof. reflexivity. Qed.

Example format_08d_ex : format_08d 1 = b "00000001".
Proof. reflexivity. Qed.

Example format_08d_wide : format_08d 123456789 = b "123456789".
Proof. reflexivity. Qed.

Example path_split_ex : path_split (b "path/to/test.json") = (b "path/to", b "test.json").
Proof. reflexivity. Qed.

Example path_split_root : path_split (b "//x") = (b "//", b "x").
Proof. reflexivity. Qed.

Example splitext_ex : splitext (b "01.json") = (b "01", b ".json").
Proof. reflexivity. Qed.

Example splitext_hidden : splitext (b ".bashrc") = (b ".bashrc", b "").
Proof. reflexivity. Qed.

Example split_compress_doctest :
  _split_compress_path (b "path/to/test.json.compress-0123abcd")
  = Ok (b "path/to", b "test.json").
Proof. reflexivity. Qed.

Example split_compress_doctest_invalid :
  _split_compress_path (b "path/to/test.json")
  = Raise (ValueError (b "invalid filename path/to/test.json")).
Proof. reflexivity. Qed.

Example is_compress_doctest :
  _is_compress_path (b "path/to/test.json.compress-1234abcd") = true
  /\ _is_compress_path (b "path/to/test.json") = false.
Proof. split; reflexivity. Qed.

Example is_compress_upper :
  _is_compress_path (b "01.json.COMPRESS-0123ABCD") = true.
Proof. reflexivity. Qed.

Example is_compress_gz :
  _is_compress_path (b "room/2015/01/01.json.gz") = false.
Proof. reflexivity. Qed.

Example is_compress_final_newline :
  _is_compress_path (b "01.json.compress-0123abcd" ++ [newline]) = true.
Proof. reflexivity. Qed.

Example readlines_ex : readlines two_lines = [b "first" ++ [newline]; b "second" ++ [newline]].
Proof. reflexivity. Qed.

(** The first record of a day makes the directories and opens the file. *)
Example collect_example :
  (fun r => (fst r, trace (snd r)))
    <$> _collect_round (H := toy_externals) 1 (b "/var/archive") (b "room") None
          (Record_ 0 [(b "k", [b "v"])]) disk0
  = Some (Ok (Some (PyFile (b "/var/archive/room/2015/01/31.json") [] false)),
          [OpMkdir (b "/var/archive/room");
           OpMkdir (b "/var/archive/room/2015");
           OpMkdir (b "/var/archive/room/2015/01");
           OpOpenAppend (b "/var/archive/room/2015/01/31.json");
           OpLogInfo (MsgOpened (b "/var/archive/room/2015/01/31.json"));
           OpWrite (b "/var/archive/room/2015/01/31.json") (b "k" ++ [newline])]).
Proof. vm_compute. reflexivity. Qed.


(** ** Strings and paths *)

Lemma rfind_lower_bound c s : -1 <= rfind c s.
Proof.
  induction s as [|x s IH]; simpl; [lia|].
  destruct (0 <=? rfind c s) eqn:E; [lia|]. case_bool_decide; lia.
Qed.

Lemma rfind_absent c s : c ∉ s -> rfind c s = -1.
Proof.
  induction s as [|x s IH]; simpl; intros Hn; [done|].
  apply not_elem_of_cons in Hn as [Hx Hs]. rewrite (IH Hs). simpl.
  case_bool_decide; congruence.
Qed.

Lemma rfind_last c h t : c ∉ t -> rfind c (h ++ c :: t) = Z.of_nat (length h).
Proof.
  intros Ht. induction h as [|x h IH]; simpl.
  - rewrite (rfind_absent _ _ Ht). simpl. by rewrite bool_decide_eq_true_2.
  - rewrite IH. destruct (0 <=? Z.of_nat (length h)) eqn:E; lia.
Qed.

Lemma rstrip_snoc_other c h x : x ≠ c -> rstrip c (h ++ [x]) = h ++ [x].
Proof.
  intros Hx. induction h as [|y h IH]; simpl.
  - by rewrite bool_decide_eq_false_2.
  - rewrite IH. by destruct h.
Qed.

Lemma rstrip_snoc_same c h : rstrip c (h ++ [c]) = rstrip c h.
Proof.
  induction h as [|y h IH]; simpl.
  - by rewrite bool_decide_eq_true_2.
  - by rewrite IH.
Qed.

(** What [rstrip] leaves is empty or ends with another character. *)
Lemma rstrip_shape c s :
  rstrip c s = [] \/ exists h x, rstrip c s = h ++ [x] /\ x ≠ c.
Proof.
  induction s as [|y s IH]; simpl; [by left|].
  destruct IH as [-> | (h & x & -> & Hx)].
  - case_bool_decide; [by left|]. right. by exists [], y.
  - right. exists (y :: h), x. split; [|done]. by destruct h.
Qed.

Lemma path_split_head p : split_head (fst (path_split p)).
Proof.
  unfold path_split. set (i := rfind slash p + 1).
  destruct (bool_decide (slice_to i p ≠ [])) eqn:E1; simpl.
  - destruct (bool_decide (slice_to i p ≠ replicate (length (slice_to i p)) slash)) eqn:E2; simpl.
    + destruct (rstrip_shape slash (slice_to i p)) as [-> | ?]; [by left | by right; right].
    + apply bool_decide_eq_false in E2. right; left. by apply dec_stable.
  - apply bool_decide_eq_false in E1. left. by apply dec_stable.
Qed.

Lemma path_split_eq p :
  let i := rfind slash p + 1 in
  snd (path_split p) = slice_from i p.
Proof. unfold path_split. simpl. by case_match. Qed.

Lemma rfind_drop c s : c ∉ drop (Z.to_nat (rfind c s + 1)) s.
Proof.
  induction s as [|x s IH]; simpl; [apply not_elem_of_nil|].
  pose proof (rfind_lower_bound c s).
  destruct (0 <=? rfind c s) eqn:E.
  - replace (Z.to_nat (rfind c s + 1 + 1)) with (S (Z.to_nat (rfind c s + 1))) by lia.
    simpl. exact IH.
  - assert (rfind c s = -1) as Hr by lia. rewrite Hr in IH. simpl in IH.
    case_bool_decide; simpl; [exact IH|].
    apply not_elem_of_cons. split; [congruence | exact IH].
Qed.

Lemma path_split_tail p : slash ∉ snd (path_split p).
Proof. rewrite path_split_eq. apply rfind_drop. Qed.

Lemma replicate_snoc_ne {A} (h : list A) (x c : A) n : x ≠ c -> h ++ [x] ≠ replicate n c.
Proof.
  intros Hx Heq.
  assert (x ∈ replicate n c) as Hin by (rewrite <- Heq; set_solver).
  apply elem_of_replicate in Hin as [? _]. congruence.
Qed.

(** Splitting what was joined gives the two parts back. *)
Lemma path_split_join h t :
  split_head h -> t ≠ [] -> slash ∉ t -> path_split (path_join h t) = (h, t).
Proof.
  intros Hh Ht Hs. unfold path_join, startswith.
  rewrite bool_decide_eq_false_2.
  2:{ intros [k Hk]. destruct t as [|x t]; [done|]. simplify_eq/=. set_solver. }
  destruct Hh as [-> | [Hrep | (h' & x & -> & Hx)]].
  - simpl. unfold path_split. rewrite (rfind_absent _ _ Hs). simpl.
    unfold slice_to, slice_from. by simpl.
  - destruct h as [|y h]; [simpl|].
    { unfold path_split. rewrite (rfind_absent _ _ Hs). by simpl. }
    assert (endswith (y :: h) [slash] = true) as ->.
    { unfold endswith. apply bool_decide_eq_true_2.
      rewrite Hrep. simpl length. exists (replicate (length h) slash).
      by rewrite <- replicate_cons_app. }
    rewrite orb_true_r.
    assert (exists h0, y :: h = h0 ++ [slash]) as [h0 Hh0].
    { exists (replicate (length h) slash). rewrite Hrep at 1. simpl length.
      by rewrite <- replicate_cons_app. }
    unfold path_split. rewrite Hh0. rewrite <- app_assoc. simpl.
    rewrite (rfind_last _ _ _ Hs).
    unfold slice_to, slice_from.
    replace (Z.to_nat (Z.of_nat (length h0) + 1)) with (length (h0 ++ [slash]))
      by (rewrite length_app; simpl; lia).
    replace (h0 ++ slash :: t) with ((h0 ++ [slash]) ++ t) by (by rewrite <- app_assoc).
    rewrite take_app_length, drop_app_length. rewrite <- Hh0.
    rewrite bool_decide_eq_true_2 by done.
    rewrite (bool_decide_eq_false_2 (_ ≠ _)); [done|]. intros Hne. apply Hne. exact Hrep.
  - assert (endswith (h' ++ [x]) [slash] = false) as ->.
    { unfold endswith. apply bool_decide_eq_false_2. intros [k Hk].
      apply app_inj_tail in Hk as [_ ?]. congruence. }
    rewrite bool_decide_eq_false_2 by (by destruct h').
    simpl. unfold path_split. rewrite (rfind_last _ _ _ Hs).
    unfold slice_to, slice_from.
    replace (Z.to_nat (Z.of_nat (length (h' ++ [x])) + 1))
      with (length ((h' ++ [x]) ++ [slash])) by (rewrite !length_app; simpl; lia).
    replace ((h' ++ [x]) ++ slash :: t) with (((h' ++ [x]) ++ [slash]) ++ t)
      by (by rewrite <- !app_assoc).
    rewrite take_app_length, drop_app_length.
    rewrite bool_decide_eq_true_2 by (by destruct h').
    rewrite bool_decide_eq_true_2.
    2:{ rewrite <- app_assoc. simpl. intros Heq.
        assert (x ∈ replicate (length (h' ++ [x; slash])) slash) as Hin
          by (rewrite <- Heq; set_solver).
        apply elem_of_replicate in Hin as [? _]. congruence. }
    simpl. by rewrite rstrip_snoc_same, rstrip_snoc_other.
Qed.

(** ** Number fields *)

Lemma digit_char_hex d : (d < 16)%N -> digit_char false d ∈ hex_digits.
Proof.
  intros Hd. assert (exists k, d = N.of_nat k /\ (k < 16)%nat) as (k & -> & Hk).
  { exists (N.to_nat d). split; lia. }
  do 16 (destruct k as [|k]; [vm_compute; repeat constructor|]). lia.
Qed.

Lemma digits_acc_Forall (P : ascii -> Prop) up base fuel n acc :
  (forall d, (d < base)%N -> P (digit_char up d)) -> base ≠ 0%N ->
  Forall P acc -> Forall P (digits_acc up base fuel n acc).
Proof.
  intros HP Hb. revert n acc. induction fuel as [|fuel IH]; intros n acc Hacc; simpl; [done|].
  assert (P (digit_char up (n mod base))) by (apply HP; by apply N.mod_lt).
  destruct (n / base =? 0)%N; [by constructor|]. apply IH. by constructor.
Qed.

Lemma digits_acc_length up base fuel n acc k :
  (1 < base)%N -> (n < base ^ N.of_nat (S k))%N ->
  (length (digits_acc up base fuel n acc) <= S k + length acc)%nat.
Proof.
  intros Hb. revert n acc k. induction fuel as [|fuel IH]; intros n acc k Hn; simpl; [lia|].
  destruct (n / base =? 0)%N eqn:E; simpl; [lia|].
  apply N.eqb_neq in E. destruct k as [|k].
  - exfalso. apply E. apply N.div_small. by rewrite N.pow_1_r in Hn.
  - etrans; [apply (IH _ _ k)|simpl; lia].
    apply N.Div0.div_lt_upper_bound.
    rewrite <- N.pow_succ_r'. by rewrite <- Nat2N.inj_succ.
Qed.

Lemma zfill_length w s : (length s <= w)%nat -> length (zfill w s) = w.
Proof. intros Hs. unfold zfill. rewrite length_app, length_replicate. lia. Qed.

Lemma format_08x_length n : (n < 2 ^ 32)%N -> length (format_08x n) = 8%nat.
Proof.
  intros Hn. apply zfill_length. unfold digits.
  pose proof (digits_acc_length false 16 (S (N.to_nat (N.log2 n))) n [] 7) as Hl.
  simpl length in Hl. rewrite Nat.add_0_r in Hl. apply Hl; [lia|].
  by replace (16 ^ N.of_nat 8)%N with (2 ^ 32)%N by (by vm_compute).
Qed.

Lemma format_08x_hex n : Forall (fun c => c ∈ hex_digits) (format_08x n).
Proof.
  unfold format_08x, zfill. apply Forall_app. split.
  - apply Forall_replicate. vm_compute. constructor.
  - apply digits_acc_Forall; [apply digit_char_hex|done|constructor].
Qed.

Lemma hex_digits_hex_i c : c ∈ hex_digits -> hex_i c = true.
Proof.
  intros Hc. unfold hex_digits in Hc. simpl in Hc.
  repeat (apply elem_of_cons in Hc as [-> | Hc]; [reflexivity|]).
  by apply elem_of_nil in Hc.
Qed.

Lemma hex_digits_plain c : c ∈ hex_digits -> c ≠ slash /\ c ≠ newline.
Proof.
  intros Hc. unfold hex_digits in Hc. simpl in Hc.
  repeat (apply elem_of_cons in Hc as [-> | Hc]; [by split|]).
  by apply elem_of_nil in Hc.
Qed.

(** ** The pattern of rotated names *)

(** A pattern of single characters up to the end anchor takes strings of
    its own length, or one more for a final newline. *)
Lemma re_match_ones pat s gs :
  Forall is_One pat -> re_match (pat ++ [AtEnd]) s = Some gs ->
  gs = [] /\ (length s = length pat \/ s = take (length pat) s ++ [newline]).
Proof.
  intros Hp. revert s. induction Hp as [|i pat Hi Hp IH]; intros s; simpl.
  - unfold at_end. destruct s as [|c s]; simpl; [intros; simplify_eq; by auto|].
    case_bool_decide; simpl; [|done]. intros; simplify_eq. by auto.
  - destruct i as [p| |]; try done. destruct s as [|c s]; [done|].
    destruct (p c); [|done]. intros Hm. destruct (IH _ Hm) as [-> [Hl | Hl]].
    + split; [done|]. left. simpl. by rewrite Hl.
    + split; [done|]. right. simpl. by rewrite <- Hl.
Qed.

Lemma re_match_ones_length pat s gs :
  Forall is_One pat -> re_match (pat ++ [AtEnd]) s = Some gs ->
  (length pat <= length s)%nat.
Proof.
  intros Hp Hm. destruct (re_match_ones _ _ _ Hp Hm) as [_ [Hl | Hl]]; [lia|].
  destruct (decide (length pat <= length s)%nat); [done|].
  rewrite take_ge in Hl by lia.
  apply (f_equal length) in Hl. rewrite length_app in Hl. simpl in Hl. lia.
Qed.

(** What the greedy star gives is a split of the string at which the
    rest of the pattern matches. *)
Lemma greedy_sound p k s g gs :
  greedy p k s = Some (g, gs) ->
  exists r, s = g ++ r /\ k r = Some gs /\ Forall (fun c => p c = true) g.
Proof.
  revert g. induction s as [|c s IH]; intros g; simpl.
  - destruct (k []) eqn:E; simpl; [|done]. intros; simplify_eq. by exists [].
  - assert (forall g, (fun gs0 : list str => ([] : str, gs0)) <$> k (c :: s) = Some (g, gs) ->
        exists r, c :: s = g ++ r /\ k r = Some gs /\ Forall (fun c => p c = true) g) as Hstop.
    { intros g0. destruct (k (c :: s)) eqn:E; simpl; [|done].
      intros; simplify_eq. by exists (c :: s). }
    destruct (p c) eqn:Hpc; [|apply Hstop].
    destruct (greedy p k s) as [[g' gs']|] eqn:E; [|apply Hstop].
    intros; simplify_eq. destruct (IH _ eq_refl) as (r & -> & Hk & Hg).
    exists r. repeat split; [done|]. by constructor.
Qed.

(** The star takes every character it may when the rest of the pattern
    then matches, and it never gets to try a shorter split. *)
Lemma greedy_longest p k g r gs :
  Forall (fun c => p c = true) g -> greedy p k r = Some ([], gs) ->
  greedy p k (g ++ r) = Some (g, gs).
Proof.
  intros Hg Hr. induction Hg as [|c g Hc Hg IH]; simpl; [done|].
  by rewrite Hc, IH.
Qed.

Lemma compress_re_eq : compress_re = Many any_char :: tail_re ++ [AtEnd].
Proof. unfold compress_re, tail_re. by rewrite <- app_assoc. Qed.

Lemma tail_re_ones : Forall is_One tail_re.
Proof. unfold tail_re. simpl. repeat constructor. Qed.

Lemma tail_re_match hex :
  length hex = 8%nat -> Forall (fun c => hex_i c = true) hex ->
  re_match (tail_re ++ [AtEnd]) (b ".compress-" ++ hex) = Some [].
Proof.
  intros Hl Hh.
  do 8 (destruct hex as [|? hex]; [done|]). destruct hex; [|done].
  repeat match goal with H : Forall _ (_ :: _) |- _ => apply Forall_cons in H as [? H] end.
  cbn -[hex_i]. by repeat match goal with H : hex_i _ = true |- _ => rewrite H; clear H end.
Qed.

(** A name without newline, tagged, matches, and the group is the name. *)
Lemma re_match_tagged g hex :
  newline ∉ g -> length hex = 8%nat -> Forall (fun c => hex_i c = true) hex ->
  re_match compress_re (g ++ b ".compress-" ++ hex) = Some [g].
Proof.
  intros Hg Hl Hh. rewrite compress_re_eq. cbn [re_match].
  rewrite (greedy_longest any_char _ g _ []); [done| |].
  - apply Forall_forall. intros c Hc. apply bool_decide_eq_true_2. intros ->. done.
  - pose proof (tail_re_match hex Hl Hh) as Hm.
    change (b ".compress-" ++ hex) with (dot :: (b "compress-" ++ hex)) in *.
    cbn [greedy].
    replace (any_char dot) with true by reflexivity.
    destruct (greedy any_char (re_match (tail_re ++ [AtEnd])) (b "compress-" ++ hex))
      as [[g' gs']|] eqn:E.
    + exfalso. apply greedy_sound in E as (r & Hr & Hk & _).
      apply re_match_ones_length in Hk; [|apply tail_re_ones].
      apply (f_equal length) in Hr. rewrite !length_app in Hr.
      unfold tail_re in Hk. rewrite length_app, length_map, repeat_length in Hk.
      simpl in Hr, Hk. lia.
    + by rewrite Hm.
Qed.

(** The characters that a pattern of single-character items takes. *)
Lemma re_match_ones_chars pat s gs :
  Forall is_One pat -> re_match (pat ++ [AtEnd]) s = Some gs ->
  exists body nl, s = body ++ nl /\ Forall2 item_accepts pat body
    /\ (nl = [] \/ nl = [newline]).
Proof.
  intros Hp. revert s. induction Hp as [|i pat Hi Hp IH]; intros s; simpl.
  - unfold at_end. intros Hm. exists [], s. split; [done|]. split; [constructor|].
    destruct (bool_decide (s = [])) eqn:E1; [apply bool_decide_eq_true in E1; by left|].
    destruct (bool_decide (s = [newline])) eqn:E2; [apply bool_decide_eq_true in E2; by right|].
    done.
  - destruct i as [p| |]; try done. destruct s as [|c s]; [done|].
    destruct (p c) eqn:Hpc; [|done]. intros Hm.
    destruct (IH _ Hm) as (body & nl & -> & Hbody & Hnl).
    exists (c :: body), nl. split; [done|]. split; [|done]. by constructor.
Qed.

Lemma Forall2_lit_lower (lit0 body : str) :
  Forall2 item_accepts (map (fun l => One (lit_i l)) lit0) body ->
  map lower body = map lower lit0.
Proof.
  revert body. induction lit0 as [|l lit0 IH]; intros body Hb; simpl in *.
  - by apply Forall2_nil_inv_l in Hb as ->.
  - apply Forall2_cons_inv_l in Hb as (c & body' & Hc & Hb & ->).
    simpl. f_equal; [|by apply IH]. simpl in Hc. unfold lit_i in Hc.
    by apply bool_decide_eq_true in Hc.
Qed.

Lemma Forall2_repeat_hex n (body : str) :
  Forall2 item_accepts (repeat (One hex_i) n) body ->
  length body = n /\ Forall (fun c => hex_i c = true) body.
Proof.
  revert body. induction n as [|n IH]; intros body Hb; simpl in *.
  - by apply Forall2_nil_inv_l in Hb as ->.
  - apply Forall2_cons_inv_l in Hb as (c & body' & Hc & Hb & ->).
    destruct (IH _ Hb) as [<- ?]. split; [done|]. by constructor.
Qed.

(** What the pattern takes has the shape of a rotated name, and the
    group is the name. *)
Lemma compress_re_sound s gs :
  re_match compress_re s = Some gs -> exists g, gs = [g] /\ rotated_name s g.
Proof.
  rewrite compress_re_eq. cbn [re_match].
  destruct (greedy any_char (re_match (tail_re ++ [AtEnd])) s) as [[g gs']|] eqn:E; [|done].
  simpl. intros; simplify_eq.
  apply greedy_sound in E as (r & -> & Hk & Hg).
  destruct (re_match_ones _ _ _ tail_re_ones Hk) as [-> _].
  apply re_match_ones_chars in Hk as (body & nl & -> & Hbody & Hnl); [|apply tail_re_ones].
  unfold tail_re in Hbody. apply Forall2_app_inv_l in Hbody as (lit & hex & Hlit & Hhex & ->).
  apply Forall2_lit_lower in Hlit. apply Forall2_repeat_hex in Hhex as [Hlen Hhex].
  exists g. split; [done|]. exists lit, hex, nl. rewrite <- app_assoc.
  repeat split; try done.
  intros Hin. rewrite Forall_forall in Hg. specialize (Hg _ Hin).
  unfold any_char in Hg. by apply bool_decide_eq_true in Hg.
Qed.

Lemma greedy_cons p k c s :
  greedy p k (c :: s)
  = if p c then
      match greedy p k s with
      | Some (g, gs) => Some (c :: g, gs)
      | None => (fun gs => ([], gs)) <$> k (c :: s)
      end
    else (fun gs => ([], gs)) <$> k (c :: s).
Proof. reflexivity. Qed.

Lemma re_match_ones_complete pat (body nl : str) :
  Forall2 item_accepts pat body -> nl = [] \/ nl = [newline] ->
  re_match (pat ++ [AtEnd]) (body ++ nl) = Some [].
Proof.
  intros Hb Hnl. induction Hb as [|i c pat body Hic Hb IH]; simpl.
  - unfold at_end. by destruct Hnl as [-> | ->].
  - destruct i as [p| |]; try done. simpl in Hic. by rewrite Hic.
Qed.

Lemma lit_accepts (lit0 lit : str) :
  map lower lit = map lower lit0 ->
  Forall2 item_accepts (map (fun l => One (lit_i l)) lit0) lit.
Proof.
  revert lit. induction lit0 as [|l lit0 IH]; intros lit Heq;
    destruct lit as [|c lit]; simpl in Heq; try discriminate Heq; simpl; constructor.
  - injection Heq as Hc _. simpl. unfold lit_i. by apply bool_decide_eq_true_2.
  - injection Heq as _ Heq. by apply IH.
Qed.

Lemma hex_accepts (hex : str) :
  Forall (fun c => hex_i c = true) hex ->
  Forall2 item_accepts (repeat (One hex_i) (length hex)) hex.
Proof. induction 1; simpl; by constructor. Qed.

(** Every string of the shape of a rotated name is taken, with the name
    as the group. *)
Lemma compress_re_complete s g : rotated_name s g -> re_match compress_re s = Some [g].
Proof.
  intros (lit & hex & nl & -> & Hg & Hlit & Hlen & Hhex & Hnl).
  assert (Forall2 item_accepts tail_re (lit ++ hex)) as Hbody.
  { unfold tail_re. apply Forall2_app; [by apply lit_accepts|].
    rewrite <- Hlen. by apply hex_accepts. }
  pose proof (re_match_ones_complete _ _ _ Hbody Hnl) as Hm.
  rewrite <- app_assoc in Hm.
  rewrite compress_re_eq. cbn [re_match].
  rewrite (greedy_longest any_char _ g _ []); [done| |].
  { apply Forall_forall. intros c Hc. apply bool_decide_eq_true_2. by intros ->. }
  destruct lit as [|c0 [|c1 lit]]; [done|done|].
  simpl in Hlit. injection Hlit as Hc0 Hc1 Hlit.
  assert (length lit = 8%nat) as Hlitlen.
  { apply (f_equal length) in Hlit. by rewrite length_map in Hlit. }
  assert (any_char c0 = true) as Hany.
  { apply bool_decide_eq_true_2. intros ->. discriminate Hc0. }
  cbn [app] in *. rewrite greedy_cons, Hany.
  destruct (greedy any_char (re_match (tail_re ++ [AtEnd])) (c1 :: lit ++ hex ++ nl))
    as [[g' gs']|] eqn:E; [|by rewrite Hm].
  exfalso. apply greedy_sound in E as (r & Hr & Hk & _).
  apply re_match_ones_chars in Hk as (body & nl' & -> & Hacc & _); [|apply tail_re_ones].
  pose proof (Forall2_length _ _ _ Hacc) as Hblen.
  unfold tail_re in Hblen. rewrite length_app, length_map, repeat_length in Hblen.
  simpl in Hblen.
  assert (length nl <= 1)%nat as Hnllen by (destruct Hnl as [-> | ->]; simpl; lia).
  pose proof (f_equal length Hr) as Hrlen. simpl in Hrlen. rewrite !length_app in Hrlen.
  destruct g' as [|x g']; [|simpl in Hrlen; lia].
  destruct body as [|c body]; [done|]. simpl in Hr. injection Hr as <- _.
  unfold tail_re in Hacc. simpl in Hacc. apply Forall2_cons_1 in Hacc as [Hacc _].
  simpl in Hacc. unfold lit_i in Hacc. apply bool_decide_eq_true in Hacc.
  rewrite Hc1 in Hacc. discriminate Hacc.
Qed.

(** The rotated paths are the paths whose last component has the shape
    of a rotated name. *)
Lemma is_compress_path_iff path :
  _is_compress_path path = true <-> exists g, rotated_name (snd (path_split path)) g.
Proof.
  unfold _is_compress_path, _split_compress_path.
  destruct (path_split path) as [directory filename]. cbn [snd]. split.
  - destruct (re_match compress_re filename) as [gs|] eqn:E; [|done].
    intros _. apply compress_re_sound in E as (g & _ & Hrot). by exists g.
  - intros [g Hrot]. by rewrite (compress_re_complete _ _ Hrot).
Qed.

(** ** Rotated names: creation and splitting *)

Lemma set_rng_pos_twice n m w : set_rng_pos n (set_rng_pos m w) = set_rng_pos n w.
Proof. reflexivity. Qed.

(** The loop returns at the first draw whose name is free, if one comes
    before the fuel ends. *)
Lemma create_loop_returns fuel head tail w k :
  (k < fuel)%nat ->
  is_file (fs w) (path_join head
      (tail ++ b ".compress-" ++ format_08x (rng w (rng_pos w + k)%nat mod 2 ^ 32)%N)) = false ->
  exists j, (j <= k)%nat /\
    let new_path := path_join head
      (tail ++ b ".compress-" ++ format_08x (rng w (rng_pos w + j)%nat mod 2 ^ 32)%N) in
    is_file (fs w) new_path = false /\
    _create_compress_path_loop fuel head tail w
    = Some (Ok new_path, set_rng_pos (rng_pos w + S j) w).
Proof.
  revert w k. induction fuel as [|fuel IH]; intros w k Hk Hfree; [lia|].
  cbn [_create_compress_path_loop]. unfold bind at 1. unfold getrandbits at 1.
  unfold bind at 1. unfold os_path_isfile at 1. cbn [fs set_rng_pos rng rng_pos].
  fold (is_file (fs w)
    (path_join head (tail ++ b ".compress-" ++ format_08x (rng w (rng_pos w) mod 2 ^ 32)%N))).
  destruct (is_file (fs w) (path_join head
    (tail ++ b ".compress-" ++ format_08x (rng w (rng_pos w) mod 2 ^ 32)%N))) eqn:E.
  - destruct k as [|k].
    { rewrite Nat.add_0_r in Hfree. congruence. }
    destruct (IH (set_rng_pos (S (rng_pos w)) w) k) as (j & Hj & Hf & Hrun); [lia| |].
    { cbn [fs set_rng_pos rng rng_pos].
      by replace (S (rng_pos w) + k)%nat with (rng_pos w + S k)%nat by lia. }
    cbn [fs set_rng_pos rng rng_pos] in Hf, Hrun.
    exists (S j). split; [lia|]. cbn zeta.
    replace (rng_pos w + S j)%nat with (S (rng_pos w) + j)%nat by lia.
    split; [done|]. cbn [negb]. rewrite Hrun. rewrite set_rng_pos_twice.
    do 3 f_equal. lia.
  - exists 0%nat. split; [lia|]. cbn zeta. rewrite Nat.add_0_r. split; [done|].
    cbn [negb]. unfold ret. do 3 f_equal. lia.
Qed.

Lemma tag_not_empty (tail hex : str) : tail ++ b ".compress-" ++ hex ≠ [].
Proof. by destruct tail. Qed.

Lemma tag_no_slash (tail hex : str) :
  slash ∉ tail -> Forall (fun c => c ∈ hex_digits) hex ->
  slash ∉ tail ++ b ".compress-" ++ hex.
Proof.
  intros Ht Hh. rewrite !not_elem_of_app. split; [done|]. split.
  - vm_compute. intros Hin.
    repeat (apply elem_of_cons in Hin as [Hin | Hin]; [discriminate Hin|]).
    by apply elem_of_nil in Hin.
  - intros Hin. rewrite Forall_forall in Hh.
    by destruct (hex_digits_plain _ (Hh _ Hin)).
Qed.

(** C7, as the code has it: every call that finds a free name returns,
    in the directory of the path, the file name of the path followed by
    [.compress-] and eight hexadecimal digits; the result names no
    regular file; and when the file name holds no newline,
    [_split_compress_path] gives back the directory and the file name. *)
Theorem create_compress_path_roundtrip (fuel : nat) (path : str) (w : world) (k : nat) :
  (k < fuel)%nat ->
  is_file (fs w) (tagged path (rng w (rng_pos w + k)%nat)) = false ->
  exists hex w',
    let new_path :=
      path_join (fst (path_split path)) (snd (path_split path) ++ b ".compress-" ++ hex) in
    _create_compress_path fuel path w = Some (Ok new_path, w')
    /\ length hex = 8%nat
    /\ Forall (fun c => c ∈ hex_digits) hex
    /\ path_split new_path
       = (fst (path_split path), snd (path_split path) ++ b ".compress-" ++ hex)
    /\ is_file (fs w) new_path = false
    /\ fs w' = fs w
    /\ (newline ∉ snd (path_split path) ->
        _split_compress_path new_path = Ok (path_split path)).
Proof.
  intros Hk Hfree. unfold tagged in Hfree. unfold _create_compress_path.
  pose proof (path_split_head path) as Hhead.
  pose proof (path_split_tail path) as Htail.
  destruct (path_split path) as [head tail] eqn:Hsplit. cbn [fst snd] in *.
  destruct (create_loop_returns fuel head tail w k Hk Hfree) as (j & _ & Hf & Hrun).
  cbn zeta in Hf, Hrun.
  set (hex := format_08x (rng w (rng_pos w + j)%nat mod 2 ^ 32)%N) in *.
  assert (length hex = 8%nat) as Hlen.
  { apply format_08x_length. by apply N.mod_lt. }
  pose proof (format_08x_hex (rng w (rng_pos w + j)%nat mod 2 ^ 32)%N) as Hhex.
  fold hex in Hhex.
  assert (path_split (path_join head (tail ++ b ".compress-" ++ hex))
          = (head, tail ++ b ".compress-" ++ hex)) as Hsj.
  { apply path_split_join; [done|apply tag_not_empty|by apply tag_no_slash]. }
  exists hex, (set_rng_pos (rng_pos w + S j) w). cbn zeta.
  repeat split; try done.
  intros Hnl. unfold _split_compress_path. rewrite Hsj.
  rewrite re_match_tagged; [done|done|done|].
  eapply Forall_impl; [exact Hhex|]. apply hex_digits_hex_i.
Qed.

Lemma create_compress_path_roundtrip_witness :
  exists hex w',
    let new_path :=
      path_join (fst (path_split (b "path/to/test.json")))
        (snd (path_split (b "path/to/test.json")) ++ b ".compress-" ++ hex) in
    _create_compress_path 1 (b "path/to/test.json") world0 = Some (Ok new_path, w')
    /\ length hex = 8%nat
    /\ Forall (fun c => c ∈ hex_digits) hex
    /\ path_split new_path
       = (fst (path_split (b "path/to/test.json")),
          snd (path_split (b "path/to/test.json")) ++ b ".compress-" ++ hex)
    /\ is_file (fs world0) new_path = false
    /\ fs w' = fs world0
    /\ (newline ∉ snd (path_split (b "path/to/test.json")) ->
        _split_compress_path new_path = Ok (path_split (b "path/to/test.json"))).
Proof.
  apply (create_compress_path_roundtrip 1 (b "path/to/test.json") world0 0).
  - lia.
  - reflexivity.
Defined.

(** C7 as stated fails where the file name holds a newline: the rotated
    name is made, and [_split_compress_path] refuses it. *)
Lemma create_compress_path_newline_counterexample :
  fst <$> _create_compress_path 1 two_line_path world0
    = Some (Ok (two_line_path ++ b ".compress-0000002a"))
  /\ _split_compress_path (two_line_path ++ b ".compress-0000002a")
     = Raise (invalid_filename (two_line_path ++ b ".compress-0000002a"))
  /\ _split_compress_path (two_line_path ++ b ".compress-0000002a")
     ≠ Ok (path_split two_line_path).
Proof. split; [|split]; [reflexivity | reflexivity | discriminate]. Qed.

(** ** The daily rotation signal *)

Lemma rotate_loop_signals last d days :
  last = Some d ->
  sends_per_round (rotate_loop last days) 0 = day_changes d days.
Proof.
  revert last d. induction days as [|now days IH]; intros last d ->; simpl; [done|].
  case_bool_decide as Hne.
  - rewrite bool_decide_eq_true_2 by congruence. simpl. f_equal. by apply IH.
  - rewrite bool_decide_eq_false_2 by (intros ?; congruence).
    simpl. f_equal. simplify_eq. by apply IH.
Qed.

(** C1, as the code has it: the first round sends one signal, whatever
    the day it observes; every later round sends exactly one signal when
    its day differs from the day of the round before, and none when it
    is the same. *)
Theorem rotate_signals (d : Z) (days : list Z) :
  sends_per_round (rotate (d :: days)) 0 = 1%nat :: day_changes d days.
Proof.
  unfold rotate. simpl. f_equal. by apply rotate_loop_signals.
Qed.

(** C1 as stated fails at the first round: the first day observed is not
    taken silently as the baseline, a signal is sent for it. *)
Lemma rotate_first_round_counterexample :
  rotate [15] = [Send; Sleep]
  /\ sends_per_round (rotate [15; 15; 16]) 0 = [1; 0; 1]%nat
  /\ ~ (forall d days, hd_error (sends_per_round (rotate (d :: days)) 0) = Some 0%nat).
Proof.
  split; [reflexivity|]. split; [reflexivity|].
  intros Hclaim. specialize (Hclaim 15 []). discriminate Hclaim.
Qed.

(** ** Unique compressed names *)

Lemma digit_value_char d : (d < 10)%N -> digit_value (digit_char false d) = d.
Proof.
  intros Hd. assert (exists k, d = N.of_nat k /\ (k < 10)%nat) as (k & -> & Hk).
  { exists (N.to_nat d). split; lia. }
  do 10 (destruct k as [|k]; [reflexivity|]). lia.
Qed.

Lemma decimal_value_digits fuel n acc :
  (n < 10 ^ N.of_nat fuel)%N ->
  decimal_value (digits_acc false 10 fuel n acc) 0 = decimal_value acc n.
Proof.
  revert n acc. induction fuel as [|fuel IH]; intros n acc Hn.
  - simpl in Hn. assert (n = 0%N) as -> by lia. reflexivity.
  - cbn [digits_acc]. destruct (n / 10 =? 0)%N eqn:E.
    + apply N.eqb_eq in E. unfold decimal_value. cbn [fold_left].
      rewrite digit_value_char by (by apply N.mod_lt).
      f_equal. pose proof (N.div_mod n 10). lia.
    + rewrite IH.
      * unfold decimal_value. cbn [fold_left].
        rewrite digit_value_char by (by apply N.mod_lt).
        f_equal. pose proof (N.div_mod n 10). lia.
      * apply N.Div0.div_lt_upper_bound.
        rewrite <- N.pow_succ_r'. by rewrite <- Nat2N.inj_succ.
Qed.

Lemma decimal_value_zeros k s : decimal_value (replicate k "0"%char ++ s) 0 = decimal_value s 0.
Proof. induction k as [|k IH]; [done|]. simpl. exact IH. Qed.

Lemma decimal_value_format n : decimal_value (format_08d n) 0 = n.
Proof.
  unfold format_08d, zfill. rewrite decimal_value_zeros. unfold digits.
  rewrite decimal_value_digits; [reflexivity|].
  destruct (decide (n = 0%N)) as [->|Hn]; [by vm_compute|].
  destruct (N.log2_spec n) as [_ Hlt]; [lia|].
  eapply N.lt_le_trans; [exact Hlt|].
  rewrite Nat2N.inj_succ, N2Nat.id.
  apply N.pow_le_mono_l. lia.
Qed.

Lemma format_08d_inj n m : format_08d n = format_08d m -> n = m.
Proof.
  intros Heq. rewrite <- (decimal_value_format n), <- (decimal_value_format m).
  by rewrite Heq.
Qed.

Lemma path_join_inj a x y :
  startswith x [slash] = startswith y [slash] -> path_join a x = path_join a y -> x = y.
Proof.
  unfold path_join. intros <-. destruct (startswith x [slash]); [done|].
  destruct (bool_decide (a = []) || endswith a [slash]); intros Heq.
  - by apply app_inv_head in Heq.
  - apply app_inv_head in Heq. by simplify_eq.
Qed.

Lemma startswith_app_nonempty (x y z : str) :
  x ≠ [] -> startswith (x ++ y) [slash] = startswith (x ++ z) [slash].
Proof.
  intros Hx. destruct x as [|c x]; [done|]. unfold startswith. simpl.
  destruct (decide (c = slash)) as [->|Hc].
  - rewrite !bool_decide_eq_true_2; [done| |]; eexists; reflexivity.
  - rewrite !bool_decide_eq_false_2; [done| |]; intros [k Hk]; simplify_eq/=.
Qed.

(** Different counts give different candidate names. *)
Lemma unique_candidate_inj (directory prefix suffix : str) (n m : N) :
  n ≠ 0%N -> m ≠ 0%N ->
  unique_candidate directory prefix suffix n = unique_candidate directory prefix suffix m ->
  n = m.
Proof.
  intros Hn Hm. unfold unique_candidate.
  rewrite (proj2 (N.eqb_neq n 0) Hn), (proj2 (N.eqb_neq m 0) Hm). intros Heq.
  apply path_join_inj in Heq.
  - apply app_inv_head in Heq. apply app_inv_head in Heq.
    apply app_inv_tail in Heq. by apply format_08d_inj.
  - rewrite !(app_assoc prefix). apply startswith_app_nonempty. by destruct prefix.
Qed.

(** A finite file system leaves one of any [size + 1] candidates free. *)
Lemma unique_candidate_free (directory prefix suffix : str) (m : gmap str node) :
  exists k, (k <= S (size m))%nat
    /\ m !! unique_candidate directory prefix suffix (N.of_nat k) = None.
Proof.
  set (cand i := unique_candidate directory prefix suffix (N.of_nat i)).
  destruct (decide (Forall (fun i => is_Some (m !! cand i)) (seq 1 (S (size m)))))
    as [Hall|Hnot].
  - exfalso.
    assert (NoDup (cand <$> seq 1 (S (size m)))) as Hnd.
    { apply NoDup_fmap_2_strong; [|apply NoDup_seq].
      intros i j Hi Hj Heq. apply elem_of_seq in Hi, Hj.
      apply unique_candidate_inj in Heq; lia. }
    assert (list_to_set (cand <$> seq 1 (S (size m))) ⊆ dom m) as Hsub.
    { intros p Hp. apply elem_of_list_to_set in Hp.
      apply list_elem_of_fmap in Hp as (i & -> & Hi).
      rewrite Forall_forall in Hall. apply elem_of_dom. by apply Hall. }
    apply subseteq_size in Hsub.
    rewrite size_list_to_set in Hsub by done.
    rewrite length_fmap, length_seq, size_dom in Hsub. lia.
  - apply not_Forall_Exists in Hnot; [|apply _].
    apply Exists_exists in Hnot as (k & Hk & Hfree).
    apply elem_of_seq in Hk. exists k. split; [lia|].
    by apply eq_None_not_Some.
Qed.

Lemma failed_creates_S (directory prefix suffix : str) (count : N) (n : nat) :
  failed_creates directory prefix suffix count (S n)
  = OpCreateExcl (unique_candidate directory prefix suffix count) false
      :: failed_creates directory prefix suffix (count + 1) n.
Proof.
  unfold failed_creates. cbn [seq map]. rewrite N.add_0_r. f_equal.
  rewrite <- seq_shift, map_map. apply map_ext. intros i. do 2 f_equal. lia.
Qed.

Lemma unique_candidate_next (directory prefix suffix : str) (count : N) :
  path_join directory (prefix ++ b "-" ++ format_08d (count + 1) ++ suffix)
  = unique_candidate directory prefix suffix (count + 1).
Proof.
  unfold unique_candidate. by rewrite (proj2 (N.eqb_neq (count + 1) 0)) by lia.
Qed.

(** The loop creates the first candidate that does not exist, when one
    comes before the fuel ends; the candidates before it failed, and
    nothing else changed. *)
Lemma unique_loop_returns fuel (directory prefix suffix : str) (count : N) (w : world) k :
  (k < fuel)%nat ->
  fs w !! unique_candidate directory prefix suffix (count + N.of_nat k) = None ->
  exists j, (j <= k)%nat
    /\ (forall i, (i < j)%nat ->
          is_Some (fs w !! unique_candidate directory prefix suffix (count + N.of_nat i)))
    /\ fs w !! unique_candidate directory prefix suffix (count + N.of_nat j) = None
    /\ _unique_writable_file_loop fuel directory prefix suffix count
         (unique_candidate directory prefix suffix count) w
       = Some (Ok (unique_candidate directory prefix suffix (count + N.of_nat j)),
               {| fs := <[unique_candidate directory prefix suffix (count + N.of_nat j)
                            := File []]> (fs w);
                  rng := rng w; rng_pos := rng_pos w; queue := queue w;
                  trace := trace w ++ failed_creates directory prefix suffix count j
                    ++ [OpCreateExcl
                          (unique_candidate directory prefix suffix (count + N.of_nat j)) true]
               |}).
Proof.
  revert count w k. induction fuel as [|fuel IH]; intros count w k Hk Hfree; [lia|].
  cbn [_unique_writable_file_loop]. unfold os_open_excl.
  destruct (fs w !! unique_candidate directory prefix suffix count) as [nd|] eqn:E.
  - destruct k as [|k].
    { rewrite N.add_0_r in Hfree. congruence. }
    destruct (IH (count + 1)%N
                 (add_trace (OpCreateExcl (unique_candidate directory prefix suffix count) false) w)
                 k) as (j & Hj & Hbefore & Hnone & Hrun); [lia| |].
    { cbn [fs add_trace]. by replace (count + 1 + N.of_nat k)%N with (count + N.of_nat (S k))%N by lia. }
    cbn [fs add_trace rng rng_pos queue trace] in Hbefore, Hnone, Hrun.
    exists (S j). split; [lia|].
    replace (count + N.of_nat (S j))%N with (count + 1 + N.of_nat j)%N by lia.
    split; [|split; [done|]].
    + intros i Hi. destruct i as [|i].
      * rewrite N.add_0_r. by rewrite E.
      * replace (count + N.of_nat (S i))%N with (count + 1 + N.of_nat i)%N by lia.
        apply Hbefore. lia.
    + cbn zeta. rewrite unique_candidate_next, Hrun. rewrite failed_creates_S. do 3 f_equal.
      by rewrite <- app_assoc.
  - exists 0%nat. rewrite N.add_0_r. split; [lia|]. split; [intros i Hi; lia|].
    split; [done|]. reflexivity.
Qed.

(** ** The compressor *)

Lemma append_bytes_insert (path content data : str) (m : gmap str node) :
  append_bytes path data (<[path := File content]> m) = <[path := File (content ++ data)]> m.
Proof. unfold append_bytes. by rewrite lookup_insert_eq, insert_insert_eq. Qed.

(** *** Running the building blocks *)

Lemma bind_Ok {A B} (m : M A) (k : A -> M B) w v w' :
  m w = Some (Ok v, w') -> bind m k w = k v w'.
Proof. intros Hm. unfold bind. by rewrite Hm. Qed.

Lemma bind_Raise {A B} (m : M A) (k : A -> M B) w e w' :
  m w = Some (Raise e, w') -> bind m k w = Some (Raise e, w').
Proof. intros Hm. unfold bind. by rewrite Hm. Qed.

Lemma finally_run {A} (m : M A) (c : M unit) w r w' w'' :
  m w = Some (r, w') -> c w' = Some (Ok tt, w'') -> finally m c w = Some (r, w'').
Proof. intros Hm Hc. unfold finally. by rewrite Hm, Hc. Qed.

Lemma open_rb_file (path content : str) (w : world) :
  fs w !! path = Some (File content) ->
  open_rb path w = Some (Ok content, add_trace (OpOpenRead path) w).
Proof. intros Hfile. unfold open_rb. by rewrite Hfile. Qed.

Lemma fd_write_file (path content data : str) (w : world) :
  fs w !! path = Some (File content) ->
  fd_write path data w
  = Some (Ok tt, {| fs := <[path := File (content ++ data)]> (fs w);
                    rng := rng w; rng_pos := rng_pos w; queue := queue w;
                    trace := trace w ++ [OpWrite path data] |}).
Proof. intros Hfile. unfold fd_write, append_bytes, add_trace, set_fs. cbn. by rewrite Hfile. Qed.

Lemma os_remove_file (path content : str) (w : world) :
  fs w !! path = Some (File content) ->
  except_OSError_pass (os_remove path) w
  = Some (Ok tt, {| fs := delete path (fs w);
                    rng := rng w; rng_pos := rng_pos w; queue := queue w;
                    trace := trace w ++ [OpRemove path] |}).
Proof. intros Hfile. unfold except_OSError_pass, os_remove. by rewrite Hfile. Qed.

Section CompressorFacts.
Context `{Externals}.

(** The stream writes what went through, then the trailer; a break
    comes out after the trailer is written. *)
Lemma gzip_stream_run (flt : fault) (gz_path content : str) (lines : list str) (w : world) :
  fs w !! gz_path = Some (File content) ->
  gzip_stream flt gz_path lines w
  = Some (match flt with NoFault => Ok tt | FailAfter _ => Raise (IOError EIO gz_path) end,
          {| fs := <[gz_path := File (content ++ gz_write (written_lines flt lines)
                                        ++ gz_trailer (written_lines flt lines))]> (fs w);
             rng := rng w; rng_pos := rng_pos w; queue := queue w;
             trace := trace w ++ [OpWrite gz_path (gz_write (written_lines flt lines));
                                  OpWrite gz_path (gz_trailer (written_lines flt lines))] |}).
Proof.
  intros Hfile. unfold gzip_stream, GzipFile_close.
  pose proof (fd_write_file gz_path content (gz_write (written_lines flt lines)) w Hfile) as Hw1.
  set (w1 := {| fs := <[gz_path := File (content ++ gz_write (written_lines flt lines))]> (fs w);
                rng := rng w; rng_pos := rng_pos w; queue := queue w;
                trace := trace w ++ [OpWrite gz_path (gz_write (written_lines flt lines))] |})
    in *.
  assert (fs w1 !! gz_path = Some (File (content ++ gz_write (written_lines flt lines))))
    as Hfile1 by apply lookup_insert_eq.
  pose proof (fd_write_file gz_path _ (gz_trailer (written_lines flt lines)) w1 Hfile1) as Hw2.
  cbn [fs rng rng_pos queue trace w1] in Hw2.
  rewrite insert_insert_eq, <- !app_assoc in Hw2. cbn [app] in Hw2.
  destruct flt as [|n]; cbn [written_lines] in *.
  - eapply finally_run; [|exact Hw2].
    erewrite bind_Ok; [|unfold GzipFile_writelines; erewrite bind_Ok; [|exact Hw1]; reflexivity].
    reflexivity.
  - eapply finally_run; [|exact Hw2].
    erewrite bind_Raise; [reflexivity|].
    unfold GzipFile_writelines. erewrite bind_Ok; [|exact Hw1]. reflexivity.
Qed.

(** A run of [compress] on a rotated file that exists: the compressed
    file is created under the first free candidate name, written and
    closed, the source is closed, and then, if nothing broke, removed. *)
Lemma compress_run fuel flt (path content directory filename : str) (w : world) k :
  fs w !! path = Some (File content) ->
  _split_compress_path path = Ok (directory, filename) ->
  (k < fuel)%nat ->
  fs w !! unique_candidate directory (gz_prefix filename) (gz_suffix filename) (N.of_nat k)
    = None ->
  exists j, (j <= k)%nat
    /\ (forall i, (i < j)%nat ->
          is_Some (fs w !! unique_candidate directory (gz_prefix filename)
                              (gz_suffix filename) (N.of_nat i)))
    /\ let gz_path := unique_candidate directory (gz_prefix filename)
                        (gz_suffix filename) (N.of_nat j) in
       let written := written_lines flt (readlines content) in
       fs w !! gz_path = None
       /\ compress fuel flt path w
          = Some (match flt with
                  | NoFault => Ok gz_path
                  | FailAfter _ => Raise (IOError EIO gz_path)
                  end,
                  {| fs := (match flt with
                            | NoFault => delete path
                            | FailAfter _ => fun m => m
                            end)
                             (<[gz_path := File (gz_write written ++ gz_trailer written)]>
                                (fs w));
                     rng := rng w; rng_pos := rng_pos w; queue := queue w;
                     trace := trace w ++ OpOpenRead path
                       :: failed_creates directory (gz_prefix filename)
                            (gz_suffix filename) 0 j
                       ++ [OpCreateExcl gz_path true;
                           OpWrite gz_path (gz_write written);
                           OpWrite gz_path (gz_trailer written);
                           OpClose gz_path;
                           OpClose path]
                       ++ match flt with
                          | NoFault => [OpRemove path]
                          | FailAfter _ => []
                          end |}).
Proof.
  intros Hfile Hsplit Hk Hfree.
  destruct (unique_loop_returns fuel directory (gz_prefix filename) (gz_suffix filename)
              0 (add_trace (OpOpenRead path) w) k Hk) as (j & Hj & Hbefore & Hnone & Hrun).
  { by rewrite N.add_0_l. }
  rewrite N.add_0_l in Hnone, Hrun. cbn [fs add_trace] in Hbefore, Hnone.
  exists j. split; [done|]. split.
  { intros i Hi. specialize (Hbefore i Hi). by rewrite N.add_0_l in Hbefore. }
  cbn zeta. split; [done|].
  assert (unique_candidate directory (gz_prefix filename) (gz_suffix filename) (N.of_nat j)
          ≠ path) as Hne by (intros Heq; congruence).
  revert Hrun Hnone Hne.
  generalize (unique_candidate directory (gz_prefix filename) (gz_suffix filename)
                (N.of_nat j)) as gz_path.
  generalize (failed_creates directory (gz_prefix filename) (gz_suffix filename) 0 j)
    as failed.
  clear Hbefore Hfree. intros failed gz_path Hrun Hnone Hne.
  cbn [fs rng rng_pos queue trace add_trace] in Hrun.
  set (w1 := {| fs := <[gz_path := File []]> (fs w);
                rng := rng w; rng_pos := rng_pos w; queue := queue w;
                trace := (trace w ++ [OpOpenRead path]) ++ failed
                           ++ [OpCreateExcl gz_path true] |}) in *.
  assert (fs w1 !! gz_path = Some (File [])) as Hgz by apply lookup_insert_eq.
  pose proof (gzip_stream_run flt gz_path [] (readlines content) w1 Hgz) as Hstream.
  cbn [fs rng rng_pos queue trace w1 app] in Hstream.
  rewrite insert_insert_eq in Hstream.
  unfold compress. erewrite bind_Ok; [|by apply open_rb_file].
  unfold gz_prefix, gz_suffix in Hrun. destruct (splitext filename) as [prefix suffix] eqn:Hext.
  cbn [fst snd] in Hrun.
  destruct flt as [|n]; cbn [written_lines] in *.
  - erewrite bind_Ok.
    2:{ eapply finally_run; [|reflexivity].
        erewrite bind_Ok; [|unfold lift; rewrite Hsplit; reflexivity].
        cbn beta iota. rewrite Hext.
        unfold _unique_writable_file. erewrite bind_Ok; [|exact Hrun].
        eapply finally_run; [|reflexivity].
        erewrite bind_Ok; [|exact Hstream]. reflexivity. }
    erewrite bind_Ok.
    2:{ eapply os_remove_file. cbn [fs add_trace].
        rewrite lookup_insert_ne by done. exact Hfile. }
    unfold ret. cbn [fs rng rng_pos queue trace add_trace].
    do 3 f_equal. rewrite <- !app_assoc. reflexivity.
  - erewrite bind_Raise.
    2:{ eapply finally_run; [|reflexivity].
        erewrite bind_Ok; [|unfold lift; rewrite Hsplit; reflexivity].
        cbn beta iota. rewrite Hext.
        unfold _unique_writable_file. erewrite bind_Ok; [|exact Hrun].
        eapply finally_run; [|reflexivity].
        erewrite bind_Raise; [|exact Hstream]. reflexivity. }
    unfold add_trace. cbn [fs rng rng_pos queue trace].
    do 3 f_equal. rewrite app_nil_r, <- !app_assoc. reflexivity.
Qed.
End CompressorFacts.

Lemma is_compress_path_true path :
  _is_compress_path path = true ->
  exists directory filename, _split_compress_path path = Ok (directory, filename).
Proof.
  unfold _is_compress_path, _split_compress_path.
  destruct (path_split path) as [directory filename].
  destruct (re_match compress_re filename); [eauto|done].
Qed.

Lemma is_compress_path_false path :
  _is_compress_path path = false ->
  _split_compress_path path = Raise (invalid_filename path).
Proof.
  unfold _is_compress_path, _split_compress_path.
  destruct (path_split path) as [directory filename].
  by destruct (re_match compress_re filename).
Qed.

Lemma failed_creates_failed (directory prefix suffix : str) (count : N) (n : nat) :
  Forall is_failed_create (failed_creates directory prefix suffix count n).
Proof. unfold failed_creates. apply Forall_map. by apply Forall_forall. Qed.

(** C2: [compress] removes the rotated file only after the compressed
    copy was written and closed, as the order of the operations shows;
    when the stream breaks on the way, the call raises, the rotated file
    is still there with its content, and the compressed file holds what
    was written of it. *)
Theorem compress_removes_after_close `{Externals} (fuel : nat) (flt : fault)
    (path content : str) (w : world) :
  fs w !! path = Some (File content) ->
  _is_compress_path path = true ->
  (S (size (fs w)) < fuel)%nat ->
  exists gz_path attempts w',
    let written := written_lines flt (readlines content) in
    let gz_ops := [OpCreateExcl gz_path true;
                   OpWrite gz_path (gz_write written);
                   OpWrite gz_path (gz_trailer written);
                   OpClose gz_path;
                   OpClose path] in
    fs w !! gz_path = None
    /\ Forall is_failed_create attempts
    /\ fs w' !! gz_path = Some (File (gz_write written ++ gz_trailer written))
    /\ match flt with
       | NoFault =>
           compress fuel flt path w = Some (Ok gz_path, w')
           /\ trace w' = trace w ++ OpOpenRead path :: attempts ++ gz_ops ++ [OpRemove path]
           /\ fs w' !! path = None
       | FailAfter _ =>
           compress fuel flt path w = Some (Raise (IOError EIO gz_path), w')
           /\ trace w' = trace w ++ OpOpenRead path :: attempts ++ gz_ops
           /\ fs w' !! path = Some (File content)
       end.
Proof.
  intros Hfile Hvalid Hfuel.
  destruct (is_compress_path_true _ Hvalid) as (directory & filename & Hsplit).
  destruct (unique_candidate_free directory (gz_prefix filename) (gz_suffix filename) (fs w))
    as (k & Hk & Hfree).
  destruct (compress_run fuel flt path content directory filename w k Hfile Hsplit)
    as (j & Hj & Hbefore & Hnone & Hrun); [lia|done|].
  cbn zeta in Hnone, Hrun.
  set (gz_path := unique_candidate directory (gz_prefix filename)
                    (gz_suffix filename) (N.of_nat j)) in *.
  assert (gz_path ≠ path) as Hne by (intros Heq; congruence).
  match type of Hrun with
  | _ = Some (_, ?W) =>
      exists gz_path, (failed_creates directory (gz_prefix filename) (gz_suffix filename) 0 j), W
  end.
  cbn zeta. split; [done|]. split; [apply failed_creates_failed|].
  rewrite Hrun. cbn [fs trace]. destruct flt as [|n]; cbn [written_lines].
  - split; [by rewrite lookup_delete_ne, lookup_insert_eq|].
    split; [reflexivity|]. split; [reflexivity|].
    by rewrite lookup_delete_eq.
  - split; [by rewrite lookup_insert_eq|].
    split; [reflexivity|]. split; [by rewrite app_nil_r|].
    by rewrite lookup_insert_ne.
Qed.

Lemma compress_removes_after_close_witness :
  exists gz_path attempts w',
    let written := written_lines (FailAfter 1) (readlines two_lines) in
    let gz_ops := [OpCreateExcl gz_path true;
                   OpWrite gz_path (gz_write (Externals := toy_externals) written);
                   OpWrite gz_path (gz_trailer (Externals := toy_externals) written);
                   OpClose gz_path;
                   OpClose rotated_example] in
    fs disk1 !! gz_path = None
    /\ Forall is_failed_create attempts
    /\ fs w' !! gz_path
       = Some (File (gz_write (Externals := toy_externals) written
                     ++ gz_trailer (Externals := toy_externals) written))
    /\ (compress (H := toy_externals) 3 (FailAfter 1) rotated_example disk1
        = Some (Raise (IOError EIO gz_path), w')
        /\ trace w' = trace disk1 ++ OpOpenRead rotated_example :: attempts ++ gz_ops
        /\ fs w' !! rotated_example = Some (File two_lines)).
Proof.
  apply (compress_removes_after_close (H := toy_externals) 3 (FailAfter 1)
           rotated_example two_lines disk1).
  - reflexivity.
  - reflexivity.
  - vm_compute. lia.
Defined.

Example compress_example :
  fst <$> compress (H := toy_externals) 3 NoFault rotated_example disk1
  = Some (Ok (b "room/2015/01/31.json.gz")).
Proof. vm_compute. reflexivity. Qed.

Example compress_example_trace :
  (fun r => trace (snd r)) <$> compress (H := toy_externals) 3 (FailAfter 1) rotated_example disk1
  = Some [OpOpenRead rotated_example;
          OpCreateExcl (b "room/2015/01/31.json.gz") true;
          OpWrite (b "room/2015/01/31.json.gz") (b "Gfirst" ++ [newline]);
          OpWrite (b "room/2015/01/31.json.gz") (b "Z");
          OpClose (b "room/2015/01/31.json.gz");
          OpClose rotated_example].
Proof. vm_compute. reflexivity. Qed.

(** On an existing file whose path is not a rotated path, [compress]
    opens, raises, and closes. *)
Lemma compress_invalid_path_run `{Externals} (fuel : nat) (flt : fault)
    (path content : str) (w : world) :
  fs w !! path = Some (File content) ->
  _is_compress_path path = false ->
  compress fuel flt path w
  = Some (Raise (invalid_filename path),
          add_trace (OpClose path) (add_trace (OpOpenRead path) w)).
Proof.
  intros Hfile Hinvalid. apply is_compress_path_false in Hinvalid.
  unfold compress. erewrite bind_Ok; [|by apply open_rb_file].
  apply bind_Raise. eapply finally_run; [|reflexivity].
  apply bind_Raise. unfold lift. by rewrite Hinvalid.
Qed.

(** A name of the pattern as the specification writes it has
    [.compress-] eighteen characters before its end. *)
Lemma finalized_pattern_tag (filename : str) :
  finalized_pattern filename ->
  take 10 (drop (length filename - 18) filename) = b ".compress-".
Proof.
  intros (name & hex & -> & Hlen & _).
  rewrite !length_app, Hlen.
  replace (length name + (length (b ".compress-") + 8) - 18)%nat with (length name)
    by (cbn [length b list_ascii_of_string]; lia).
  rewrite drop_app_length. by rewrite take_app_length' by done.
Qed.

(** C3, as the code has it: the pattern is the one that
    [_split_compress_path] matches, a name free of newlines followed by
    [.compress-] and eight hexadecimal digits, both in any letter case,
    and possibly one final newline. On an existing file whose name has
    not that shape, [compress] raises the ValueError of
    [_split_compress_path]; the file system and the queue are as before,
    the file holds what it held, and the only operations were opening
    the file for reading and closing it: no output was created. *)
Theorem compress_invalid_path_untouched `{Externals} (fuel : nat) (flt : fault)
    (path content : str) (w : world) :
  fs w !! path = Some (File content) ->
  (forall name, ~ rotated_name (snd (path_split path)) name) ->
  exists w',
    compress fuel flt path w = Some (Raise (ValueError (b "invalid filename " ++ path)), w')
    /\ fs w' = fs w
    /\ fs w' !! path = Some (File content)
    /\ queue w' = queue w
    /\ trace w' = trace w ++ [OpOpenRead path; OpClose path].
Proof.
  intros Hfile Hshape.
  assert (_is_compress_path path = false) as Hinvalid.
  { destruct (_is_compress_path path) eqn:E; [|done].
    apply is_compress_path_iff in E as [name Hname]. by destruct (Hshape name). }
  exists (add_trace (OpClose path) (add_trace (OpOpenRead path) w)).
  split; [by apply (compress_invalid_path_run fuel flt path content)|].
  cbn [fs queue trace add_trace]. by rewrite <- app_assoc.
Qed.

Lemma compress_invalid_path_untouched_witness :
  exists w',
    compress (H := toy_externals) 3 NoFault active_example disk2
      = Some (Raise (ValueError (b "invalid filename " ++ active_example)), w')
    /\ fs w' = fs disk2
    /\ fs w' !! active_example = Some (File two_lines)
    /\ queue w' = queue disk2
    /\ trace w' = trace disk2 ++ [OpOpenRead active_example; OpClose active_example].
Proof.
  apply (compress_invalid_path_untouched (H := toy_externals) 3 NoFault
           active_example two_lines disk2).
  - reflexivity.
  - intros name Hname.
    assert (_is_compress_path active_example = true) as Hrotated
      by (apply is_compress_path_iff; by exists name).
    vm_compute in Hrotated. discriminate Hrotated.
Defined.

(** C3 as stated fails where the name differs from
    [<name>.compress-<8 hex digits>] by the letter case of the tag or
    by a newline after the digits: the file is compressed and removed. *)
Lemma compress_invalid_path_counterexample :
  ~ finalized_pattern (snd (path_split capital_example))
  /\ fs disk10 !! capital_example = Some (File two_lines)
  /\ (exists w',
        compress (H := toy_externals) 1 NoFault capital_example disk10
        = Some (Ok (b "room/2015/01/31.json.gz"), w')
        /\ fs w' !! capital_example = None
        /\ fs w' !! b "room/2015/01/31.json.gz" = Some (File (b "G" ++ two_lines ++ b "Z")))
  /\ ~ finalized_pattern (snd (path_split final_newline_example))
  /\ fs disk11 !! final_newline_example = Some (File two_lines)
  /\ (exists w',
        compress (H := toy_externals) 1 NoFault final_newline_example disk11
        = Some (Ok (b "room/2015/01/31.json.gz"), w')
        /\ fs w' !! final_newline_example = None
        /\ fs w' !! b "room/2015/01/31.json.gz" = Some (File (b "G" ++ two_lines ++ b "Z")))
  /\ ~ (forall (externals : Externals) (fuel : nat) (flt : fault) (path content : str)
          (w : world),
          fs w !! path = Some (File content) ->
          ~ finalized_pattern (snd (path_split path)) ->
          exists message w',
            compress fuel flt path w = Some (Raise (ValueError message), w')
            /\ fs w' = fs w).
Proof.
  assert (~ finalized_pattern (snd (path_split capital_example))) as Hcapital.
  { intros Hp. apply finalized_pattern_tag in Hp. vm_compute in Hp. discriminate Hp. }
  assert (~ finalized_pattern (snd (path_split final_newline_example))) as Hnewline.
  { intros Hp. apply finalized_pattern_tag in Hp. vm_compute in Hp. discriminate Hp. }
  split; [exact Hcapital|]. split; [reflexivity|]. split.
  { eexists. split; [vm_compute; reflexivity|]. split; reflexivity. }
  split; [exact Hnewline|]. split; [reflexivity|]. split.
  { eexists. split; [vm_compute; reflexivity|]. split; reflexivity. }
  intros Hclaim.
  destruct (Hclaim toy_externals 1%nat NoFault capital_example two_lines disk10
              eq_refl Hcapital) as (message & w' & Hrun & _).
  vm_compute in Hrun. discriminate Hrun.
Qed.

(** C10: [compress] opens the file before it looks at the name. On a
    path that names no regular file it raises the IOError of [open],
    whatever the name looks like, and changes nothing; the worker, which
    handles ValueError only, is left by that exception: nothing is
    logged, and the items behind it stay in the queue. *)
Theorem compress_missing_path_propagates `{Externals} (rounds fuel : nat)
    (flt : str -> fault) (path : str) (delay : Q) (rest : list (Q * str)) (w : world) :
  is_file (fs w) path = false ->
  queue w = (delay, path) :: rest ->
  exists code,
    compress fuel (flt path) path w = Some (Raise (IOError code path), w)
    /\ is_ValueError (Raise (A := str) (IOError code path)) = false
    /\ _compress (S rounds) fuel flt w = Some (Raise (IOError code path), set_queue rest w).
Proof.
  intros Hmissing Hqueue.
  assert (exists code, forall w0, fs w0 = fs w ->
            compress fuel (flt path) path w0 = Some (Raise (IOError code path), w0))
    as [code Hrun].
  { unfold is_file in Hmissing.
    destruct (fs w !! path) as [[content|]|] eqn:E; [done| |].
    - exists EISDIR. intros w0 Hw0. unfold compress. apply bind_Raise.
      unfold open_rb. by rewrite Hw0, E.
    - exists ENOENT. intros w0 Hw0. unfold compress. apply bind_Raise.
      unfold open_rb. by rewrite Hw0, E. }
  exists code. split; [by apply Hrun|]. split; [done|].
  cbn [_compress]. erewrite bind_Ok; [|unfold queue_wait; rewrite Hqueue; reflexivity].
  cbn beta iota. by rewrite (Hrun (set_queue rest w)).
Qed.

Lemma compress_missing_path_propagates_witness :
  exists code,
    compress (H := toy_externals) 3 NoFault active_example
        (set_queue [(0%Q, active_example); (0%Q, rotated_example)] disk1)
      = Some (Raise (IOError code active_example),
              set_queue [(0%Q, active_example); (0%Q, rotated_example)] disk1)
    /\ is_ValueError (Raise (A := str) (IOError code active_example)) = false
    /\ _compress (H := toy_externals) 2 3 (fun _ => NoFault)
         (set_queue [(0%Q, active_example); (0%Q, rotated_example)] disk1)
       = Some (Raise (IOError code active_example),
               set_queue [(0%Q, rotated_example)]
                 (set_queue [(0%Q, active_example); (0%Q, rotated_example)] disk1)).
Proof.
  apply (compress_missing_path_propagates (H := toy_externals) 1 3 (fun _ => NoFault)
           active_example 0%Q [(0%Q, rotated_example)]
           (set_queue [(0%Q, active_example); (0%Q, rotated_example)] disk1)).
  - reflexivity.
  - reflexivity.
Defined.

(** Where the file exists the worker logs the ValueError and goes on. *)
Example worker_skips_invalid_path :
  (fun r => (fst r, trace (snd r), queue (snd r)))
    <$> _compress (H := toy_externals) 3 3 (fun _ => NoFault)
          (set_queue [(0%Q, active_example); (0%Q, rotated_example)]
             (with_file active_example two_lines disk1))
  = Some (Ok tt,
          [OpOpenRead active_example; OpClose active_example;
           OpLogError (MsgInvalidPath active_example);
           OpOpenRead rotated_example;
           OpCreateExcl (b "room/2015/01/31.json.gz") true;
           OpWrite (b "room/2015/01/31.json.gz") (b "G" ++ two_lines);
           OpWrite (b "room/2015/01/31.json.gz") (b "Z");
           OpClose (b "room/2015/01/31.json.gz");
           OpClose rotated_example;
           OpRemove rotated_example;
           OpLogInfo (MsgCompressed (b "room/2015/01/31.json.gz"))],
          []).
Proof. vm_compute. reflexivity. Qed.

(** ** The collector *)

Lemma tagged_split path raw :
  newline ∉ snd (path_split path) ->
  _split_compress_path (tagged path raw) = Ok (path_split path).
Proof.
  intros Hnl. unfold tagged, _split_compress_path.
  pose proof (format_08x_hex (raw mod 2 ^ 32)%N) as Hhex.
  rewrite path_split_join;
    [|apply path_split_head|apply tag_not_empty|apply tag_no_slash; [apply path_split_tail|done]].
  rewrite re_match_tagged; [by destruct (path_split path)|done| |].
  - apply format_08x_length. by apply N.mod_lt.
  - eapply Forall_impl; [exact Hhex|]. apply hex_digits_hex_i.
Qed.

Lemma is_file_insert_file (m : gmap str node) (n c c' p : str) :
  m !! n = Some (File c) -> is_file (<[n := File c']> m) p = is_file m p.
Proof.
  intros Hn. unfold is_file. destruct (decide (n = p)) as [<-|Hne].
  - by rewrite lookup_insert_eq, Hn.
  - by rewrite lookup_insert_ne.
Qed.

Lemma write_pending_run (a : pyfile) (content : str) (w : world) :
  fs w !! name a = Some (File content) ->
  write_pending a w
  = Some (Ok tt, {| fs := <[name a := File (content ++ pending a)]> (fs w);
                    rng := rng w; rng_pos := rng_pos w; queue := queue w;
                    trace := trace w ++ flushed_write a |}).
Proof.
  intros Hfile. unfold write_pending, flushed_write. case_bool_decide as Hp.
  - rewrite Hp, !app_nil_r, insert_id by done. by destruct w.
  - by apply fd_write_file.
Qed.

(** Flushing and closing an open file hands the pending bytes to the
    file, in that order. *)
Lemma flush_close_run (a : pyfile) (content : str) (w : world) :
  closed a = false ->
  fs w !! name a = Some (File content) ->
  (a1 <- file_flush a ;; file_close a1) w
  = Some (Ok (PyFile (name a) [] true),
          {| fs := <[name a := File (content ++ pending a)]> (fs w);
             rng := rng w; rng_pos := rng_pos w; queue := queue w;
             trace := trace w ++ OpFlush (name a) :: flushed_write a ++ [OpClose (name a)] |}).
Proof.
  intros Hopen Hfile.
  pose proof (write_pending_run a content (add_trace (OpFlush (name a)) w) Hfile) as Hwp.
  cbn [fs rng rng_pos queue trace add_trace] in Hwp.
  erewrite bind_Ok.
  2:{ unfold file_flush. rewrite Hopen. erewrite bind_Ok; [|reflexivity].
      erewrite bind_Ok; [|exact Hwp]. reflexivity. }
  unfold file_close. cbn [closed name].
  erewrite bind_Ok; [|reflexivity].
  erewrite bind_Ok; [|reflexivity].
  unfold ret, add_trace. cbn [fs rng rng_pos queue trace].
  do 3 f_equal. rewrite <- !app_assoc. reflexivity.
Qed.

Lemma bind_assoc {A B C} (m : M A) (f : A -> M B) (g : B -> M C) (w : world) :
  bind m (fun x => bind (f x) g) w = bind (bind m f) g w.
Proof. unfold bind. by destruct (m w) as [[[v|e] w']|]. Qed.

Lemma flush_close_then {A} (a : pyfile) (content : str) (w : world) (K : pyfile -> M A) :
  closed a = false ->
  fs w !! name a = Some (File content) ->
  (a1 <- file_flush a ;; a2 <- file_close a1 ;; K a2) w
  = K (PyFile (name a) [] true)
      {| fs := <[name a := File (content ++ pending a)]> (fs w);
         rng := rng w; rng_pos := rng_pos w; queue := queue w;
         trace := trace w ++ OpFlush (name a) :: flushed_write a ++ [OpClose (name a)] |}.
Proof.
  intros Hopen Hfile. rewrite bind_assoc.
  by erewrite bind_Ok; [|by apply flush_close_run].
Qed.

Section CollectorFacts.
Context `{Externals}.

(** C6: on the rotate event with a file open, the collector flushes the
    file, closes it, renames it to a rotated name, puts that name in
    the queue with delay zero, and has no file open afterwards; the
    operations come in that order, the renaming after the closing. The
    rotated file holds all that was written. *)
Theorem rotation_finalizes_in_order (fuel : nat) (archive_dir room_name : str)
    (a : pyfile) (content : str) (w : world) (k : nat) :
  closed a = false ->
  fs w !! name a = Some (File content) ->
  (k < fuel)%nat ->
  fs w !! tagged (name a) (rng w (rng_pos w + k)%nat) = None ->
  (forall j, (j <= k)%nat -> fs w !! tagged (name a) (rng w (rng_pos w + j)%nat) ≠ Some Dir) ->
  exists new_path w',
    _collect_round fuel archive_dir room_name (Some a) RotateEvent w = Some (Ok None, w')
    /\ trace w' = trace w ++ OpFlush (name a) :: flushed_write a
                    ++ [OpClose (name a); OpRename (name a) new_path; OpQueue 0 new_path]
    /\ fs w' = <[new_path := File (content ++ pending a)]> (delete (name a) (fs w))
    /\ queue w' = queue w ++ [(0%Q, new_path)]
    /\ fs w !! new_path = None
    /\ (exists raw, new_path = tagged (name a) raw)
    /\ (newline ∉ snd (path_split (name a)) -> _is_compress_path new_path = true).
Proof.
  intros Hopen Hfile Hk Hfree Hnodir.
  pose proof (flush_close_run a content w Hopen Hfile) as Hfc.
  set (w1 := {| fs := <[name a := File (content ++ pending a)]> (fs w);
                rng := rng w; rng_pos := rng_pos w; queue := queue w;
                trace := trace w ++ OpFlush (name a) :: flushed_write a ++ [OpClose (name a)] |})
    in *.
  destruct (create_loop_returns fuel (fst (path_split (name a))) (snd (path_split (name a)))
              w1 k Hk) as (j & Hj & Hfj & Hrun).
  { cbn [fs rng rng_pos w1]. rewrite (is_file_insert_file _ _ content) by done.
    fold (tagged (name a) (rng w (rng_pos w + k)%nat)). unfold is_file. by rewrite Hfree. }
  cbn zeta in Hfj, Hrun. cbn [fs rng rng_pos w1] in Hfj, Hrun.
  fold (tagged (name a) (rng w (rng_pos w + j)%nat)) in Hfj, Hrun.
  set (new_path := tagged (name a) (rng w (rng_pos w + j)%nat)) in *.
  rewrite (is_file_insert_file _ _ content) in Hfj by done.
  assert (fs w !! new_path = None) as Hnone.
  { specialize (Hnodir j Hj). fold new_path in Hnodir. unfold is_file in Hfj.
    destruct (fs w !! new_path) as [[c|]|]; done. }
  assert (new_path ≠ name a) as Hne by (intros Heq; congruence).
  exists new_path.
  exists {| fs := <[new_path := File (content ++ pending a)]> (delete (name a) (fs w));
            rng := rng w; rng_pos := (rng_pos w + S j)%nat;
            queue := queue w ++ [(0%Q, new_path)];
            trace := trace w ++ OpFlush (name a) :: flushed_write a
                       ++ [OpClose (name a); OpRename (name a) new_path;
                           OpQueue 0 new_path] |}.
  cbn [fs rng rng_pos queue trace].
  split; [|repeat split; try done].
  - cbn [_collect_round]. rewrite (flush_close_then a content w) by done.
    fold w1. cbn [name].
    erewrite bind_Ok.
    2:{ unfold _rename. erewrite bind_Ok.
        2:{ unfold _create_compress_path.
            destruct (path_split (name a)) as [head tail]. exact Hrun. }
        erewrite bind_Ok; [reflexivity|].
        unfold os_rename. cbn [fs set_rng_pos w1].
        rewrite lookup_insert_eq, lookup_insert_ne by done. rewrite Hnone. reflexivity. }
    erewrite bind_Ok; [|reflexivity].
    unfold ret, queue_put, add_trace, set_queue, set_fs, set_rng_pos.
    cbn [fs rng rng_pos queue trace w1].
    rewrite delete_insert_eq. do 3 f_equal.
    repeat (rewrite <- app_assoc || rewrite <- app_comm_cons). reflexivity.
  - by eexists.
  - intros Hnl. unfold _is_compress_path, new_path. by rewrite tagged_split.
Qed.
End CollectorFacts.

Lemma rotation_finalizes_in_order_witness :
  exists new_path w',
    _collect_round (H := toy_externals) 1 (b "") (b "room") (Some open_example) RotateEvent disk2
      = Some (Ok None, w')
    /\ trace w' = trace disk2 ++ OpFlush (name open_example) :: flushed_write open_example
                    ++ [OpClose (name open_example); OpRename (name open_example) new_path;
                        OpQueue 0 new_path]
    /\ fs w' = <[new_path := File (two_lines ++ pending open_example)]>
                 (delete (name open_example) (fs disk2))
    /\ queue w' = queue disk2 ++ [(0%Q, new_path)]
    /\ fs disk2 !! new_path = None
    /\ (exists raw, new_path = tagged (name open_example) raw)
    /\ (newline ∉ snd (path_split (name open_example)) -> _is_compress_path new_path = true).
Proof.
  apply (rotation_finalizes_in_order (H := toy_externals) 1 (b "") (b "room")
           open_example two_lines disk2 0).
  - reflexivity.
  - reflexivity.
  - lia.
  - reflexivity.
  - intros j Hj. assert (j = 0%nat) as -> by lia. vm_compute. discriminate.
Defined.

Example rotation_example :
  (fun r => (fst r, trace (snd r), queue (snd r)))
    <$> _collect_round (H := toy_externals) 1 (b "") (b "room") (Some open_example)
          RotateEvent disk2
  = Some (Ok None,
          [OpFlush active_example;
           OpWrite active_example (b "third");
           OpClose active_example;
           OpRename active_example (b "room/2015/01/31.json.compress-0000002a");
           OpQueue 0 (b "room/2015/01/31.json.compress-0000002a")],
          [(0%Q, b "room/2015/01/31.json.compress-0000002a")]).
Proof. vm_compute. reflexivity. Qed.

(** C9: the rotate event with no file open does nothing: the round
    returns normally with still no file open, and the world (files,
    queue, operations) is the same; so it is after any number of rotate
    events in a row, up to the end of the stream. *)
Theorem rotation_while_idle_is_noop `{Externals} (fuel : nat) (archive_dir room_name : str)
    (w : world) (n : nat) :
  _collect_round fuel archive_dir room_name None RotateEvent w = Some (Ok None, w)
  /\ _collect fuel archive_dir room_name None (repeat RotateEvent n) w = Some (Ok tt, w).
Proof.
  split; [reflexivity|].
  induction n as [|n IH]; [reflexivity|].
  cbn [repeat _collect]. exact IH.
Qed.

(** ** Room names *)

Lemma always_safe_ascii c : c ∈ always_safe -> (N_of_ascii c <? 128)%N = true.
Proof.
  intros Hc. unfold always_safe in Hc. simpl in Hc.
  repeat (apply elem_of_cons in Hc as [-> | Hc]; [reflexivity|]).
  by apply elem_of_nil in Hc.
Qed.

Lemma room_safe_no_slash c : c ∈ room_safe -> c ≠ slash.
Proof.
  intros Hc. unfold room_safe, always_safe in Hc. simpl in Hc.
  repeat (apply elem_of_cons in Hc as [-> | Hc]; [done|]).
  by apply elem_of_nil in Hc.
Qed.

Lemma quoter_room c :
  quoter (b " @") c
  = if bool_decide (c ∈ room_safe) then [c] else "%"%char :: format_02X (N_of_ascii c).
Proof.
  unfold quoter, room_safe. case_bool_decide as Hs.
  - rewrite bool_decide_eq_true_2; [done|]. apply elem_of_app. by left.
  - case_bool_decide as Ha.
    + rewrite always_safe_ascii by done. cbn [andb].
      rewrite bool_decide_eq_true_2; [done|]. apply elem_of_app. by right.
    + rewrite andb_false_r. rewrite bool_decide_eq_false_2; [done|].
      intros [?|?]%elem_of_app; done.
Qed.

Lemma digit_char_upper_hex d : (d < 16)%N -> digit_char true d ∈ upper_hex_digits.
Proof.
  intros Hd. assert (exists k, d = N.of_nat k /\ (k < 16)%nat) as (k & -> & Hk).
  { exists (N.to_nat d). split; lia. }
  do 16 (destruct k as [|k]; [vm_compute; repeat constructor|]). lia.
Qed.

Lemma format_02X_no_slash n : slash ∉ format_02X n.
Proof.
  assert (Forall (fun c => c ∈ upper_hex_digits) (format_02X n)) as Hall.
  { unfold format_02X, zfill. apply Forall_app. split.
    - apply Forall_replicate. vm_compute. constructor.
    - apply digits_acc_Forall; [apply digit_char_upper_hex|done|constructor]. }
  intros Hin. rewrite Forall_forall in Hall. specialize (Hall _ Hin).
  unfold upper_hex_digits in Hall. simpl in Hall.
  repeat (apply elem_of_cons in Hall as [Hall | Hall]; [discriminate Hall|]).
  by apply elem_of_nil in Hall.
Qed.

Lemma format_02X_length n : (n < 256)%N -> length (format_02X n) = 2%nat.
Proof.
  intros Hn. apply zfill_length. unfold digits.
  pose proof (digits_acc_length true 16 (S (N.to_nat (N.log2 n))) n [] 1) as Hl.
  simpl length in Hl. rewrite Nat.add_0_r in Hl. apply Hl; [lia|].
  by replace (16 ^ N.of_nat 2)%N with 256%N by (by vm_compute).
Qed.

Lemma quoter_no_slash c : slash ∉ quoter (b " @") c.
Proof.
  rewrite quoter_room. case_bool_decide as Hs.
  - apply not_elem_of_cons. split; [|apply not_elem_of_nil].
    intros Heq. by apply (room_safe_no_slash c).
  - apply not_elem_of_cons. split; [done|apply format_02X_no_slash].
Qed.

(** [quote] maps the string byte by byte; its shortcuts for an empty
    string and for a string of safe characters give the same. *)
Lemma quote_bytewise s : quote s (b " @") = concat (map (quoter (b " @")) s).
Proof.
  unfold quote. case_bool_decide as He; [by subst|].
  destruct (forallb _ s) eqn:Hall; [|done].
  clear He. induction s as [|c s IH]; [done|].
  cbn [forallb] in Hall. apply andb_true_iff in Hall as [Hc Hall].
  cbn [map concat]. rewrite <- IH by done. rewrite quoter_room.
  rewrite bool_decide_eq_true_2; [done|].
  apply bool_decide_eq_true in Hc. unfold room_safe.
  apply elem_of_app in Hc as [?|?]; apply elem_of_app; auto.
Qed.

Lemma quote_no_slash s : slash ∉ quote s (b " @").
Proof.
  rewrite quote_bytewise. induction s as [|c s IH]; cbn [map concat]; [apply not_elem_of_nil|].
  apply not_elem_of_app. split; [apply quoter_no_slash|done].
Qed.

Example encode_bare_room :
  _encode_room_jid (H := plain_jids) bare_room = Ok (b "lobby room@conference.example.com").
Proof. reflexivity. Qed.

Example encode_full_room :
  _encode_room_jid (H := plain_jids) full_room = Raise bare_mismatch.
Proof. reflexivity. Qed.

Example encode_unsafe_room :
  _encode_room_jid (H := plain_jids) (u "a+b@" ++ [233%N] ++ u ".example")
  = Ok (b "a%2Bb@%C3%A9.example").
Proof. reflexivity. Qed.

(** ** Compressed names are not rotated names *)

Lemma rfind_snoc_other c x y : x ≠ c -> rfind c (y ++ [x]) = rfind c y.
Proof.
  intros Hx. induction y as [|a y IH]; simpl.
  - by rewrite bool_decide_eq_false_2.
  - by rewrite IH.
Qed.

Lemma rfind_upper_bound c s : rfind c s < Z.of_nat (length s).
Proof.
  induction s as [|x s IH]; simpl; [lia|].
  destruct (0 <=? rfind c s); [lia|]. case_bool_decide; lia.
Qed.

Lemma path_split_last (y : str) (x : ascii) :
  x ≠ slash -> exists y', snd (path_split (y ++ [x])) = y' ++ [x].
Proof.
  intros Hx. rewrite path_split_eq. cbn zeta. rewrite rfind_snoc_other by done.
  unfold slice_from. exists (drop (Z.to_nat (rfind slash y + 1)) y).
  rewrite drop_app_le; [done|].
  pose proof (rfind_upper_bound slash y). pose proof (rfind_lower_bound slash y). lia.
Qed.

Lemma path_join_tail (d t : str) : exists pre, path_join d t = pre ++ t.
Proof.
  unfold path_join. destruct (startswith t [slash]); [by exists []|].
  destruct (bool_decide (d = []) || endswith d [slash]); [by exists d|].
  exists (d ++ [slash]). by rewrite <- app_assoc.
Qed.

Lemma rotated_name_last (filename g : str) :
  rotated_name filename g ->
  exists f' c, filename = f' ++ [c] /\ (hex_i c = true \/ c = newline).
Proof.
  intros (lit & hex & nl & -> & _ & _ & Hlen & Hhex & [-> | ->]).
  - destruct (decide (hex = [])) as [->|Hne]; [done|].
    destruct (exists_last Hne) as (hex' & c & ->).
    rewrite Forall_app, Forall_singleton in Hhex. destruct Hhex as [_ Hc].
    exists (g ++ lit ++ hex'), c. rewrite app_nil_r. split; [|by left].
    by rewrite <- !app_assoc.
  - exists (g ++ lit ++ hex), newline. split; [|by right]. by rewrite <- !app_assoc.
Qed.

(** A path that ends with a character that is neither a hexadecimal
    digit nor a newline is not a rotated path. *)
Lemma not_rotated_by_last (d t : str) (c : ascii) :
  c ≠ slash -> hex_i c = false -> c ≠ newline ->
  _is_compress_path (path_join d (t ++ [c])) = false.
Proof.
  intros Hslash Hhex Hnl.
  destruct (path_join_tail d (t ++ [c])) as [pre Hpre].
  unfold _is_compress_path, _split_compress_path. rewrite Hpre, app_assoc.
  destruct (path_split_last (pre ++ t) c) as [y' Hy']; [done|].
  destruct (path_split ((pre ++ t) ++ [c])) as [directory filename].
  cbn [snd] in Hy'. subst filename.
  destruct (re_match compress_re (y' ++ [c])) as [gs|] eqn:E; [|done].
  exfalso. apply compress_re_sound in E as (g & _ & Hrot).
  apply rotated_name_last in Hrot as (f' & c' & Heq & Hc).
  apply app_inj_tail in Heq as [_ <-]. destruct Hc; congruence.
Qed.

(** Compressed files and active files are not rotated files. *)
Lemma gz_not_rotated (d t : str) : _is_compress_path (path_join d (t ++ b ".gz")) = false.
Proof.
  change (b ".gz") with (b ".g" ++ ["z"%char]). rewrite app_assoc.
  by apply not_rotated_by_last.
Qed.

Lemma json_not_rotated (d t : str) : _is_compress_path (path_join d (t ++ b ".json")) = false.
Proof.
  change (b ".json") with (b ".jso" ++ ["n"%char]). rewrite app_assoc.
  by apply not_rotated_by_last.
Qed.

Lemma unique_candidate_not_rotated (directory prefix suffix : str) (count : N) :
  _is_compress_path (unique_candidate directory prefix (suffix ++ b ".gz") count) = false.
Proof.
  unfold unique_candidate. destruct (count =? 0)%N.
  - rewrite app_assoc. apply gz_not_rotated.
  - rewrite !app_assoc. apply gz_not_rotated.
Qed.

(** The last component of a joined path is the file name joined. *)
Lemma path_split_join_snd (root filename : str) :
  filename ≠ [] -> slash ∉ filename -> snd (path_split (path_join root filename)) = filename.
Proof.
  intros Hne Hs.
  assert (path_join root filename = filename
          \/ exists pre, path_join root filename = pre ++ slash :: filename) as [-> | [pre ->]].
  { unfold path_join, startswith. rewrite bool_decide_eq_false_2.
    2:{ intros [k Hk]. destruct filename as [|x t]; [done|]. simplify_eq/=. set_solver. }
    destruct (bool_decide (root = [])) eqn:Hroot; simpl.
    - apply bool_decide_eq_true in Hroot as ->. by left.
    - destruct (endswith root [slash]) eqn:Hend; [|right; by exists root].
      apply bool_decide_eq_true in Hend as [pre ->]. right. exists pre.
      by rewrite <- app_assoc. }
  - rewrite path_split_eq. cbn zeta. by rewrite (rfind_absent _ _ Hs).
  - rewrite path_split_eq. cbn zeta. rewrite (rfind_last _ _ _ Hs). unfold slice_from.
    replace (Z.to_nat (Z.of_nat (length pre) + 1)) with (length (pre ++ [slash]))
      by (rewrite length_app; simpl; lia).
    replace (pre ++ slash :: filename) with ((pre ++ [slash]) ++ filename)
      by (by rewrite <- app_assoc).
    by rewrite drop_app_length.
Qed.

(** A file found by the walk is a rotated file exactly when its name
    has the shape of a rotated name. *)
Lemma walked_file_rotated (root filename : str) :
  filename ≠ [] -> slash ∉ filename ->
  _is_compress_path (path_join root filename) = true <-> exists g, rotated_name filename g.
Proof. intros Hne Hs. by rewrite is_compress_path_iff, path_split_join_snd. Qed.

(** ** The startup scan *)

Lemma scan_filenames_run (root : str) (filenames : list str) (w : world) :
  scan_filenames root filenames w
  = Some (Ok tt,
          {| fs := fs w; rng := rng w; rng_pos := rng_pos w;
             queue := queue w
               ++ map (fun p => (0%Q, p))
                    (List.filter _is_compress_path (map (path_join root) filenames));
             trace := trace w
               ++ map (OpQueue 0)
                    (List.filter _is_compress_path (map (path_join root) filenames)) |}).
Proof.
  revert w. induction filenames as [|filename rest IH]; intros w.
  - cbn. rewrite !app_nil_r. by destruct w.
  - cbn [scan_filenames map List.filter].
    destruct (_is_compress_path (path_join root filename)).
    + erewrite bind_Ok; [|reflexivity]. rewrite IH.
      unfold add_trace, set_queue. cbn [fs rng rng_pos queue trace map].
      do 3 f_equal; by rewrite <- app_assoc.
    + erewrite bind_Ok; [|reflexivity]. by rewrite IH.
Qed.

Lemma scan_walk_run (entries : list (str * list str * list str)) (w : world) :
  scan_walk entries w
  = Some (Ok tt,
          {| fs := fs w; rng := rng w; rng_pos := rng_pos w;
             queue := queue w
               ++ map (fun p => (0%Q, p)) (List.filter _is_compress_path (walked_files entries));
             trace := trace w
               ++ map (OpQueue 0) (List.filter _is_compress_path (walked_files entries)) |}).
Proof.
  revert w. induction entries as [|[[root dirs] filenames] rest IH]; intros w.
  - cbn. rewrite !app_nil_r. by destruct w.
  - cbn [scan_walk]. erewrite bind_Ok; [|apply scan_filenames_run]. rewrite IH.
    cbn [fs rng rng_pos queue trace walked_files flat_map fst snd].
    fold (walked_files rest).
    rewrite List.filter_app, !map_app. do 3 f_equal; by rewrite <- app_assoc.
Qed.

(** Induction on a tree with the property at hand for its sub-trees. *)
Lemma dirtree_nested_ind (P : dirtree -> Prop) :
  (forall dirs nondirs, Forall (fun d => P d.2) dirs -> P (DirTree dirs nondirs)) ->
  forall t, P t.
Proof.
  intros Hstep. fix IH 1. intros [dirs nondirs]. apply Hstep.
  induction dirs as [|[name sub] dirs IHd]; constructor; [apply IH | exact IHd].
Qed.

(** The walk visits the files of the tree. *)
Lemma walked_files_tree (top : str) (t : dirtree) :
  walked_files (os_walk top t) = tree_files top t.
Proof.
  revert top. induction t as [dirs nondirs IH] using dirtree_nested_ind. intros top.
  cbn [os_walk tree_files walked_files flat_map fst snd]. f_equal.
  fold (walked_files (flat_map (fun d => let '(name, sub) := d in os_walk (path_join top name) sub) dirs)).
  induction IH as [|[name sub] dirs Hsub _ IHdirs]; [done|].
  cbn [flat_map]. unfold walked_files in *. rewrite flat_map_app.
  cbn [snd] in Hsub. by rewrite Hsub, IHdirs.
Qed.

Section ArchiveFacts.
Context `{Externals} `{JIDLib}.

(** C5: when the pipeline of a room starts, [_archive] walks the tree
    below the directory of the room and puts in the new queue, with
    delay zero and in the order of the walk, exactly the files whose
    path is a rotated path, that is, whose name has the shape of a
    rotated name; active [.json] files and compressed [.gz] files are
    not among them. All that happens before any of the three streams
    (collector, compression worker, rotation) is made, and nothing on
    disk changes. *)
Theorem startup_scan_seeds_queue (archive_dir : str) (room_bare_jid : jid_arg)
    (listing : option dirtree) (room_name : str) (w : world) :
  _encode_room_jid room_bare_jid = Ok room_name ->
  path_join archive_dir room_name = normpath (path_join archive_dir room_name) ->
  let rotated := rotated_files (path_join archive_dir room_name) listing in
  exists w',
    _archive archive_dir room_bare_jid listing w = Some (Ok room_name, w')
    /\ queue w' = map (fun p => (0%Q, p)) rotated
    /\ trace w' = trace w ++ map (OpQueue 0) rotated
                    ++ [OpSpawn CollectStream; OpSpawn CompressStream; OpSpawn RotateStream]
    /\ fs w' = fs w
    /\ (forall delay p, (delay, p) ∈ queue w' <->
          delay = 0%Q
          /\ p ∈ listed_files (path_join archive_dir room_name) listing
          /\ _is_compress_path p = true)
    /\ (forall d t, _is_compress_path (path_join d (t ++ b ".json")) = false
                   /\ _is_compress_path (path_join d (t ++ b ".gz")) = false)
    /\ (forall root filename, filename ≠ [] -> slash ∉ filename ->
          _is_compress_path (path_join root filename) = true
          <-> exists name, rotated_name filename name).
Proof.
  intros Hname Hnorm. cbn zeta.
  set (_dir := path_join archive_dir room_name) in *.
  assert (walked_files (match listing with Some t => os_walk _dir t | None => [] end)
          = listed_files _dir listing) as Hwalk.
  { destruct listing as [t|]; [apply walked_files_tree|done]. }
  eexists. split.
  - unfold _archive. erewrite bind_Ok; [|reflexivity].
    erewrite bind_Ok; [|unfold lift; rewrite Hname; reflexivity].
    cbn beta zeta. fold _dir. rewrite bool_decide_eq_false_2 by (intros Hne; by apply Hne).
    erewrite bind_Ok; [|apply scan_walk_run].
    rewrite Hwalk.
    do 3 (erewrite bind_Ok; [|reflexivity]). reflexivity.
  - unfold add_trace, set_queue. cbn [fs rng rng_pos queue trace app].
    fold (rotated_files _dir listing).
    split; [done|]. split; [by rewrite <- !app_assoc|]. split; [done|].
    split; [|split; [intros d t; split; [apply json_not_rotated | apply gz_not_rotated]
                    |apply walked_file_rotated]].
    intros delay p. unfold rotated_files. rewrite list_elem_of_fmap. split.
    + intros (p' & Heq & Hin). simplify_eq.
      apply list_elem_of_In, List.filter_In in Hin as [Hin Hrot].
      by rewrite <- list_elem_of_In in Hin.
    + intros (-> & Hin & Hrot). exists p. split; [done|].
      apply list_elem_of_In, List.filter_In. by rewrite <- list_elem_of_In.
Qed.
End ArchiveFacts.

Lemma startup_scan_seeds_queue_witness :
  let rotated := rotated_files (path_join (b "/var/archive") (b "lobby room@conference.example.com"))
                   (Some crashed_room) in
  exists w',
    _archive (H := toy_externals) (H0 := plain_jids) (b "/var/archive") bare_room
      (Some crashed_room) world0
    = Some (Ok (b "lobby room@conference.example.com"), w')
    /\ queue w' = map (fun p => (0%Q, p)) rotated
    /\ trace w' = trace world0 ++ map (OpQueue 0) rotated
                    ++ [OpSpawn CollectStream; OpSpawn CompressStream; OpSpawn RotateStream]
    /\ fs w' = fs world0
    /\ (forall delay p, (delay, p) ∈ queue w' <->
          delay = 0%Q
          /\ p ∈ listed_files
                  (path_join (b "/var/archive") (b "lobby room@conference.example.com"))
                  (Some crashed_room)
          /\ _is_compress_path p = true)
    /\ (forall d t, _is_compress_path (path_join d (t ++ b ".json")) = false
                   /\ _is_compress_path (path_join d (t ++ b ".gz")) = false)
    /\ (forall root filename, filename ≠ [] -> slash ∉ filename ->
          _is_compress_path (path_join root filename) = true
          <-> exists name, rotated_name filename name).
Proof.
  apply (startup_scan_seeds_queue (H := toy_externals) (H0 := plain_jids)
           (b "/var/archive") bare_room (Some crashed_room)
           (b "lobby room@conference.example.com") world0).
  - reflexivity.
  - reflexivity.
Defined.

Example startup_scan_example :
  (fun r => queue (snd r))
    <$> _archive (H := toy_externals) (H0 := plain_jids) (b "/var/archive") bare_room
          (Some crashed_room) world0
  = Some [(0%Q, b "/var/archive/lobby room@conference.example.com/2015/01/29.json.compress-0123abcd");
          (0%Q, b "/var/archive/lobby room@conference.example.com/2015/01/30.json.compress-89abcdef");
          (0%Q, b "/var/archive/lobby room@conference.example.com/2014/12/31.json.compress-00c0ffee")].
Proof. vm_compute. reflexivity. Qed.

(** When the loop returns, it returns with a candidate that was free. *)
Lemma unique_loop_inv fuel (directory prefix suffix : str) (count : N) (w : world) r w' :
  _unique_writable_file_loop fuel directory prefix suffix count
    (unique_candidate directory prefix suffix count) w = Some (r, w') ->
  exists k, (k < fuel)%nat
    /\ fs w !! unique_candidate directory prefix suffix (count + N.of_nat k) = None.
Proof.
  revert count w. induction fuel as [|fuel IH]; intros count w; [done|].
  cbn [_unique_writable_file_loop]. unfold os_open_excl.
  destruct (fs w !! unique_candidate directory prefix suffix count) as [nd|] eqn:E.
  - cbn zeta. rewrite unique_candidate_next.
    intros Hrun. apply IH in Hrun as (k & Hk & Hfree). cbn [fs add_trace] in Hfree.
    exists (S k). split; [lia|].
    by replace (count + N.of_nat (S k))%N with (count + 1 + N.of_nat k)%N by lia.
  - intros _. exists 0%nat. split; [lia|]. by rewrite N.add_0_r.
Qed.

(** ** Every outcome of a compression *)

Lemma bind_None {A B} (m : M A) (k : A -> M B) w : m w = None -> bind m k w = None.
Proof. intros Hm. unfold bind. by rewrite Hm. Qed.

Lemma finally_None {A} (m : M A) (c : M unit) w : m w = None -> finally m c w = None.
Proof. intros Hm. unfold finally. by rewrite Hm. Qed.

Lemma compressed_paths_app (l1 l2 : list op) :
  compressed_paths (l1 ++ l2) = compressed_paths l1 ++ compressed_paths l2.
Proof. apply omap_app. Qed.

Lemma compressed_paths_quiet (ops : list op) : Forall quiet ops -> compressed_paths ops = [].
Proof.
  induction 1 as [|o ops Ho _ IH]; [done|].
  destruct o; try done; exact IH.
Qed.

Lemma failed_creates_quiet (directory prefix suffix : str) (count : N) (n : nat) :
  Forall quiet (failed_creates directory prefix suffix count n).
Proof. unfold failed_creates. apply Forall_map. by apply Forall_forall. Qed.

Section OutcomeFacts.
Context `{Externals}.

(** Whatever [compress] returns or raises: the queue is as before,
    nothing is logged, paths that are not rotated paths stay, and a
    returned path is a new one that is not a rotated path. *)
Lemma compress_outcome fuel flt (path : str) (w : world) r w' :
  compress fuel flt path w = Some (r, w') ->
  queue w' = queue w
  /\ compressed_paths (trace w') = compressed_paths (trace w)
  /\ (forall p, _is_compress_path p = false -> is_Some (fs w !! p) -> is_Some (fs w' !! p))
  /\ (forall gz, r = Ok gz ->
        fs w !! gz = None /\ is_Some (fs w' !! gz) /\ _is_compress_path gz = false).
Proof.
  intros Hrun.
  destruct (fs w !! path) as [[content|]|] eqn:Hfile.
  2,3: (unfold compress in Hrun; erewrite bind_Raise in Hrun;
        [|unfold open_rb; rewrite Hfile; reflexivity]; simplify_eq; by repeat split).
  destruct (_is_compress_path path) eqn:Hvalid.
  - destruct (is_compress_path_true _ Hvalid) as (directory & filename & Hsplit).
    destruct (_unique_writable_file_loop fuel directory (gz_prefix filename)
                (gz_suffix filename) 0
                (unique_candidate directory (gz_prefix filename) (gz_suffix filename) 0)
                (add_trace (OpOpenRead path) w))
      as [[r1 w1]|] eqn:Hloop.
    + apply unique_loop_inv in Hloop as (k & Hk & Hfree).
      rewrite N.add_0_l in Hfree. cbn [fs add_trace] in Hfree.
      destruct (compress_run fuel flt path content directory filename w k Hfile Hsplit Hk Hfree)
        as (j & _ & _ & Hnone & Hrun').
      cbn zeta in Hnone, Hrun'. rewrite Hrun' in Hrun. clear Hrun'.
      pose proof (unique_candidate_not_rotated directory (gz_prefix filename)
                    (snd (splitext filename)) (N.of_nat j)) as Hgz.
      fold (gz_suffix filename) in Hgz.
      revert Hrun Hnone Hgz.
      generalize (unique_candidate directory (gz_prefix filename) (gz_suffix filename)
                    (N.of_nat j)) as gz_path.
      intros gz_path Hrun Hnone Hgz.
      assert (gz_path ≠ path) as Hne by (intros Heq; congruence).
      injection Hrun as <- <-. cbn [fs queue trace].
      split; [done|]. split.
      { rewrite compressed_paths_app, (compressed_paths_quiet (_ :: _)), app_nil_r; [done|].
        constructor; [done|]. apply Forall_app. split; [apply failed_creates_quiet|].
        destruct flt; by repeat constructor. }
      split.
      * intros p Hp Hsome. assert (p ≠ path) as Hpp by (intros ->; congruence).
        destruct (decide (p = gz_path)) as [->|Hpg].
        -- destruct flt; [rewrite lookup_delete_ne by done|]; by rewrite lookup_insert_eq.
        -- destruct flt; [rewrite lookup_delete_ne by done|]; by rewrite lookup_insert_ne.
      * intros gz Hgz'. destruct flt; [|done]. simplify_eq.
        split; [done|]. split; [|done].
        by rewrite lookup_delete_ne, lookup_insert_eq.
    + exfalso. unfold compress in Hrun.
      erewrite bind_Ok in Hrun; [|by apply open_rb_file].
      erewrite bind_None in Hrun; [done|].
      apply finally_None. erewrite bind_Ok; [|unfold lift; rewrite Hsplit; reflexivity].
      cbn beta iota. unfold gz_prefix, gz_suffix in Hloop.
      destruct (splitext filename) as [prefix suffix]. cbn [fst snd] in Hloop.
      unfold _unique_writable_file. by apply bind_None.
  - pose proof (compress_invalid_path_run fuel flt path content w Hfile Hvalid) as Hrun'.
    rewrite Hrun' in Hrun. injection Hrun as <- <-. cbn [fs queue trace add_trace].
    split; [done|]. split.
    { rewrite <- app_assoc, compressed_paths_app, (compressed_paths_quiet (_ ++ _)), app_nil_r;
        [done|]. by repeat constructor. }
    split; [done|]. done.
Qed.
(** With fuel above the size of the file system plus one, [compress]
    returns or raises; it adds at most one file. *)
Lemma compress_total fuel flt (path : str) (w : world) :
  (S (size (fs w)) < fuel)%nat ->
  exists r w', compress fuel flt path w = Some (r, w')
    /\ (size (fs w') <= S (size (fs w)))%nat.
Proof.
  intros Hfuel. destruct (fs w !! path) as [[content|]|] eqn:Hfile.
  - destruct (_is_compress_path path) eqn:Hvalid.
    + destruct (is_compress_path_true _ Hvalid) as (directory & filename & Hsplit).
      destruct (unique_candidate_free directory (gz_prefix filename) (gz_suffix filename) (fs w))
        as (k & Hk & Hfree).
      destruct (compress_run fuel flt path content directory filename w k Hfile Hsplit)
        as (j & _ & _ & Hnone & Hrun); [lia|done|].
      cbn zeta in Hnone, Hrun. eexists _, _. split; [exact Hrun|]. cbn [fs].
      assert (unique_candidate directory (gz_prefix filename) (gz_suffix filename) (N.of_nat j)
              ≠ path) as Hne by (intros Heq; congruence).
      destruct flt.
      * rewrite map_size_delete_Some by (by rewrite lookup_insert_ne, Hfile).
        rewrite map_size_insert_None by done. simpl. lia.
      * by rewrite map_size_insert_None.
    + eexists _, _. split; [by apply (compress_invalid_path_run fuel flt path content)|].
      cbn [fs add_trace]. lia.
  - exists (Raise (IOError EISDIR path)), w. split; [|lia].
    unfold compress. apply bind_Raise. unfold open_rb. by rewrite Hfile.
  - exists (Raise (IOError ENOENT path)), w. split; [|lia].
    unfold compress. apply bind_Raise. unfold open_rb. by rewrite Hfile.
Qed.
End OutcomeFacts.

Section WorkerFacts.
Context `{Externals}.

Lemma compress_step_unfold rounds fuel flt (w : world) delay path rest :
  queue w = (delay, path) :: rest ->
  _compress (S rounds) fuel flt w
  = match compress fuel (flt path) path (set_queue rest w) with
    | None => None
    | Some (Ok gz, w1) => _compress rounds fuel flt (add_trace (OpLogInfo (MsgCompressed gz)) w1)
    | Some (Raise (ValueError _), w1) =>
        _compress rounds fuel flt (add_trace (OpLogError (MsgInvalidPath path)) w1)
    | Some (Raise e, w1) => Some (Raise e, w1)
    end.
Proof.
  intros Hq. cbn [_compress].
  erewrite bind_Ok; [|unfold queue_wait; rewrite Hq; reflexivity].
  cbn beta iota.
  destruct (compress fuel (flt path) path (set_queue rest w)) as [[[gz|e] w1]|]; [done| |done].
  by destruct e.
Qed.

(** The paths that a run of the worker logs as compressed are pairwise
    different, none of them existed when the run began, and all of
    them exist when it ends. *)
Lemma worker_outputs rounds fuel flt (w : world) r w' :
  _compress rounds fuel flt w = Some (r, w') ->
  exists outs,
    compressed_paths (trace w') = compressed_paths (trace w) ++ outs
    /\ NoDup outs
    /\ (forall p, p ∈ outs ->
          fs w !! p = None /\ is_Some (fs w' !! p) /\ _is_compress_path p = false)
    /\ (forall p, _is_compress_path p = false -> is_Some (fs w !! p) -> is_Some (fs w' !! p)).
Proof.
  revert w. induction rounds as [|rounds IH]; intros w Hrun; [done|].
  destruct (queue w) as [|[delay path] rest] eqn:Hq.
  { cbn [_compress] in Hrun.
    erewrite bind_Ok in Hrun; [|unfold queue_wait; rewrite Hq; reflexivity].
    injection Hrun as <- <-. exists []. rewrite app_nil_r.
    split; [done|]. split; [constructor|]. split; [|done].
    intros p Hp. by apply elem_of_nil in Hp. }
  rewrite (compress_step_unfold _ _ _ _ _ _ _ Hq) in Hrun.
  destruct (compress fuel (flt path) path (set_queue rest w)) as [[[gz|e] w1]|] eqn:Hc;
    [| |done].
  - destruct (compress_outcome _ _ _ _ _ _ Hc) as (_ & Htr & Hkeep & Hnew).
    destruct (Hnew gz eq_refl) as (Hgz0 & Hgz1 & Hgzr). cbn [fs trace set_queue] in *.
    destruct (IH _ Hrun) as (outs & Htr2 & Hnd & Houts & Hkeep2).
    cbn [fs trace add_trace] in *.
    exists (gz :: outs). split.
    { rewrite Htr2, compressed_paths_app, Htr. cbn. by rewrite <- app_assoc. }
    split.
    { constructor; [|done]. intros Hin. destruct (Houts _ Hin) as (Hno & _).
      rewrite Hno in Hgz1. by destruct Hgz1. }
    split.
    + intros p [->|Hin]%elem_of_cons.
      * split; [done|]. split; [|done]. by apply Hkeep2.
      * destruct (Houts _ Hin) as (Hno & Hyes & Hrot). split; [|done].
        destruct (fs w !! p) eqn:E; [|done].
        assert (is_Some (fs w1 !! p)) as Hs by (apply Hkeep; [done|by rewrite E]).
        rewrite Hno in Hs. by destruct Hs.
    + intros p Hrot Hp. by apply Hkeep2, Hkeep.
  - destruct (compress_outcome _ _ _ _ _ _ Hc) as (_ & Htr & Hkeep & _).
    cbn [fs trace set_queue] in *.
    assert (forall msg, e = ValueError msg ->
              exists outs,
                compressed_paths (trace w') = compressed_paths (trace w) ++ outs
                /\ NoDup outs
                /\ (forall p, p ∈ outs ->
                      fs w !! p = None /\ is_Some (fs w' !! p) /\ _is_compress_path p = false)
                /\ (forall p, _is_compress_path p = false ->
                      is_Some (fs w !! p) -> is_Some (fs w' !! p))) as Hvalue.
    { intros msg ->. destruct (IH _ Hrun) as (outs & Htr2 & Hnd & Houts & Hkeep2).
      cbn [fs trace add_trace] in *.
      exists outs. split.
      { rewrite Htr2, compressed_paths_app, Htr. cbn. by rewrite app_nil_r. }
      split; [done|]. split.
      - intros p Hin. destruct (Houts _ Hin) as (Hno & Hyes & Hrot).
        split; [|done]. destruct (fs w !! p) eqn:E; [|done].
        assert (is_Some (fs w1 !! p)) as Hs by (apply Hkeep; [done|by rewrite E]).
        rewrite Hno in Hs. by destruct Hs.
      - intros p Hrot Hp. by apply Hkeep2, Hkeep. }
    destruct e as [msg|code p|code p|]; [by eapply Hvalue| | |];
      (injection Hrun as <- <-; exists []; rewrite app_nil_r;
       split; [done|]; split; [constructor|]; split; [|done];
       intros q Hq'; by apply elem_of_nil in Hq').
Qed.
(** With rounds above the length of the queue and fuel above the size
    that the file system can reach, the worker comes to its end. *)
Lemma worker_total rounds fuel flt (w : world) :
  (length (queue w) < rounds)%nat ->
  (S (size (fs w)) + length (queue w) < fuel)%nat ->
  exists r w', _compress rounds fuel flt w = Some (r, w').
Proof.
  revert w. induction rounds as [|rounds IH]; intros w Hrounds Hfuel; [lia|].
  destruct (queue w) as [|[delay path] rest] eqn:Hq.
  { exists (Ok tt), w. cbn [_compress].
    by erewrite bind_Ok; [|unfold queue_wait; rewrite Hq; reflexivity]. }
  rewrite (compress_step_unfold _ _ _ _ _ _ _ Hq). cbn [length] in Hrounds, Hfuel.
  destruct (compress_total fuel (flt path) path (set_queue rest w))
    as (r1 & w1 & Hc & Hsize); [cbn [fs set_queue]; lia|].
  rewrite Hc. destruct (compress_outcome _ _ _ _ _ _ Hc) as (Hqueue & _).
  cbn [fs queue set_queue] in Hsize, Hqueue.
  assert (forall o, exists r w', _compress rounds fuel flt (add_trace o w1) = Some (r, w'))
    as Hnext.
  { intros o. apply IH; cbn [fs queue add_trace]; rewrite ?Hqueue; lia. }
  destruct r1 as [gz|e]; [apply Hnext|].
  destruct e; [apply Hnext|by eauto..].
Qed.
End WorkerFacts.

(** ** Loops side by side *)

(** The loop of [_unique_writable_file] is its round, repeated. *)
Lemma unique_loop_round fuel (directory prefix suffix : str) (count : N) (path : str)
    (w : world) :
  _unique_writable_file_loop (S fuel) directory prefix suffix count path w
  = match naming_round (Naming directory prefix suffix count path false) w with
    | Some (Ok p, w') =>
        if nm_done p then Some (Ok (nm_path p), w')
        else _unique_writable_file_loop fuel directory prefix suffix (nm_count p) (nm_path p) w'
    | Some (Raise e, w') => Some (Raise e, w')
    | None => None
    end.
Proof.
  cbn [_unique_writable_file_loop]. unfold naming_round, os_open_excl.
  cbn [nm_done nm_path nm_directory nm_prefix nm_suffix nm_count].
  by destruct (fs w !! path).
Qed.

Lemma naming_round_cases (p : naming) (w : world) :
  nm_done p = false ->
  (exists p', nm_done p' = false /\ is_Some (fs w !! nm_path p) /\
     naming_round p w = Some (Ok p', add_trace (OpCreateExcl (nm_path p) false) w))
  \/ (exists p', nm_done p' = true /\ nm_path p' = nm_path p /\ fs w !! nm_path p = None /\
        naming_round p w
        = Some (Ok p', add_trace (OpCreateExcl (nm_path p) true)
                         (set_fs <[nm_path p := File []]> w))).
Proof.
  intros Hp. unfold naming_round, os_open_excl. rewrite Hp.
  destruct (fs w !! nm_path p) eqn:E; [left|right].
  - exists (Naming (nm_directory p) (nm_prefix p) (nm_suffix p) (nm_count p + 1)
              (path_join (nm_directory p)
                 (nm_prefix p ++ b "-" ++ format_08d (nm_count p + 1) ++ nm_suffix p))
              false).
    by repeat split.
  - exists (Naming (nm_directory p) (nm_prefix p) (nm_suffix p) (nm_count p) (nm_path p) true).
    by repeat split.
Qed.

Lemma committed_insert_none (ps : list naming) (i : nat) (p p' : naming) :
  ps !! i = Some p -> nm_done p = false -> nm_done p' = false ->
  committed (<[i := p']> ps) = committed ps.
Proof.
  intros Hi Hp Hp'. unfold committed.
  rewrite insert_take_drop by (by eapply lookup_lt_Some).
  rewrite <- (take_drop_middle ps i p Hi) at 3.
  rewrite !omap_app. f_equal. cbn. by rewrite Hp, Hp'.
Qed.

Lemma committed_insert_some (ps : list naming) (i : nat) (p p' : naming) :
  ps !! i = Some p -> nm_done p = false -> nm_done p' = true ->
  committed (<[i := p']> ps) ≡ₚ nm_path p' :: committed ps.
Proof.
  intros Hi Hp Hp'. unfold committed.
  rewrite insert_take_drop by (by eapply lookup_lt_Some).
  rewrite <- (take_drop_middle ps i p Hi) at 3.
  rewrite !omap_app. cbn. rewrite Hp, Hp'. by rewrite Permutation_middle.
Qed.

Lemma interleave_inv (w0 : world) (schedule : list nat) (ps : list naming) (w : world) :
  naming_inv w0 ps w ->
  naming_inv w0 (interleave schedule ps w).1 (interleave schedule ps w).2.
Proof.
  revert ps w. induction schedule as [|i schedule IH]; intros ps w Hinv; [done|].
  cbn [interleave]. destruct (ps !! i) as [p|] eqn:Hi; [|by apply IH].
  destruct (nm_done p) eqn:Hp.
  { unfold naming_round. rewrite Hp. rewrite list_insert_id by done. by apply IH. }
  destruct Hinv as (Hnd & Hcom & Hkeep).
  destruct (naming_round_cases p w Hp)
    as [(p' & Hp' & Hsome & ->) | (p' & Hp' & Hpath & Hnone & ->)]; apply IH;
    unfold naming_inv.
  - rewrite (committed_insert_none ps i p) by done. cbn [fs add_trace].
    split; [done|]. split; [exact Hcom | exact Hkeep].
  - pose proof (committed_insert_some ps i p p' Hi Hp Hp') as Hperm.
    rewrite Hpath in Hperm. set (path := nm_path p) in *.
    cbn [fs add_trace set_fs].
    assert (path ∉ committed ps) as Hfresh.
    { intros Hin. destruct (Hcom _ Hin) as [_ Hs]. rewrite Hnone in Hs. by destruct Hs. }
    split; [rewrite Hperm; by constructor|]. split.
    + intros q Hq. rewrite Hperm in Hq. apply elem_of_cons in Hq as [->|Hin].
      * split; [|by rewrite lookup_insert_eq].
        destruct (fs w0 !! path) eqn:E; [|done].
        assert (is_Some (fs w !! path)) as Hs by (apply Hkeep; by rewrite E).
        rewrite Hnone in Hs. by destruct Hs.
      * destruct (Hcom _ Hin) as [Hq0 Hs]. split; [done|].
        destruct (decide (path = q)) as [<-|Hne];
          [by rewrite lookup_insert_eq | by rewrite lookup_insert_ne].
    + intros q Hq.
      destruct (decide (path = q)) as [<-|Hne];
        [by rewrite lookup_insert_eq | rewrite lookup_insert_ne by done; by apply Hkeep].
Qed.

Lemma format_08d_length n : (n < 10 ^ 8)%N -> length (format_08d n) = 8%nat.
Proof.
  intros Hn. apply zfill_length. unfold digits.
  pose proof (digits_acc_length false 10 (S (N.to_nat (N.log2 n))) n [] 7) as Hl.
  simpl length in Hl. rewrite Nat.add_0_r in Hl. apply Hl; [lia|].
  by replace (N.of_nat 8) with 8%N by (by vm_compute).
Qed.

Section UniqueNames.
Context `{Externals}.

(** One compression: the candidates are tried in order, the plain name
    first and then the names with an increasing number, until one is
    created; that one did not exist, and no other file changes. *)
Lemma compress_unique_name fuel flt (path content : str) (w : world) :
  fs w !! path = Some (File content) ->
  _is_compress_path path = true ->
  (S (size (fs w)) < fuel)%nat ->
  exists directory filename j w' later,
    let candidate := unique_candidate directory (gz_prefix filename) (gz_suffix filename) in
    let gz_path := candidate (N.of_nat j) in
    _split_compress_path path = Ok (directory, filename)
    /\ compress fuel flt path w
       = Some (match flt with
               | NoFault => Ok gz_path
               | FailAfter _ => Raise (IOError EIO gz_path)
               end, w')
    /\ (forall i, (i < j)%nat -> is_Some (fs w !! candidate (N.of_nat i)))
    /\ fs w !! gz_path = None
    /\ trace w' = trace w ++ OpOpenRead path
         :: failed_creates directory (gz_prefix filename) (gz_suffix filename) 0 j
         ++ OpCreateExcl gz_path true :: later
    /\ (forall p, p ≠ path -> is_Some (fs w !! p) -> fs w' !! p = fs w !! p).
Proof.
  intros Hfile Hvalid Hfuel.
  destruct (is_compress_path_true _ Hvalid) as (directory & filename & Hsplit).
  destruct (unique_candidate_free directory (gz_prefix filename) (gz_suffix filename) (fs w))
    as (k & Hk & Hfree).
  destruct (compress_run fuel flt path content directory filename w k Hfile Hsplit)
    as (j & Hj & Hbefore & Hnone & Hrun); [lia|done|].
  cbn zeta in Hnone, Hrun.
  exists directory, filename, j. eexists. eexists. cbn zeta.
  split; [done|]. split; [exact Hrun|]. split; [done|]. split; [done|].
  cbn [trace fs]. split; [reflexivity|].
  intros p Hp Hsome.
  assert (p ≠ unique_candidate directory (gz_prefix filename) (gz_suffix filename) (N.of_nat j))
    as Hpg by (intros ->; rewrite Hnone in Hsome; by destruct Hsome).
  destruct flt; [rewrite lookup_delete_ne by done|]; by rewrite lookup_insert_ne.
Qed.

(** C4: [compress] creates its output with an exclusive create, trying
    the plain name first and then the names with a count that grows by
    one at each name that exists, printed with eight digits while it
    is below 10^8; the name it ends with did not exist before, and no
    existing file other than the source is changed. A run of the
    worker over any queue comes to its end, and the outputs it logs are
    pairwise different; so are the names that loops running side by
    side end with, whatever the schedule. *)
Theorem compress_names_are_unique :
  (forall fuel flt (path content : str) (w : world),
      fs w !! path = Some (File content) ->
      _is_compress_path path = true ->
      (S (size (fs w)) < fuel)%nat ->
      exists directory filename j w' later,
        let candidate :=
          unique_candidate directory (gz_prefix filename) (gz_suffix filename) in
        let gz_path := candidate (N.of_nat j) in
        _split_compress_path path = Ok (directory, filename)
        /\ compress fuel flt path w
           = Some (match flt with
                   | NoFault => Ok gz_path
                   | FailAfter _ => Raise (IOError EIO gz_path)
                   end, w')
        /\ (forall i, (i < j)%nat -> is_Some (fs w !! candidate (N.of_nat i)))
        /\ fs w !! gz_path = None
        /\ trace w' = trace w ++ OpOpenRead path
             :: failed_creates directory (gz_prefix filename) (gz_suffix filename) 0 j
             ++ OpCreateExcl gz_path true :: later
        /\ (forall p, p ≠ path -> is_Some (fs w !! p) -> fs w' !! p = fs w !! p))
  /\ (forall (directory prefix suffix : str) (n : N),
        unique_candidate directory prefix suffix 0 = path_join directory (prefix ++ suffix)
        /\ (n ≠ 0%N ->
            unique_candidate directory prefix suffix n
            = path_join directory (prefix ++ b "-" ++ format_08d n ++ suffix))
        /\ ((n < 10 ^ 8)%N -> length (format_08d n) = 8%nat)
        /\ (forall m, format_08d n = format_08d m -> n = m))
  /\ (forall rounds fuel flt (w : world),
        (length (queue w) < rounds)%nat ->
        (S (size (fs w)) + length (queue w) < fuel)%nat ->
        exists r w' outs,
          _compress rounds fuel flt w = Some (r, w')
          /\ compressed_paths (trace w') = compressed_paths (trace w) ++ outs
          /\ NoDup outs
          /\ (forall p, p ∈ outs -> fs w !! p = None /\ is_Some (fs w' !! p)))
  /\ (forall (schedule : list nat) (ps : list naming) (w : world),
        Forall (fun p => nm_done p = false) ps ->
        NoDup (committed (interleave schedule ps w).1)
        /\ (forall path, path ∈ committed (interleave schedule ps w).1 ->
              fs w !! path = None /\ is_Some (fs (interleave schedule ps w).2 !! path))).
Proof.
  split; [exact compress_unique_name|]. split; [|split].
  - intros directory prefix suffix n. split; [done|]. split.
    + intros Hn. unfold unique_candidate. by rewrite (proj2 (N.eqb_neq n 0) Hn).
    + split; [apply format_08d_length | intros m; apply format_08d_inj].
  - intros rounds fuel flt w Hrounds Hfuel.
    destruct (worker_total rounds fuel flt w Hrounds Hfuel) as (r & w' & Hrun).
    destruct (worker_outputs _ _ _ _ _ _ Hrun) as (outs & Htr & Hnd & Houts & _).
    exists r, w', outs. split; [done|]. split; [done|]. split; [done|].
    intros p Hp. destruct (Houts p Hp) as (? & ? & _). by split.
  - intros schedule ps w Hps.
    assert (committed ps = []) as Hnone.
    { unfold committed. induction Hps as [|p ps Hp _ IH]; [done|]. cbn. by rewrite Hp. }
    assert (naming_inv w ps w) as Hinv.
    { unfold naming_inv. rewrite Hnone. split; [constructor|]. split; [|done].
      intros path Hin. by apply elem_of_nil in Hin. }
    destruct (interleave_inv w schedule ps w Hinv) as (Hnd & Hcom & _). by split.
Qed.
End UniqueNames.

Lemma compress_names_are_unique_witness :
  (exists directory filename j w' later,
      let candidate := unique_candidate directory (gz_prefix filename) (gz_suffix filename) in
      let gz_path := candidate (N.of_nat j) in
      _split_compress_path rotated_example = Ok (directory, filename)
      /\ compress (H := toy_externals) 4 NoFault rotated_example disk4 = Some (Ok gz_path, w')
      /\ (forall i, (i < j)%nat -> is_Some (fs disk4 !! candidate (N.of_nat i)))
      /\ fs disk4 !! gz_path = None
      /\ trace w' = trace disk4 ++ OpOpenRead rotated_example
           :: failed_creates directory (gz_prefix filename) (gz_suffix filename) 0 j
           ++ OpCreateExcl gz_path true :: later
      /\ (forall p, p ≠ rotated_example -> is_Some (fs disk4 !! p) -> fs w' !! p = fs disk4 !! p))
  /\ (exists r w' outs,
        same_day_run = Some (r, w')
        /\ compressed_paths (trace w')
           = compressed_paths (trace (set_queue same_day_queue disk3)) ++ outs
        /\ NoDup outs
        /\ (forall p, p ∈ outs ->
              fs (set_queue same_day_queue disk3) !! p = None /\ is_Some (fs w' !! p))).
Proof.
  split.
  - apply (proj1 (compress_names_are_unique (H := toy_externals))
             4%nat NoFault rotated_example two_lines disk4).
    + reflexivity.
    + reflexivity.
    + vm_compute. lia.
  - apply (proj1 (proj2 (proj2 (compress_names_are_unique (H := toy_externals))))
             4%nat 8%nat (fun _ => NoFault) (set_queue same_day_queue disk3)).
    + vm_compute. lia.
    + vm_compute. lia.
Defined.

Example compress_collision_example :
  fst <$> compress (H := toy_externals) 4 NoFault rotated_example disk4
  = Some (Ok (b "room/2015/01/31-00000001.json.gz")).
Proof. vm_compute. reflexivity. Qed.

Example same_day_outputs :
  (fun r => compressed_paths (trace (snd r))) <$> same_day_run
  = Some [b "room/2015/01/31.json.gz";
          b "room/2015/01/31-00000001.json.gz";
          b "room/2015/01/31-00000002.json.gz"].
Proof. vm_compute. reflexivity. Qed.

Example interleave_example :
  committed (interleave [0; 1; 0; 1]%nat two_namings world0).1
  = [b "room/2015/01/31.json.gz"; b "room/2015/01/31-00000001.json.gz"].
Proof. vm_compute. reflexivity. Qed.

(** ** What the splitting returns *)

(** X1: [_split_compress_path] returns exactly when the last component
    of the path has the shape of a rotated name, and then it returns
    the head of the path with the name in front of the tag; otherwise
    it raises the [ValueError] that carries the path. The name it
    returns has no newline and no slash, and is 18 characters shorter
    than the component, or 19 when the component ends with a newline. *)
Theorem split_compress_path_characterised (path directory filename : str) :
  (_split_compress_path path = Ok (directory, filename)
   <-> directory = fst (path_split path)
       /\ rotated_name (snd (path_split path)) filename)
  /\ (_split_compress_path path = Raise (invalid_filename path)
      <-> forall name, ~ rotated_name (snd (path_split path)) name)
  /\ (_split_compress_path path = Ok (directory, filename) ->
      (newline ∉ filename) /\ (slash ∉ filename)
      /\ (length (snd (path_split path)) = length filename + 18
          \/ length (snd (path_split path)) = length filename + 19)%nat).
Proof.
  pose proof (path_split_tail path) as Htail.
  unfold _split_compress_path. destruct (path_split path) as [d f]. cbn [fst snd] in *.
  destruct (re_match compress_re f) as [gs|] eqn:Hm.
  - destruct (compress_re_sound _ _ Hm) as (g & -> & Hg). cbn [nth].
    split; [|split].
    + split; [by intros [= <- <-]|].
      intros [-> Hr]. apply compress_re_complete in Hr. rewrite Hm in Hr. by injection Hr as ->.
    + split; [done|]. intros Hno. by destruct (Hno g).
    + intros [= <- <-]. destruct Hg as (lit & hex & nl & -> & Hnl & Hlit & Hhex & _ & Hend).
      split; [done|]. split.
      { intros Hin. apply Htail. apply elem_of_app. by left. }
      assert (length lit = 10%nat) as Hl.
      { rewrite <- (length_map lower lit), Hlit. reflexivity. }
      rewrite !length_app, Hl, Hhex. destruct Hend as [-> | ->]; cbn [length]; lia.
  - split; [|split]; [| |done].
    + split; [done|]. intros [_ Hr]. apply compress_re_complete in Hr. congruence.
    + split; [|done]. intros _ g Hr. apply compress_re_complete in Hr. congruence.
Qed.

(** ** The lines that reach the compressor *)

Lemma readlines_concat (s : str) : concat (readlines s) = s.
Proof.
  induction s as [|c s IH]; [done|]. cbn [readlines]. case_bool_decide.
  - cbn [concat app]. by rewrite IH.
  - destruct (readlines s) as [|l ls]; cbn [concat app] in *; [by subst|by rewrite <- IH].
Qed.

Lemma readlines_lines (s : str) :
  Forall (fun l => exists body c, l = body ++ [c] /\ newline ∉ body) (readlines s).
Proof.
  induction s as [|c s IH]; [constructor|]. cbn [readlines]. case_bool_decide.
  - constructor; [|done]. exists [], c. split; [done|]. apply not_elem_of_nil.
  - destruct (readlines s) as [|l ls].
    + constructor; [|done]. exists [], c. split; [done|]. apply not_elem_of_nil.
    + apply Forall_cons in IH as [(body & x & -> & Hbody) IH]. constructor; [|done].
      exists (c :: body), x. split; [done|]. by apply not_elem_of_cons.
Qed.

Lemma readlines_inner (s : str) (i : nat) (l : str) :
  readlines s !! i = Some l -> (S i < length (readlines s))%nat -> last l = Some newline.
Proof.
  revert i l. induction s as [|c s IH]; intros i l; [done|]. cbn [readlines]. case_bool_decide.
  - destruct i as [|i]; [|cbn; intros Hl Hi; apply (IH i); [done|lia]].
    cbn. intros [= <-] _. by subst.
  - destruct (readlines s) as [|l0 ls]; [cbn; lia|].
    destruct i as [|i]; [|cbn; intros Hl Hi; apply (IH (S i)); [done|cbn; lia]].
    cbn [lookup list_lookup length]. intros [= <-] Hi.
    pose proof (IH 0%nat l0 eq_refl Hi) as Hlast.
    destruct l0; [done|exact Hlast].
Qed.

(** X2: [compress] hands the compressor the source line by line: the
    lines are not empty, a newline is only ever the last character of
    a line, every line but the last ends with one, and together they
    are the whole content of the source, in order. When the stream
    breaks, what went through is a prefix of the content made of whole
    lines, and the output holds what the compressor made of it. *)
Theorem compress_streams_whole_lines `{Externals} (fuel : nat) (flt : fault)
    (path content : str) (w : world) :
  fs w !! path = Some (File content) ->
  _is_compress_path path = true ->
  (S (size (fs w)) < fuel)%nat ->
  exists gz_path w' written,
    compress fuel flt path w
    = Some (match flt with
            | NoFault => Ok gz_path
            | FailAfter _ => Raise (IOError EIO gz_path)
            end, w')
    /\ written = match flt with
                 | NoFault => readlines content
                 | FailAfter n => take n (readlines content)
                 end
    /\ fs w' !! gz_path = Some (File (gz_write written ++ gz_trailer written))
    /\ OpWrite gz_path (gz_write written) ∈ trace w'
    /\ concat written `prefix_of` content
    /\ (flt = NoFault -> concat written = content)
    /\ Forall (fun l => exists body c, l = body ++ [c] /\ newline ∉ body) written
    /\ (forall i l, written !! i = Some l -> (S i < length written)%nat ->
          last l = Some newline).
Proof.
  intros Hfile Hvalid Hfuel.
  destruct (is_compress_path_true _ Hvalid) as (directory & filename & Hsplit).
  destruct (unique_candidate_free directory (gz_prefix filename) (gz_suffix filename) (fs w))
    as (k & Hk & Hfree).
  destruct (compress_run fuel flt path content directory filename w k Hfile Hsplit)
    as (j & _ & _ & Hnone & Hrun); [lia|done|].
  cbn zeta in Hnone, Hrun. revert Hrun Hnone.
  generalize (unique_candidate directory (gz_prefix filename) (gz_suffix filename) (N.of_nat j)).
  intros gz_path Hrun Hnone.
  assert (gz_path ≠ path) as Hne by (intros Heq; congruence).
  eexists gz_path, _, (written_lines flt (readlines content)).
  split; [exact Hrun|]. split; [by destruct flt|].
  unfold written_lines. cbn [fs trace]. split.
  { destruct flt; [rewrite lookup_delete_ne by (by intros ->)|]; by rewrite lookup_insert_eq. }
  split.
  { rewrite elem_of_app, elem_of_cons, !elem_of_app, !elem_of_cons. tauto. }
  split.
  { destruct flt as [|n]; [by rewrite readlines_concat|].
    exists (concat (drop n (readlines content))).
    by rewrite <- concat_app, take_drop, readlines_concat. }
  split; [by intros ->; rewrite readlines_concat|]. split.
  { destruct flt as [|n]; [|apply Forall_take]; apply readlines_lines. }
  intros i l Hl Hi. destruct flt as [|n]; [by eapply readlines_inner|].
  apply lookup_take_Some in Hl as [Hl Hin]. eapply readlines_inner; [done|].
  rewrite length_take in Hi. lia.
Qed.

Lemma compress_streams_whole_lines_witness :
  exists gz_path w' written,
    compress (H := toy_externals) 3 (FailAfter 1) rotated_example disk1
    = Some (Raise (IOError EIO gz_path), w')
    /\ written = take 1 (readlines two_lines)
    /\ fs w' !! gz_path
       = Some (File (gz_write (Externals := toy_externals) written
                     ++ gz_trailer (Externals := toy_externals) written))
    /\ OpWrite gz_path (gz_write (Externals := toy_externals) written) ∈ trace w'
    /\ concat written `prefix_of` two_lines
    /\ (FailAfter 1 = NoFault -> concat written = two_lines)
    /\ Forall (fun l => exists body c, l = body ++ [c] /\ newline ∉ body) written
    /\ (forall i l, written !! i = Some l -> (S i < length written)%nat ->
          last l = Some newline).
Proof.
  apply (compress_streams_whole_lines (H := toy_externals) 3%nat (FailAfter 1)
           rotated_example two_lines disk1).
  - reflexivity.
  - reflexivity.
  - vm_compute. lia.
Defined.

(** ** A compressed file is not compressed again *)

(** A compression that returns went through every step. *)
Lemma compress_Ok_inv `{Externals} (fuel : nat) (flt : fault) (path gz_path : str)
    (w w' : world) :
  compress fuel flt path w = Some (Ok gz_path, w') ->
  exists content directory filename j,
    fs w !! path = Some (File content)
    /\ _split_compress_path path = Ok (directory, filename)
    /\ flt = NoFault
    /\ gz_path = unique_candidate directory (gz_prefix filename) (gz_suffix filename)
                   (N.of_nat j)
    /\ fs w !! gz_path = None
    /\ fs w' = delete path
                 (<[gz_path := File (gz_write (readlines content)
                                     ++ gz_trailer (readlines content))]> (fs w))
    /\ queue w' = queue w
    /\ rng_pos w' = rng_pos w.
Proof.
  intros Hrun.
  destruct (fs w !! path) as [[content|]|] eqn:Hfile.
  2,3: (unfold compress in Hrun; erewrite bind_Raise in Hrun;
        [|unfold open_rb; rewrite Hfile; reflexivity]; simplify_eq).
  destruct (_is_compress_path path) eqn:Hvalid.
  2: { by rewrite (compress_invalid_path_run fuel flt path content w Hfile Hvalid) in Hrun. }
  destruct (is_compress_path_true _ Hvalid) as (directory & filename & Hsplit).
  destruct (_unique_writable_file_loop fuel directory (gz_prefix filename)
              (gz_suffix filename) 0
              (unique_candidate directory (gz_prefix filename) (gz_suffix filename) 0)
              (add_trace (OpOpenRead path) w))
    as [[r1 w1]|] eqn:Hloop.
  - apply unique_loop_inv in Hloop as (k & Hk & Hfree).
    rewrite N.add_0_l in Hfree. cbn [fs add_trace] in Hfree.
    destruct (compress_run fuel flt path content directory filename w k Hfile Hsplit Hk Hfree)
      as (j & _ & _ & Hnone & Hrun').
    cbn zeta in Hnone, Hrun'. rewrite Hrun' in Hrun. clear Hrun'.
    exists content, directory, filename, j.
    destruct flt; [|done]. injection Hrun as <- <-. by cbn [fs queue rng_pos written_lines].
  - exfalso. unfold compress in Hrun.
    erewrite bind_Ok in Hrun; [|by apply open_rb_file].
    erewrite bind_None in Hrun; [done|].
    apply finally_None. erewrite bind_Ok; [|unfold lift; rewrite Hsplit; reflexivity].
    cbn beta iota. unfold gz_prefix, gz_suffix in Hloop.
    destruct (splitext filename) as [prefix suffix]. cbn [fst snd] in Hloop.
    unfold _unique_writable_file. by apply bind_None.
Qed.

(** X3: what [compress] returns is a regular file that is no rotated
    path, other than its source; [compress] on it, with any fuel and in
    any later state where it is still that file, raises the
    [ValueError] of an invalid name after opening and closing it, and
    changes nothing on disk. *)
Theorem compress_rejects_its_output `{Externals} (fuel : nat) (flt : fault)
    (path gz_path : str) (w w' : world) :
  compress fuel flt path w = Some (Ok gz_path, w') ->
  _is_compress_path gz_path = false
  /\ gz_path ≠ path
  /\ fs w !! gz_path = None
  /\ fs w' !! path = None
  /\ exists data,
       fs w' !! gz_path = Some (File data)
       /\ forall fuel' flt' (w1 : world),
            fs w1 !! gz_path = Some (File data) ->
            exists w2,
              compress fuel' flt' gz_path w1 = Some (Raise (invalid_filename gz_path), w2)
              /\ fs w2 = fs w1
              /\ queue w2 = queue w1
              /\ trace w2 = trace w1 ++ [OpOpenRead gz_path; OpClose gz_path].
Proof.
  intros Hrun.
  destruct (compress_Ok_inv _ _ _ _ _ _ Hrun)
    as (content & directory & filename & j & Hfile & Hsplit & -> & Hgz & Hnone & Hfs & _).
  assert (_is_compress_path gz_path = false) as Hrot.
  { rewrite Hgz. apply unique_candidate_not_rotated. }
  assert (gz_path ≠ path) as Hne by (intros Heq; congruence).
  split; [done|]. split; [done|]. split; [done|]. split.
  { rewrite Hfs. apply lookup_delete_eq. }
  eexists. split.
  { rewrite Hfs, lookup_delete_ne by (by intros ->). apply lookup_insert_eq. }
  intros fuel' flt' w1 Hw1. eexists. split.
  { by eapply (compress_invalid_path_run fuel' flt' gz_path). }
  cbn [fs queue trace add_trace]. by rewrite <- app_assoc.
Qed.

Lemma compress_rejects_its_output_witness :
  exists w',
    compress (H := toy_externals) 3 NoFault rotated_example disk1
      = Some (Ok (b "room/2015/01/31.json.gz"), w')
    /\ _is_compress_path (b "room/2015/01/31.json.gz") = false
    /\ b "room/2015/01/31.json.gz" ≠ rotated_example
    /\ fs disk1 !! b "room/2015/01/31.json.gz" = None
    /\ fs w' !! rotated_example = None
    /\ exists data,
         fs w' !! b "room/2015/01/31.json.gz" = Some (File data)
         /\ forall fuel' flt' (w1 : world),
              fs w1 !! b "room/2015/01/31.json.gz" = Some (File data) ->
              exists w2,
                compress (H := toy_externals) fuel' flt' (b "room/2015/01/31.json.gz") w1
                  = Some (Raise (invalid_filename (b "room/2015/01/31.json.gz")), w2)
                /\ fs w2 = fs w1
                /\ queue w2 = queue w1
                /\ trace w2 = trace w1 ++ [OpOpenRead (b "room/2015/01/31.json.gz");
                                           OpClose (b "room/2015/01/31.json.gz")].
Proof.
  destruct (compress (H := toy_externals) 3 NoFault rotated_example disk1)
    as [[r w']|] eqn:Hrun; [|by vm_compute in Hrun].
  assert (r = Ok (b "room/2015/01/31.json.gz")) as ->.
  { assert (fst <$> compress (H := toy_externals) 3 NoFault rotated_example disk1
            = Some (Ok (b "room/2015/01/31.json.gz"))) as Hfst by (vm_compute; reflexivity).
    rewrite Hrun in Hfst. by injection Hfst as ->. }
  exists w'. split; [reflexivity|].
  exact (compress_rejects_its_output (H := toy_externals) 3%nat NoFault rotated_example
           (b "room/2015/01/31.json.gz") disk1 w' Hrun).
Defined.

(** ** Every outcome of the startup *)

Section ArchiveOutcomes.
Context `{Externals} `{JIDLib}.

(** X4: [_archive] always comes to an end and never changes the disk.
    It raises exactly when the room name cannot be encoded (with the
    exception of the encoding) or when the room directory is not its
    own normal form (with the [ValueError] about the archive
    directory); in both cases the new queue is empty, nothing is
    logged or scanned, and no stream is made. When it returns, both
    checks passed, the three streams are made after the scan, and
    whatever is in the queue is a rotated path with delay zero. *)
Theorem archive_every_outcome (archive_dir : str) (room_bare_jid : jid_arg)
    (listing : option dirtree) (w : world) :
  exists r w',
    _archive archive_dir room_bare_jid listing w = Some (r, w')
    /\ fs w' = fs w
    /\ (forall delay p, (delay, p) ∈ queue w' -> delay = 0%Q /\ _is_compress_path p = true)
    /\ (forall e, r = Raise e ->
          queue w' = [] /\ trace w' = trace w
          /\ (_encode_room_jid room_bare_jid = Raise e
              \/ exists room_name,
                   _encode_room_jid room_bare_jid = Ok room_name
                   /\ e = outside_archive
                   /\ path_join archive_dir room_name
                      ≠ normpath (path_join archive_dir room_name)))
    /\ (forall room_name, r = Ok room_name ->
          _encode_room_jid room_bare_jid = Ok room_name
          /\ path_join archive_dir room_name = normpath (path_join archive_dir room_name)
          /\ exists queued,
               queue w' = map (fun p => (0%Q, p)) queued
               /\ trace w' = trace w ++ map (OpQueue 0) queued
                    ++ [OpSpawn CollectStream; OpSpawn CompressStream; OpSpawn RotateStream]).
Proof.
  unfold _archive. erewrite bind_Ok; [|reflexivity].
  destruct (_encode_room_jid room_bare_jid) as [room_name|e] eqn:Hname.
  2: { erewrite bind_Raise; [|reflexivity]. eexists _, _. split; [reflexivity|].
       cbn [fs queue trace set_queue]. split; [done|]. split.
       { intros delay p Hin. by apply elem_of_nil in Hin. }
       split; [|done]. intros e' [= <-]. by repeat split; [left]. }
  erewrite bind_Ok; [|reflexivity]. cbn beta zeta.
  set (_dir := path_join archive_dir room_name).
  case_bool_decide as Hnorm.
  { eexists _, _. split; [reflexivity|]. cbn [fs queue trace set_queue].
    split; [done|]. split.
    { intros delay p Hin. by apply elem_of_nil in Hin. }
    split; [|done]. intros e' [= <-]. split; [done|]. split; [done|].
    right. by exists room_name. }
  erewrite bind_Ok; [|apply scan_walk_run].
  do 3 (erewrite bind_Ok; [|reflexivity]).
  eexists _, _. split; [reflexivity|].
  unfold add_trace, set_queue. cbn [fs rng rng_pos queue trace app].
  split; [done|]. split.
  { intros delay p Hin. apply list_elem_of_fmap in Hin as (p' & [= -> ->] & Hin).
    split; [done|]. by apply list_elem_of_In, List.filter_In in Hin as [_ Hrot]. }
  split; [done|]. intros room [= <-]. split; [done|]. split.
  { destruct (decide (_dir = normpath _dir)) as [Heq|Hne]; [done|by destruct Hnorm]. }
  eexists. split; [reflexivity|]. by rewrite <- !app_assoc.
Qed.
End ArchiveOutcomes.

(** ** Records between two rotations *)

Section RecordFacts.
Context `{Externals}.

(** A record that finds a file open is one write of one line. *)
Lemma collect_record_run (fuel : nat) (archive_dir room_name : str) (a : pyfile)
    (content : str) (ts : Z) (fields : list (str * list str)) (w : world) :
  closed a = false ->
  fs w !! name a = Some (File content) ->
  _collect_round fuel archive_dir room_name (Some a) (Record_ ts fields) w
  = Some (Ok (Some (PyFile (name a) [] false)),
          {| fs := <[name a := File (content ++ pending a ++ record_line fields)]> (fs w);
             rng := rng w; rng_pos := rng_pos w; queue := queue w;
             trace := trace w ++ [OpWrite (name a) (pending a ++ record_line fields)] |}).
Proof.
  intros Hopen Hfile. cbn [_collect_round]. erewrite bind_Ok; [|reflexivity].
  fold (record_line fields).
  assert (newline ∈ record_line fields) as Hnl.
  { unfold record_line. apply elem_of_app. right. apply list_elem_of_here. }
  erewrite bind_Ok; [reflexivity|].
  unfold file_write. rewrite Hopen, bool_decide_eq_true_2 by done.
  erewrite bind_Ok; [reflexivity|].
  rewrite (write_pending_run _ content) by done. cbn [name pending].
  unfold flushed_write. cbn [name pending].
  rewrite bool_decide_eq_false_2; [done|].
  intros Hnil. apply app_eq_nil in Hnil as [_ Hnil]. rewrite Hnil in Hnl.
  by apply elem_of_nil in Hnl.
Qed.
End RecordFacts.

Section RecordRuns.
Context `{Externals}.

(** X5: while a file is open, every record is appended to that file as
    one line, in the order of arrival and whatever its time stamp, and
    each line is handed to the system at once (nothing stays pending).
    When the stream ends, the file is flushed and closed and the closing
    is logged; it keeps its name, and nothing is put in the queue. *)
Theorem collect_appends_in_arrival_order (fuel : nat) (archive_dir room_name : str)
    (a : pyfile) (content : str) (rs : list (Z * list (str * list str))) (w : world) :
  closed a = false ->
  pending a = [] ->
  fs w !! name a = Some (File content) ->
  _collect fuel archive_dir room_name (Some a) (record_items rs) w
  = Some (Ok tt,
          {| fs := <[name a := File (content ++ concat (map (fun r => record_line r.2) rs))]>
                     (fs w);
             rng := rng w; rng_pos := rng_pos w; queue := queue w;
             trace := trace w ++ map (fun r => OpWrite (name a) (record_line r.2)) rs
                        ++ [OpFlush (name a); OpClose (name a);
                            OpLogInfo (MsgClosed (name a))] |}).
Proof.
  revert a content w. induction rs as [|r rs IH]; intros a content w Hopen Hpend Hfile.
  - cbn [record_items map _collect _collect_finally concat app].
    rewrite (flush_close_then a content w) by done.
    unfold flushed_write. rewrite Hpend, bool_decide_eq_true_2 by done.
    unfold emit, add_trace. cbn [fs rng rng_pos queue trace name app].
    do 3 f_equal. by rewrite <- app_assoc.
  - change (record_items (r :: rs)) with (Record_ r.1 r.2 :: record_items rs).
    cbn [_collect]. rewrite (collect_record_run fuel _ _ a content) by done.
    rewrite Hpend. cbn [app].
    rewrite (IH (PyFile (name a) [] false) (content ++ record_line r.2));
      [|done|done|apply lookup_insert_eq].
    cbn [fs rng rng_pos queue trace name map concat].
    rewrite insert_insert_eq. do 3 f_equal; [by rewrite <- app_assoc|].
    by rewrite <- app_assoc.
Qed.
End RecordRuns.

Lemma collect_appends_in_arrival_order_witness :
  _collect (H := toy_externals) 1 (b "") (b "room") (Some (PyFile active_example [] false))
    (record_items [(0, [(b "k", [b "v"])]); (86400, [(b "l", [])])]) disk2
  = Some (Ok tt,
          {| fs := <[active_example
                     := File (two_lines
                              ++ concat (map (fun r => record_line (H := toy_externals) r.2)
                                           [(0, [(b "k", [b "v"])]); (86400, [(b "l", [])])]))]>
                     (fs disk2);
             rng := rng disk2; rng_pos := rng_pos disk2; queue := queue disk2;
             trace := trace disk2
               ++ map (fun r => OpWrite active_example (record_line (H := toy_externals) r.2))
                    [(0, [(b "k", [b "v"])]); (86400, [(b "l", [])])]
               ++ [OpFlush active_example; OpClose active_example;
                   OpLogInfo (MsgClosed active_example)] |}).
Proof.
  apply (collect_appends_in_arrival_order (H := toy_externals) 1 (b "") (b "room")
           (PyFile active_example [] false) two_lines
           [(0, [(b "k", [b "v"])]); (86400, [(b "l", [])])] disk2).
  - reflexivity.
  - reflexivity.
  - reflexivity.
Defined.

(** ** A rotation that cannot rename *)

Lemma finally_Raise {A} (m : M A) (c : M unit) w r w' e w'' :
  m w = Some (r, w') -> c w' = Some (Raise e, w'') -> finally m c w = Some (Raise e, w'').
Proof. intros Hm Hc. unfold finally. by rewrite Hm, Hc. Qed.

Section RotationFailure.
Context `{Externals}.

(** X6: when the rotated name that is drawn first is taken by a
    directory, the rotation flushes and closes the file, the renaming
    raises [OSError], and the stream then ends with the [ValueError] of
    a closed file, raised by the flush of its [finally] clause, in
    place of the [OSError]. The file keeps its name and holds all that
    was written; nothing is put in the queue, the closing is not
    logged, and the items that follow are not read. *)
Theorem rotation_failure_masks_error (fuel : nat) (archive_dir room_name : str)
    (a : pyfile) (content : str) (rest : list item) (w : world) :
  closed a = false ->
  fs w !! name a = Some (File content) ->
  fs w !! tagged (name a) (rng w (rng_pos w)) = Some Dir ->
  let w' := {| fs := <[name a := File (content ++ pending a)]> (fs w);
               rng := rng w; rng_pos := S (rng_pos w); queue := queue w;
               trace := trace w ++ OpFlush (name a) :: flushed_write a
                          ++ [OpClose (name a)] |} in
  _collect_round (S fuel) archive_dir room_name (Some a) RotateEvent w
  = Some (Raise (OSError EISDIR (tagged (name a) (rng w (rng_pos w)))), w')
  /\ _collect (S fuel) archive_dir room_name (Some a) (RotateEvent :: rest) w
     = Some (Raise closed_file_error, w').
Proof.
  intros Hopen Hfile Hdir w'.
  set (new_path := tagged (name a) (rng w (rng_pos w))) in *.
  set (w1 := {| fs := <[name a := File (content ++ pending a)]> (fs w);
                rng := rng w; rng_pos := rng_pos w; queue := queue w;
                trace := trace w ++ OpFlush (name a) :: flushed_write a ++ [OpClose (name a)] |}).
  assert (new_path ≠ name a) as Hne by (intros Heq; congruence).
  destruct (create_loop_returns (S fuel) (fst (path_split (name a)))
              (snd (path_split (name a))) w1 0) as (j & Hj & _ & Hrun); [lia| |].
  { cbn [fs rng rng_pos w1]. rewrite Nat.add_0_r. fold (tagged (name a) (rng w (rng_pos w))).
    fold new_path. unfold is_file. by rewrite lookup_insert_ne, Hdir. }
  assert (j = 0%nat) as -> by lia.
  cbn [fs rng rng_pos w1] in Hrun. rewrite Nat.add_0_r in Hrun.
  fold (tagged (name a) (rng w (rng_pos w))) in Hrun. fold new_path in Hrun.
  assert (_collect_round (S fuel) archive_dir room_name (Some a) RotateEvent w
          = Some (Raise (OSError EISDIR new_path), w')) as Hround.
  { cbn [_collect_round]. rewrite (flush_close_then a content w) by done.
    fold w1. cbn [name].
    apply bind_Raise. unfold _rename. erewrite bind_Ok.
    2:{ unfold _create_compress_path.
        destruct (path_split (name a)) as [head tail]. exact Hrun. }
    apply bind_Raise. unfold os_rename. cbn [fs set_rng_pos w1].
    rewrite lookup_insert_eq, lookup_insert_ne, Hdir by done.
    unfold w'. by rewrite Nat.add_1_r. }
  split; [exact Hround|].
  cbn [_collect]. rewrite Hround. cbn [archive_at_raise].
  eapply finally_Raise; [reflexivity|]. reflexivity.
Qed.
End RotationFailure.

Lemma rotation_failure_masks_error_witness :
  let w' := {| fs := <[name open_example := File (two_lines ++ pending open_example)]> (fs disk5);
               rng := rng disk5; rng_pos := S (rng_pos disk5); queue := queue disk5;
               trace := trace disk5 ++ OpFlush (name open_example) :: flushed_write open_example
                          ++ [OpClose (name open_example)] |} in
  _collect_round (H := toy_externals) 1 (b "") (b "room") (Some open_example) RotateEvent disk5
  = Some (Raise (OSError EISDIR (tagged (name open_example) (rng disk5 (rng_pos disk5)))), w')
  /\ _collect (H := toy_externals) 1 (b "") (b "room") (Some open_example)
       [RotateEvent; Record_ 0 []] disk5
     = Some (Raise closed_file_error, w').
Proof.
  apply (rotation_failure_masks_error (H := toy_externals) 0 (b "") (b "room")
           open_example two_lines [Record_ 0 []] disk5).
  - reflexivity.
  - reflexivity.
  - reflexivity.
Defined.

(** ** The worker on a queue of files *)

Lemma invalid_paths_app (l1 l2 : list op) :
  invalid_paths (l1 ++ l2) = invalid_paths l1 ++ invalid_paths l2.
Proof. apply omap_app. Qed.

Lemma invalid_paths_failed_creates (directory prefix suffix : str) (count : N) (n : nat) :
  invalid_paths (failed_creates directory prefix suffix count n) = [].
Proof. unfold failed_creates. induction (seq 0 n) as [|i l IH]; [done|exact IH]. Qed.

Lemma invalid_paths_cons (o : op) (l : list op) :
  invalid_paths (o :: l)
  = match o with OpLogError (MsgInvalidPath p) => [p] | _ => [] end ++ invalid_paths l.
Proof. destruct o as [| | | | | | | | | |m|m|]; try done; by destruct m. Qed.

Lemma compressed_paths_cons (o : op) (l : list op) :
  compressed_paths (o :: l)
  = match o with OpLogInfo (MsgCompressed p) => [p] | _ => [] end ++ compressed_paths l.
Proof. destruct o as [| | | | | | | | | |m|m|]; try done; by destruct m. Qed.

Lemma filter_rotated (paths : list str) (p : str) :
  p ∈ List.filter _is_compress_path paths -> _is_compress_path p = true.
Proof. intros Hin. by apply list_elem_of_In, List.filter_In in Hin as [_ Hrot]. Qed.

Section WorkerDrains.
Context `{Externals}.

(** The worker on a queue of regular files, path by path. *)
Lemma worker_drains_run (rounds fuel : nat) (w : world) :
  NoDup (map snd (queue w)) ->
  Forall (fun p => is_file (fs w) p = true) (map snd (queue w)) ->
  (length (queue w) < rounds)%nat ->
  (S (size (fs w)) < fuel)%nat ->
  exists w' outs,
    _compress rounds fuel (fun _ => NoFault) w = Some (Ok tt, w')
    /\ queue w' = []
    /\ invalid_paths (trace w')
       = invalid_paths (trace w)
           ++ List.filter (fun p => negb (_is_compress_path p)) (map snd (queue w))
    /\ compressed_paths (trace w') = compressed_paths (trace w) ++ outs
    /\ Forall2 (fun p gz_path =>
                  exists content,
                    fs w !! p = Some (File content)
                    /\ _is_compress_path p = true
                    /\ fs w !! gz_path = None
                    /\ _is_compress_path gz_path = false
                    /\ fs w' !! gz_path = Some (File (gz_content content)))
         (List.filter _is_compress_path (map snd (queue w))) outs
    /\ (forall p, p ∈ List.filter _is_compress_path (map snd (queue w)) -> fs w' !! p = None)
    /\ (forall p, is_Some (fs w !! p) ->
          p ∉ List.filter _is_compress_path (map snd (queue w)) -> fs w' !! p = fs w !! p)
    /\ (forall p, fs w !! p = None -> _is_compress_path p = true -> fs w' !! p = None).
Proof.
  revert w. induction rounds as [|rounds IH]; intros w Hnd Hfiles Hrounds Hfuel; [lia|].
  destruct (queue w) as [|[delay path] rest] eqn:Hq.
  { exists w, []. cbn [_compress].
    erewrite bind_Ok; [|unfold queue_wait; rewrite Hq; reflexivity].
    cbn [map List.filter]. rewrite !app_nil_r.
    split; [done|]. split; [done|]. split; [done|]. split; [done|]. split; [constructor|].
    split; [|done]. intros p Hp. by apply elem_of_nil in Hp. }
  rewrite (compress_step_unfold _ _ _ _ _ _ _ Hq).
  cbn [map snd length] in Hnd, Hfiles, Hrounds |- *.
  apply NoDup_cons in Hnd as [Hfresh Hnd]. apply Forall_cons in Hfiles as [Hpath Hfiles].
  unfold is_file in Hpath. destruct (fs w !! path) as [[content|]|] eqn:Hfile; try done.
  clear Hpath. cbn [List.filter].
  destruct (_is_compress_path path) eqn:Hvalid; cbn [negb].
  - destruct (is_compress_path_true _ Hvalid) as (directory & filename & Hsplit).
    destruct (unique_candidate_free directory (gz_prefix filename) (gz_suffix filename) (fs w))
      as (k & Hk & Hfree).
    destruct (compress_run fuel NoFault path content directory filename (set_queue rest w) k
                Hfile Hsplit) as (j & _ & _ & Hnone & Hrun); [lia|done|].
    cbn zeta in Hnone, Hrun.
    pose proof (unique_candidate_not_rotated directory (gz_prefix filename)
                  (snd (splitext filename)) (N.of_nat j)) as Hgz.
    fold (gz_suffix filename) in Hgz.
    pose proof (invalid_paths_failed_creates directory (gz_prefix filename)
                  (gz_suffix filename) 0 j) as Hinv1.
    pose proof (compressed_paths_quiet _
                  (failed_creates_quiet directory (gz_prefix filename)
                     (gz_suffix filename) 0 j)) as Hcomp1.
    revert Hrun Hnone Hgz Hinv1 Hcomp1.
    generalize (failed_creates directory (gz_prefix filename) (gz_suffix filename) 0 j).
    generalize (unique_candidate directory (gz_prefix filename) (gz_suffix filename)
                  (N.of_nat j)).
    intros gz_path failed Hrun Hnone Hgz Hinv1 Hcomp1.
    cbn [fs rng rng_pos queue trace set_queue written_lines] in Hrun, Hnone.
    fold (gz_content content) in Hrun.
    rewrite Hrun. clear Hrun.
    assert (gz_path ≠ path) as Hne by (intros Heq; congruence).
    match goal with |- context [_compress rounds fuel _ ?W] => set (w2 := W) end.
    assert (fs w2 = delete path (<[gz_path := File (gz_content content)]> (fs w))) as Hfs2
      by reflexivity.
    assert (forall q, q ≠ path -> q ≠ gz_path -> fs w2 !! q = fs w !! q) as Hsame.
    { intros q Hq1 Hq2. by rewrite Hfs2, lookup_delete_ne, lookup_insert_ne. }
    destruct (IH w2) as (w' & outs & Hrun2 & Hq' & Hinv & Hcomp & Hpairs & Hgone & Hframe & Hnever).
    { exact Hnd. }
    { apply Forall_forall. intros q Hin. rewrite Forall_forall in Hfiles.
      specialize (Hfiles q Hin). unfold is_file in *. rewrite Hsame; [done| |].
      - intros ->. done.
      - intros ->. by rewrite Hnone in Hfiles. }
    { cbn [queue w2 add_trace]. lia. }
    { rewrite Hfs2, map_size_delete_Some by (by rewrite lookup_insert_ne, Hfile).
      rewrite map_size_insert_None by done. simpl. lia. }
    cbn [queue w2 add_trace] in Hinv, Hpairs, Hgone, Hframe.
    assert (fs w2 !! gz_path = Some (File (gz_content content))) as Hgz2.
    { by rewrite Hfs2, lookup_delete_ne, lookup_insert_eq. }
    exists w', (gz_path :: outs).
    split; [exact Hrun2|]. split; [done|]. split.
    { rewrite Hinv. f_equal. cbn [trace w2 add_trace].
      rewrite !invalid_paths_app, invalid_paths_cons, !invalid_paths_app, Hinv1.
      cbn. by rewrite !app_nil_r. }
    split.
    { rewrite Hcomp. cbn [trace w2 add_trace].
      rewrite !compressed_paths_app, compressed_paths_cons, !compressed_paths_app, Hcomp1.
      cbn. by rewrite !app_nil_r, <- !app_assoc. }
    split.
    { constructor.
      - exists content. split; [done|]. split; [done|]. split; [done|]. split; [done|].
        rewrite Hframe; [done|by rewrite Hgz2|].
        intros Hin. apply filter_rotated in Hin. congruence.
      - eapply Forall2_impl; [exact Hpairs|]. cbn beta.
        intros q gz' (c & Hqc & Hqr & Hg0 & Hgr & Hg1). exists c.
        assert (q ≠ gz_path) as Hqg by (intros ->; congruence).
        assert (q ≠ path) as Hqp.
        { intros ->. by rewrite Hfs2, lookup_delete_eq in Hqc. }
        assert (gz' ≠ path) as Hgp by (intros ->; congruence).
        assert (gz' ≠ gz_path) as Hgg by (intros ->; congruence).
        rewrite Hsame in Hqc, Hg0 by done. done. }
    split.
    { intros p [->|Hin]%elem_of_cons; [|by apply Hgone].
      apply Hnever; [|done]. by rewrite Hfs2, lookup_delete_eq. }
    split.
    { intros p Hp Hnot. apply not_elem_of_cons in Hnot as [Hpp Hnot].
      assert (p ≠ gz_path) as Hpg by (intros ->; rewrite Hnone in Hp; by destruct Hp).
      rewrite <- (Hsame p) by done. apply Hframe; [|done]. by rewrite Hsame. }
    intros p Hp Hrot. apply Hnever; [|done].
    destruct (decide (p = path)) as [->|Hpp]; [by rewrite Hfs2, lookup_delete_eq|].
    rewrite Hsame; [done|done|]. intros ->. congruence.
  - rewrite (compress_invalid_path_run fuel NoFault path content (set_queue rest w))
      by done.
    unfold invalid_filename.
    match goal with |- context [_compress rounds fuel _ ?W] => set (w2 := W) end.
    destruct (IH w2) as (w' & outs & Hrun2 & Hq' & Hinv & Hcomp & Hpairs & Hgone & Hframe & Hnever).
    { exact Hnd. }
    { exact Hfiles. }
    { cbn [queue w2 add_trace set_queue]. lia. }
    { exact Hfuel. }
    cbn [queue fs w2 add_trace set_queue] in Hinv, Hpairs, Hgone, Hframe, Hnever.
    exists w', outs.
    split; [exact Hrun2|]. split; [done|]. split.
    { rewrite Hinv. cbn [trace w2 add_trace set_queue].
      rewrite !invalid_paths_app. cbn. by rewrite !app_nil_r, <- app_assoc. }
    split.
    { rewrite Hcomp. cbn [trace w2 add_trace set_queue].
      rewrite !compressed_paths_app. cbn. by rewrite !app_nil_r. }
    done.
Qed.
(** X7: on a queue of pairwise different paths that all name regular
    files, with no failure of the streams, the worker takes the paths
    in the order of the queue and ends with the queue empty. A path
    that is no rotated path is logged as invalid and stays as it is; a
    rotated path is compressed to a new file and removed, and its
    output is logged. The outputs hold what the compressor makes of
    the content of their source, one for each rotated path and in the
    same order; every other file is as before, and no rotated path
    appears. *)
Theorem worker_drains_queue (rounds fuel : nat) (w : world) :
  NoDup (map snd (queue w)) ->
  Forall (fun p => is_file (fs w) p = true) (map snd (queue w)) ->
  (length (queue w) < rounds)%nat ->
  (S (size (fs w)) < fuel)%nat ->
  exists w' outs,
    _compress rounds fuel (fun _ => NoFault) w = Some (Ok tt, w')
    /\ queue w' = []
    /\ invalid_paths (trace w')
       = invalid_paths (trace w)
           ++ List.filter (fun p => negb (_is_compress_path p)) (map snd (queue w))
    /\ compressed_paths (trace w') = compressed_paths (trace w) ++ outs
    /\ Forall2 (fun p gz_path =>
                  exists content,
                    fs w !! p = Some (File content)
                    /\ _is_compress_path p = true
                    /\ fs w !! gz_path = None
                    /\ _is_compress_path gz_path = false
                    /\ fs w' !! gz_path = Some (File (gz_content content)))
         (List.filter _is_compress_path (map snd (queue w))) outs
    /\ (forall p, p ∈ List.filter _is_compress_path (map snd (queue w)) -> fs w' !! p = None)
    /\ (forall p, is_Some (fs w !! p) ->
          p ∉ List.filter _is_compress_path (map snd (queue w)) -> fs w' !! p = fs w !! p)
    /\ (forall p, fs w !! p = None -> _is_compress_path p = true -> fs w' !! p = None).
Proof.
  intros Hnd Hfiles Hrounds Hfuel.
  destruct (worker_drains_run rounds fuel w Hnd Hfiles Hrounds Hfuel)
    as (w' & outs & Hrun & Hrest).
  exists w', outs. split; [exact Hrun|exact Hrest].
Qed.
End WorkerDrains.

Lemma worker_drains_queue_witness :
  exists w' outs,
    _compress (H := toy_externals) 3 4 (fun _ => NoFault) disk6 = Some (Ok tt, w')
    /\ queue w' = []
    /\ invalid_paths (trace w')
       = invalid_paths (trace disk6)
           ++ List.filter (fun p => negb (_is_compress_path p)) (map snd (queue disk6))
    /\ compressed_paths (trace w') = compressed_paths (trace disk6) ++ outs
    /\ Forall2 (fun p gz_path =>
                  exists content,
                    fs disk6 !! p = Some (File content)
                    /\ _is_compress_path p = true
                    /\ fs disk6 !! gz_path = None
                    /\ _is_compress_path gz_path = false
                    /\ fs w' !! gz_path
                       = Some (File (gz_content (H := toy_externals) content)))
         (List.filter _is_compress_path (map snd (queue disk6))) outs
    /\ (forall p, p ∈ List.filter _is_compress_path (map snd (queue disk6)) ->
          fs w' !! p = None)
    /\ (forall p, is_Some (fs disk6 !! p) ->
          p ∉ List.filter _is_compress_path (map snd (queue disk6)) ->
          fs w' !! p = fs disk6 !! p)
    /\ (forall p, fs disk6 !! p = None -> _is_compress_path p = true -> fs w' !! p = None).
Proof.
  apply (worker_drains_queue (H := toy_externals) 3 4 disk6).
  - apply (bool_decide_unpack _). vm_compute. exact I.
  - repeat constructor.
  - vm_compute. lia.
  - vm_compute. lia.
Defined.

Example worker_drains_example :
  (fun r => (invalid_paths (trace (snd r)), compressed_paths (trace (snd r))))
    <$> _compress (H := toy_externals) 3 4 (fun _ => NoFault) disk6
  = Some ([active_example], [b "room/2015/01/31.json.gz"]).
Proof. vm_compute. reflexivity. Qed.

(** ** The alphabet of room directories *)

Lemma format_02X_upper_hex n : Forall (fun c => c ∈ upper_hex_digits) (format_02X n).
Proof.
  unfold format_02X, zfill. apply Forall_app. split.
  - apply Forall_replicate. vm_compute. constructor.
  - apply digits_acc_Forall; [apply digit_char_upper_hex|done|constructor].
Qed.

Lemma upper_hex_room_safe c : c ∈ upper_hex_digits -> c ∈ room_safe.
Proof.
  intros Hc. unfold upper_hex_digits in Hc. simpl in Hc.
  repeat (apply elem_of_cons in Hc as [-> | Hc];
          [by apply (bool_decide_unpack _); vm_compute|]).
  by apply elem_of_nil in Hc.
Qed.

Lemma quoter_alphabet c : Forall (fun x => x ∈ room_alphabet) (quoter (b " @") c).
Proof.
  rewrite quoter_room. unfold room_alphabet. case_bool_decide as Hs.
  - constructor; [|constructor]. apply elem_of_cons. by right.
  - constructor; [apply list_elem_of_here|].
    eapply Forall_impl; [apply format_02X_upper_hex|].
    intros x Hx. apply elem_of_cons. right. by apply upper_hex_room_safe.
Qed.

Lemma room_alphabet_printable c :
  c ∈ room_alphabet -> (32 <= N_of_ascii c < 127)%N /\ c ≠ slash /\ c ≠ newline.
Proof.
  intros Hc. unfold room_alphabet, room_safe, always_safe in Hc. simpl in Hc.
  repeat (apply elem_of_cons in Hc as [-> | Hc]; [by vm_compute|]).
  by apply elem_of_nil in Hc.
Qed.

(** X8: the name that [_encode_room_jid] returns is made of letters,
    digits, [_.-], space, [@] and [%] only: printable ASCII, with no
    slash, no newline and no byte above 127, whatever the code points
    of the JID. Every [%] in it is followed by two upper-case
    hexadecimal digits, since a byte is either kept or written as [%]
    and two such digits. The name is empty only for an empty JID. *)
Theorem encode_room_jid_alphabet `{JIDLib} (jid : jid_arg) (encoded : str) :
  _encode_room_jid jid = Ok encoded ->
  exists room_jid,
    JID jid = Ok room_jid
    /\ encoded = concat (map (quoter (b " @")) (utf8_encode (jid_unicode room_jid)))
    /\ Forall (fun c => c ∈ room_alphabet) encoded
    /\ Forall (fun c => (32 <= N_of_ascii c < 127)%N /\ c ≠ slash /\ c ≠ newline) encoded
    /\ (forall c, length (quoter (b " @") c) = 1%nat /\ quoter (b " @") c = [c]
                  /\ c ∈ room_safe
                  \/ exists h l, quoter (b " @") c = ["%"%char; h; l]
                       /\ h ∈ upper_hex_digits /\ l ∈ upper_hex_digits /\ c ∉ room_safe)
    /\ (encoded = [] <-> jid_unicode room_jid = []).
Proof.
  unfold _encode_room_jid. destruct (JID jid) as [room_jid|e]; [|done].
  destruct (jid_ne room_jid (jid_bare room_jid)); [done|].
  intros [= <-]. exists room_jid. split; [done|].
  rewrite quote_bytewise. split; [done|].
  assert (Forall (fun c => c ∈ room_alphabet)
            (concat (map (quoter (b " @")) (utf8_encode (jid_unicode room_jid))))) as Hall.
  { apply Forall_concat, Forall_map, Forall_forall. intros c _. apply quoter_alphabet. }
  split; [done|]. split.
  { eapply Forall_impl; [exact Hall|]. apply room_alphabet_printable. }
  split.
  { intros c. rewrite quoter_room. case_bool_decide as Hs; [by left|right].
    pose proof (format_02X_upper_hex (N_of_ascii c)) as Hhex.
    pose proof (format_02X_length (N_of_ascii c) (N_ascii_bounded c)) as Hlen.
    destruct (format_02X (N_of_ascii c)) as [|h [|l [|x t]]]; try done.
    apply Forall_cons in Hhex as [Hh Hhex]. apply Forall_cons in Hhex as [Hl _].
    by exists h, l. }
  unfold utf8_encode. split.
  - intros Hnil. destruct (jid_unicode room_jid) as [|u0 us]; [done|exfalso].
    cbn [map concat] in Hnil.
    assert (utf8_encode_char u0 ≠ []) as Hne.
    { unfold utf8_encode_char. by repeat case_match. }
    destruct (utf8_encode_char u0) as [|b0 bs]; [done|].
    cbn [app map concat] in Hnil. rewrite quoter_room in Hnil. by case_bool_decide.
  - by intros ->.
Qed.

Lemma encode_room_jid_alphabet_witness :
  exists room_jid,
    JID (JIDLib := plain_jids) bare_room = Ok room_jid
    /\ b "lobby room@conference.example.com"
       = concat (map (quoter (b " @"))
                   (utf8_encode (jid_unicode (JIDLib := plain_jids) room_jid)))
    /\ Forall (fun c => c ∈ room_alphabet) (b "lobby room@conference.example.com")
    /\ Forall (fun c => (32 <= N_of_ascii c < 127)%N /\ c ≠ slash /\ c ≠ newline)
         (b "lobby room@conference.example.com")
    /\ (forall c, length (quoter (b " @") c) = 1%nat /\ quoter (b " @") c = [c]
                  /\ c ∈ room_safe
                  \/ exists h l, quoter (b " @") c = ["%"%char; h; l]
                       /\ h ∈ upper_hex_digits /\ l ∈ upper_hex_digits /\ c ∉ room_safe)
    /\ (b "lobby room@conference.example.com" = []
        <-> jid_unicode (JIDLib := plain_jids) room_jid = []).
Proof.
  apply (encode_room_jid_alphabet (H := plain_jids) bare_room
           (b "lobby room@conference.example.com")).
  reflexivity.
Defined.

(** ** Different rooms, different directories *)

Lemma format_02X_byte (c : ascii) :
  exists h l, format_02X (N_of_ascii c) = [h; l]
    /\ ascii_of_N (16 * hex_value h + hex_value l) = c.
Proof.
  destruct c as [[] [] [] [] [] [] [] []]; eexists _, _; split; reflexivity.
Qed.

Lemma format_02X_byte_inj (c1 c2 : ascii) :
  format_02X (N_of_ascii c1) = format_02X (N_of_ascii c2) -> c1 = c2.
Proof.
  destruct (format_02X_byte c1) as (h1 & l1 & -> & <-).
  destruct (format_02X_byte c2) as (h2 & l2 & -> & <-).
  by intros [= -> ->].
Qed.

Lemma percent_not_room_safe : "%"%char ∉ room_safe.
Proof. apply (bool_decide_unpack _). by vm_compute. Qed.

(** The quoting can be undone: two strings with the same quoted form
    are the same. *)
Lemma quote_inj (s1 s2 : str) : quote s1 (b " @") = quote s2 (b " @") -> s1 = s2.
Proof.
  rewrite !quote_bytewise. revert s2.
  assert (forall c, quoter (b " @") c ≠ []) as Hne.
  { intros c. rewrite quoter_room. by case_bool_decide. }
  induction s1 as [|c1 s1 IH]; intros [|c2 s2]; cbn [map concat]; [done| | |].
  - intros Heq. symmetry in Heq. apply app_eq_nil in Heq as [Heq _]. by apply Hne in Heq.
  - intros Heq. apply app_eq_nil in Heq as [Heq _]. by apply Hne in Heq.
  - rewrite !quoter_room.
    pose proof (format_02X_length (N_of_ascii c1) (N_ascii_bounded c1)) as Hl1.
    pose proof (format_02X_length (N_of_ascii c2) (N_ascii_bounded c2)) as Hl2.
    case_bool_decide as H1; case_bool_decide as H2; cbn [app].
    + intros [= -> Heq]. f_equal. by apply IH.
    + intros [= -> _]. by destruct percent_not_room_safe.
    + intros [= <- _]. by destruct percent_not_room_safe.
    + intros [= Heq]. apply app_inj_1 in Heq as [Heq Hrest]; [|congruence].
      apply format_02X_byte_inj in Heq as ->. f_equal. by apply IH.
Qed.

Lemma div64_inj (a c : N) : (a / 64 = c / 64 -> a mod 64 = c mod 64 -> a = c)%N.
Proof. intros Hd Hm. rewrite (N.div_mod' a 64), (N.div_mod' c 64). by rewrite Hd, Hm. Qed.

Lemma utf8_continuation_inj (a c : N) :
  (0x80 + a mod 0x40 = 0x80 + c mod 0x40 -> a / 0x40 = c / 0x40 -> a = c)%N.
Proof. intros Hm Hd. apply div64_inj; [done|]. revert Hm. generalize (a mod 64)%N (c mod 64)%N. lia. Qed.

Lemma utf8_encode_char_cases (u : N) :
  ((u < 0x80)%N /\ utf8_encode_char u = [u])
  \/ ((0x80 <= u < 0x800)%N
      /\ utf8_encode_char u = [0xC0 + u / 0x40; 0x80 + u mod 0x40]%N)
  \/ ((0x800 <= u < 0x10000)%N
      /\ utf8_encode_char u
         = [0xE0 + u / 0x1000; 0x80 + (u / 0x40) mod 0x40; 0x80 + u mod 0x40]%N)
  \/ ((0x10000 <= u)%N
      /\ utf8_encode_char u
         = [0xF0 + u / 0x40000; 0x80 + (u / 0x1000) mod 0x40;
            0x80 + (u / 0x40) mod 0x40; 0x80 + u mod 0x40]%N).
Proof.
  unfold utf8_encode_char.
  destruct (N.ltb_spec u 0x80); [by left|right].
  destruct (N.ltb_spec u 0x800); [by left|right].
  destruct (N.ltb_spec u 0x10000); [by left|by right].
Qed.

Lemma utf8_encode_char_bytes (u : N) :
  code_point u -> Forall (fun n => (n < 256)%N) (utf8_encode_char u).
Proof.
  unfold code_point. intros Hu.
  destruct (utf8_encode_char_cases u) as [[? ->]|[[? ->]|[[? ->]|[? ->]]]];
    repeat (apply Forall_cons; split); try apply Forall_nil; divmod.
Qed.

Lemma utf8_first_length (u v : N) :
  code_point u -> code_point v ->
  hd 0%N (utf8_encode_char u) = hd 0%N (utf8_encode_char v) ->
  length (utf8_encode_char u) = length (utf8_encode_char v).
Proof.
  unfold code_point. intros Hu Hv.
  destruct (utf8_encode_char_cases u) as [[? ->]|[[? ->]|[[? ->]|[? ->]]]];
    destruct (utf8_encode_char_cases v) as [[? ->]|[[? ->]|[[? ->]|[? ->]]]];
    cbn [hd length]; intros Hhd; try done; exfalso; divmod.
Qed.

Lemma utf8_encode_char_inj (u v : N) :
  code_point u -> code_point v -> utf8_encode_char u = utf8_encode_char v -> u = v.
Proof.
  intros Hu Hv.
  destruct (utf8_encode_char_cases u) as [[? ->]|[[? ->]|[[? ->]|[? ->]]]];
    destruct (utf8_encode_char_cases v) as [[? ->]|[[? ->]|[[? ->]|[? ->]]]];
    intros Heq; try done.
  - by injection Heq.
  - injection Heq as E0 E1.
    apply utf8_continuation_inj; [done|]. revert E0. generalize (u / 64)%N (v / 64)%N. lia.
  - injection Heq as E0 E1 E2.
    apply utf8_continuation_inj; [done|]. apply utf8_continuation_inj; [done|].
    rewrite !N.Div0.div_div. revert E0. change (64 * 64)%N with 4096%N.
    generalize (u / 4096)%N (v / 4096)%N. lia.
  - injection Heq as E0 E1 E2 E3.
    apply utf8_continuation_inj; [done|]. apply utf8_continuation_inj; [done|].
    rewrite !N.Div0.div_div. change (64 * 64)%N with 4096%N.
    apply utf8_continuation_inj; [done|].
    rewrite !N.Div0.div_div. revert E0. change (4096 * 64)%N with 262144%N.
    generalize (u / 262144)%N (v / 262144)%N. lia.
Qed.

Lemma utf8_bytes_inj (us vs : list N) :
  Forall code_point us -> Forall code_point vs ->
  concat (map utf8_encode_char us) = concat (map utf8_encode_char vs) -> us = vs.
Proof.
  assert (forall u0, utf8_encode_char u0 ≠ []) as Hne.
  { intros u0. by destruct (utf8_encode_char_cases u0) as [[? ->]|[[? ->]|[[? ->]|[? ->]]]]. }
  revert vs. induction us as [|u0 us IH]; intros [|v0 vs] Hus Hvs; cbn [map concat]; [done| | |].
  - intros Heq. symmetry in Heq. apply app_eq_nil in Heq as [Heq _]. by apply Hne in Heq.
  - intros Heq. apply app_eq_nil in Heq as [Heq _]. by apply Hne in Heq.
  - apply Forall_cons in Hus as [Hu Hus]. apply Forall_cons in Hvs as [Hv Hvs].
    intros Heq. pose proof (utf8_first_length u0 v0 Hu Hv) as Hlen.
    pose proof (Hne u0) as Hu0. pose proof (Hne v0) as Hv0.
    destruct (utf8_encode_char u0) as [|b0 bs] eqn:Eu; [done|].
    destruct (utf8_encode_char v0) as [|c0 cs] eqn:Ev; [done|].
    assert (b0 = c0) as Hhd by (by injection Heq).
    apply app_inj_1 in Heq as [Heq Hrest]; [|by apply Hlen].
    rewrite <- Ev in Heq. rewrite <- Eu in Heq.
    apply utf8_encode_char_inj in Heq as ->; [|done..]. f_equal. by apply IH.
Qed.

Lemma map_ascii_of_N_inj (l1 l2 : list N) :
  Forall (fun n => (n < 256)%N) l1 -> Forall (fun n => (n < 256)%N) l2 ->
  map ascii_of_N l1 = map ascii_of_N l2 -> l1 = l2.
Proof.
  revert l2. induction l1 as [|a l1 IH]; intros [|c l2] H1 H2 Heq; try done.
  apply Forall_cons in H1 as [Ha H1]. apply Forall_cons in H2 as [Hc H2].
  injection Heq as Hac Heq. f_equal; [|by apply IH].
  by rewrite <- (N_ascii_embedding a Ha), <- (N_ascii_embedding c Hc), Hac.
Qed.

Lemma utf8_encode_inj (us vs : list N) :
  Forall code_point us -> Forall code_point vs -> utf8_encode us = utf8_encode vs -> us = vs.
Proof.
  intros Hus Hvs Heq. apply utf8_bytes_inj; [done..|].
  assert (forall ws, Forall code_point ws ->
            Forall (fun n => (n < 256)%N) (concat (map utf8_encode_char ws))) as Hbytes.
  { intros ws Hws. apply Forall_concat, Forall_map.
    eapply Forall_impl; [exact Hws|]. apply utf8_encode_char_bytes. }
  apply map_ascii_of_N_inj; [by apply Hbytes..|done].
Qed.

Lemma startswith_no_slash (s : str) : slash ∉ s -> startswith s [slash] = false.
Proof.
  intros Hs. unfold startswith. apply bool_decide_eq_false_2. intros [t ->].
  apply Hs. apply list_elem_of_here.
Qed.

(** ** The encoded room name: UTF-8, escapes, path segments *)


Tactic Notation "enumerate_below" constr(x) integer(n) :=
  let k := fresh "k" in
  assert (exists k, x = N.of_nat k) as [k ->] by (exists (N.to_nat x); lia);
  do n (destruct k as [|k]; [reflexivity|]); lia.













(** X9: rooms whose JIDs print differently get different directory
    names, and so different directories below any archive directory:
    the UTF-8 bytes of a sequence of code points determine the
    sequence, and the quoting can be undone, since [%] itself is
    quoted. *)
Theorem encode_room_jid_injective `{JIDLib} (jid1 jid2 : jid_arg) (room1 room2 : jid_t)
    (name1 name2 : str) :
  JID jid1 = Ok room1 ->
  JID jid2 = Ok room2 ->
  Forall code_point (jid_unicode room1) ->
  Forall code_point (jid_unicode room2) ->
  jid_unicode room1 ≠ jid_unicode room2 ->
  _encode_room_jid jid1 = Ok name1 ->
  _encode_room_jid jid2 = Ok name2 ->
  name1 ≠ name2
  /\ forall archive_dir, path_join archive_dir name1 ≠ path_join archive_dir name2.
Proof.
  intros Hj1 Hj2 Hu1 Hu2 Hne He1 He2.
  unfold _encode_room_jid in He1, He2. rewrite Hj1 in He1. rewrite Hj2 in He2.
  destruct (jid_ne room1 (jid_bare room1)); [done|].
  destruct (jid_ne room2 (jid_bare room2)); [done|].
  injection He1 as <-. injection He2 as <-.
  assert (quote (utf8_encode (jid_unicode room1)) (b " @")
          ≠ quote (utf8_encode (jid_unicode room2)) (b " @")) as Hnames.
  { intros Heq. apply quote_inj, utf8_encode_inj in Heq; done. }
  split; [done|]. intros archive_dir Heq. apply Hnames.
  apply (path_join_inj archive_dir); [|done].
  by rewrite !startswith_no_slash by apply quote_no_slash.
Qed.

Lemma encode_room_jid_injective_witness :
  b "a b@conference.example.com" ≠ b "a%2520b@conference.example.com"
  /\ forall archive_dir,
       path_join archive_dir (b "a b@conference.example.com")
       ≠ path_join archive_dir (b "a%2520b@conference.example.com").
Proof.
  apply (encode_room_jid_injective (H := plain_jids) space_room percent_room
           (PlainJID (Some (u "a b")) (u "conference.example.com") None)
           (PlainJID (Some (u "a%20b")) (u "conference.example.com") None)).
  - reflexivity.
  - reflexivity.
  - apply Forall_forall. intros c Hc. simpl in Hc.
    repeat (apply elem_of_cons in Hc as [-> | Hc]; [by vm_compute|]).
    by apply elem_of_nil in Hc.
  - apply Forall_forall. intros c Hc. simpl in Hc.
    repeat (apply elem_of_cons in Hc as [-> | Hc]; [by vm_compute|]).
    by apply elem_of_nil in Hc.
  - by vm_compute.
  - reflexivity.
  - reflexivity.
Defined.

(** ** Where the archive files are *)

Lemma digits_acc_nonempty up base fuel n acc : acc ≠ [] -> digits_acc up base fuel n acc ≠ [].
Proof.
  revert n acc. induction fuel as [|fuel IH]; intros n acc Hacc; [done|].
  cbn [digits_acc]. destruct (n / base =? 0)%N; [done|]. by apply IH.
Qed.

Lemma digit_char_decimal d : (d < 10)%N -> digit_char false d ∈ decimal_digits.
Proof.
  intros Hd. assert (exists k, d = N.of_nat k /\ (k < 10)%nat) as (k & -> & Hk).
  { exists (N.to_nat d). split; lia. }
  do 10 (destruct k as [|k]; [vm_compute; repeat constructor|]). lia.
Qed.

(** A decimal field is a string of digits, and not empty. *)
Lemma decimal_field (width : nat) (n : N) :
  zfill width (digits false 10 n) ≠ []
  /\ Forall (fun c => c ∈ decimal_digits) (zfill width (digits false 10 n)).
Proof.
  unfold zfill, digits. split.
  - intros Hnil. apply app_eq_nil in Hnil as [_ Hnil]. revert Hnil.
    cbn [digits_acc]. destruct (n / 10 =? 0)%N; [done|]. by apply digits_acc_nonempty.
  - apply Forall_app. split.
    + apply Forall_replicate. vm_compute. constructor.
    + apply digits_acc_Forall; [apply digit_char_decimal|done|constructor].
Qed.

Lemma decimal_digits_plain c :
  c ∈ decimal_digits -> c ≠ slash /\ c ≠ dot /\ c ≠ newline.
Proof.
  intros Hc. unfold decimal_digits in Hc. simpl in Hc.
  repeat (apply elem_of_cons in Hc as [-> | Hc]; [done|]).
  by apply elem_of_nil in Hc.
Qed.

Lemma decimal_no (s : str) (c : ascii) :
  Forall (fun x => x ∈ decimal_digits) s -> c = slash \/ c = dot \/ c = newline -> c ∉ s.
Proof.
  intros Hs Hc Hin. rewrite Forall_forall in Hs.
  destruct (decimal_digits_plain c (Hs c Hin)) as (? & ? & ?). by destruct Hc as [?|[?|?]].
Qed.

Lemma decimal_ends_plain (s : str) :
  s ≠ [] -> Forall (fun x => x ∈ decimal_digits) s -> ends_plain s.
Proof.
  intros Hne Hs. destruct (exists_last Hne) as (s' & c & ->). exists s', c. split; [done|].
  rewrite Forall_app, Forall_singleton in Hs. destruct Hs as [_ Hc].
  by destruct (decimal_digits_plain c Hc).
Qed.

Lemma ends_plain_endswith (s : str) : ends_plain s -> s ≠ [] /\ endswith s [slash] = false.
Proof.
  intros (s' & c & -> & Hc). split; [by destruct s'|].
  unfold endswith. apply bool_decide_eq_false_2. intros [k Hk].
  apply app_inj_tail in Hk as [_ Hk]. done.
Qed.

Lemma ends_plain_app (a s : str) : ends_plain s -> ends_plain (a ++ s).
Proof. intros (s' & c & -> & Hc). exists (a ++ s'), c. by rewrite <- app_assoc. Qed.

Lemma startswith_first (c : ascii) (s : str) : c ≠ slash -> startswith (c :: s) [slash] = false.
Proof.
  intros Hc. unfold startswith. apply bool_decide_eq_false_2. intros [k Hk]. by simplify_eq/=.
Qed.

(** Joining a component to a directory name that does not end with a
    slash puts one slash between them. *)
Lemma path_join_plain (a f : str) :
  ends_plain a -> startswith f [slash] = false -> path_join a f = a ++ slash :: f.
Proof.
  intros Ha Hf. apply ends_plain_endswith in Ha as [Hne Hend].
  unfold path_join. rewrite Hf, Hend, bool_decide_eq_false_2 by done. done.
Qed.

Lemma plain_ends_plain (s : str) : s ≠ [] -> endswith s [slash] = false -> ends_plain s.
Proof.
  intros Hne Hend. destruct (exists_last Hne) as (s' & c & ->). exists s', c. split; [done|].
  intros ->. unfold endswith in Hend. apply bool_decide_eq_false in Hend. apply Hend.
  by exists s'.
Qed.

Lemma splitext_decimal (d : str) :
  d ≠ [] -> Forall (fun c => c ∈ decimal_digits) d ->
  splitext (d ++ b ".json") = (d, b ".json").
Proof.
  intros Hne Hd. unfold splitext.
  assert (slash ∉ d ++ b ".json") as Hslash.
  { apply not_elem_of_app. split; [apply decimal_no; auto|].
    apply (bool_decide_unpack _). by vm_compute. }
  rewrite (rfind_absent _ _ Hslash).
  change (d ++ b ".json") with (d ++ dot :: b "json").
  rewrite rfind_last by (apply (bool_decide_unpack _); by vm_compute).
  destruct d as [|c d]; [done|]. apply Forall_cons in Hd as [Hc Hd].
  rewrite (proj2 (Z.ltb_lt _ _)) by (cbn [length]; lia).
  rewrite length_app. cbn [length Nat.add skip_leading_dots].
  change (-1 + 1) with 0. rewrite (proj2 (Z.ltb_lt _ _)) by lia.
  change (((c :: d) ++ dot :: b "json") !! Z.to_nat 0) with (Some c). cbn beta iota.
  rewrite bool_decide_eq_true_2 by (by destruct (decimal_digits_plain c Hc) as (_ & ? & _)).
  cbn [andb]. unfold slice_to, slice_from. rewrite Nat2Z.id.
  change (S (length d)) with (length (c :: d)).
  by rewrite take_app_length, drop_app_length.
Qed.

Lemma digits_acc_grows (upper : bool) (base : N) (fuel : nat) (n : N) (acc : str) :
  (length acc <= length (digits_acc upper base fuel n acc))%nat.
Proof.
  revert n acc. induction fuel as [|fuel IH]; intros n acc; [done|].
  cbn [digits_acc]. destruct (n / base =? 0)%N; [cbn [length]; lia|].
  etrans; [|apply IH]. cbn [length]. lia.
Qed.

(** A year from 1000 on has four digits or more. *)
Lemma format_Y_length (n : N) : (1000 <= n)%N -> (4 <= length (format_Y n))%nat.
Proof.
  intros Hn. unfold format_Y, digits.
  assert (3 <= N.log2 n)%N as Hlog by (change 3%N with (N.log2 8); apply N.log2_le_mono; lia).
  destruct (N.to_nat (N.log2 n)) as [|[|[|fuel]]] eqn:E; [lia..|].
  cbn [digits_acc].
  destruct (N.eqb_spec (n / 10) 0) as [H0|_]; [exfalso; divmod|].
  destruct (N.eqb_spec (n / 10 / 10) 0) as [H0|_]; [exfalso; divmod|].
  destruct (N.eqb_spec (n / 10 / 10 / 10) 0) as [H0|_]; [exfalso; divmod|].
  destruct (n / 10 / 10 / 10 / 10 =? 0)%N; [done|].
  etrans; [|apply digits_acc_grows]. done.
Qed.

(** A number below 100 makes a field of two digits. *)
Lemma format_02d_length (n : N) : (n < 100)%N -> length (format_02d n) = 2%nat.
Proof.
  intros Hn. unfold format_02d, zfill, digits. cbn [digits_acc].
  destruct (N.eqb_spec (n / 10) 0) as [_|Hbig]; [done|].
  assert (3 <= N.log2 n)%N as Hlog.
  { change 3%N with (N.log2 8). apply N.log2_le_mono. divmod. }
  destruct (N.to_nat (N.log2 n)) as [|fuel] eqn:E; [lia|].
  cbn [digits_acc].
  destruct (N.eqb_spec (n / 10 / 10) 0) as [_|Hbig2]; [done|]. exfalso. divmod.
Qed.

Section ArchiveLayout.
Context `{Externals}.

Lemma date_fields (ts : Z) :
  (year_field ts ≠ [] /\ Forall (fun c => c ∈ decimal_digits) (year_field ts))
  /\ (month_field ts ≠ [] /\ Forall (fun c => c ∈ decimal_digits) (month_field ts))
  /\ (day_field ts ≠ [] /\ Forall (fun c => c ∈ decimal_digits) (day_field ts)).
Proof. repeat split; try apply decimal_field; apply (decimal_field 0). Qed.

Lemma archive_filename_plain (ts : Z) :
  archive_filename ts ≠ [] /\ (slash ∉ archive_filename ts) /\ (newline ∉ archive_filename ts).
Proof.
  destruct (date_fields ts) as (_ & _ & Hd0 & Hd). unfold archive_filename.
  split; [by destruct (day_field ts)|].
  split; (apply not_elem_of_app; split;
          [apply decimal_no; auto | apply (bool_decide_unpack _); by vm_compute]).
Qed.

Lemma archive_path_eq (room_name : str) (ts : Z) :
  room_name ≠ [] -> slash ∉ room_name ->
  archive_path ts room_name
  = room_name ++ slash :: year_field ts ++ slash :: month_field ts
      ++ slash :: archive_filename ts.
Proof.
  intros Hne Hs. destruct (date_fields ts) as ((Hy0 & Hy) & (Hm0 & Hm) & _).
  destruct (archive_filename_plain ts) as (_ & Hfs & _). revert Hfs.
  unfold archive_path, year_field, month_field, archive_filename, day_field in *.
  destruct (gmtime ts) as [[year month] day]. cbn [fst snd] in *. intros Hfs.
  assert (ends_plain room_name) as Hroom.
  { destruct (exists_last Hne) as (s' & c & ->). exists s', c. split; [done|].
    intros ->. apply Hs. apply elem_of_app. right. apply list_elem_of_here. }
  rewrite (path_join_plain room_name); [|done|apply startswith_no_slash, decimal_no; auto].
  rewrite (path_join_plain (room_name ++ _)).
  2:{ apply ends_plain_app, (ends_plain_app [slash]). by apply decimal_ends_plain. }
  2:{ apply startswith_no_slash, decimal_no; auto. }
  rewrite (path_join_plain ((room_name ++ _) ++ _)).
  2:{ apply ends_plain_app, (ends_plain_app [slash]). by apply decimal_ends_plain. }
  2:{ by apply startswith_no_slash. }
  by repeat (rewrite <- app_assoc || rewrite <- app_comm_cons).
Qed.

(** The path of an archive file, and its two parts. *)
Lemma archive_path_split (archive_dir room_name : str) (ts : Z) :
  archive_dir ≠ [] ->
  endswith archive_dir [slash] = false ->
  room_name ≠ [] ->
  slash ∉ room_name ->
  path_join archive_dir (archive_path ts room_name)
  = archive_dirname archive_dir room_name ts ++ slash :: archive_filename ts
  /\ path_join archive_dir (archive_path ts room_name)
     = path_join (archive_dirname archive_dir room_name ts) (archive_filename ts)
  /\ path_split (path_join archive_dir (archive_path ts room_name))
     = (archive_dirname archive_dir room_name ts, archive_filename ts)
  /\ ends_plain (archive_dirname archive_dir room_name ts).
Proof.
  intros Hdir0 Hdir Hne Hs.
  set (path := path_join archive_dir (archive_path ts room_name)).
  set (dirname := archive_dirname archive_dir room_name ts).
  set (filename := archive_filename ts).
  destruct (date_fields ts) as ((Hy0 & Hy) & (Hm0 & Hm) & (Hd0 & Hd)).
  destruct (archive_filename_plain ts) as (Hf0 & Hfs & Hfn). fold filename in Hf0, Hfs, Hfn.
  assert (ends_plain dirname) as Hdn.
  { unfold dirname, archive_dirname.
    apply ends_plain_app, (ends_plain_app [slash]), ends_plain_app, (ends_plain_app [slash]),
      ends_plain_app, (ends_plain_app [slash]). by apply decimal_ends_plain. }
  assert (path = dirname ++ slash :: filename) as Hpath.
  { unfold path. rewrite archive_path_eq by done.
    rewrite path_join_plain; [|by apply plain_ends_plain|].
    - unfold dirname, archive_dirname, filename.
      by repeat (rewrite <- app_assoc || rewrite <- app_comm_cons).
    - destruct room_name as [|c r]; [done|]. apply startswith_first.
      intros ->. apply Hs, list_elem_of_here. }
  assert (path = path_join dirname filename) as Hjoin.
  { rewrite Hpath, path_join_plain; [done|done|by apply startswith_no_slash]. }
  split; [done|]. split; [done|]. split; [|done].
  rewrite Hjoin. apply path_split_join; [|done..].
  destruct Hdn as (d' & c & Hd' & Hc). right. right. by exists d', c.
Qed.

(** X10: for a room name that is not empty, has no slash and is ASCII,
    an archive directory that does not end with a slash, and a date
    from the year 1900 on, the archive file of a time stamp is
    [<archive_dir>/<room>/<year>/<month>/<day>.json], the date fields
    being decimal numbers, the year of four digits or more, the month
    and the day of two; [os.path.split] gives back its directory and
    [<day>.json]. Such a path is never a rotated path; the rotated name
    it gets is the path followed by the tag, and splits back into that
    directory and [<day>.json] (a date has no newline). The compressed
    output of that rotated file is tried as [<day>.json.gz] first, then
    as [<day>-<count>.json.gz], in the same directory. *)
Theorem archive_layout (archive_dir room_name : str) (ts : Z) (raw : N) :
  archive_dir ≠ [] ->
  endswith archive_dir [slash] = false ->
  room_name ≠ [] ->
  slash ∉ room_name ->
  ascii_only room_name ->
  calendar_date (gmtime ts) ->
  let path := path_join archive_dir (archive_path ts room_name) in
  let dirname := archive_dirname archive_dir room_name ts in
  let filename := archive_filename ts in
  path = dirname ++ slash :: filename
  /\ path_split path = (dirname, filename)
  /\ Forall (fun c => c ∈ decimal_digits) (year_field ts ++ month_field ts ++ day_field ts)
  /\ (4 <= length (year_field ts))%nat
  /\ length (month_field ts) = 2%nat
  /\ length (day_field ts) = 2%nat
  /\ _is_compress_path path = false
  /\ tagged path raw = path ++ b ".compress-" ++ format_08x (raw mod 2 ^ 32)
  /\ _split_compress_path (tagged path raw) = Ok (dirname, filename)
  /\ splitext filename = (day_field ts, b ".json")
  /\ forall count,
       unique_candidate dirname (gz_prefix filename) (gz_suffix filename) count
       = dirname ++ slash :: day_field ts
           ++ (if (count =? 0)%N then [] else b "-" ++ format_08d count) ++ b ".json.gz".
Proof.
  intros Hdir0 Hdir Hne Hs _ (Hyear & Hmonth & Hday) path dirname filename.
  destruct (date_fields ts) as ((Hy0 & Hy) & (Hm0 & Hm) & (Hd0 & Hd)).
  destruct (archive_filename_plain ts) as (Hf0 & Hfs & Hfn). fold filename in Hf0, Hfs, Hfn.
  destruct (archive_path_split archive_dir room_name ts Hdir0 Hdir Hne Hs)
    as (Hpath & Hjoin & Hsplit & Hdn).
  fold path dirname filename in Hpath, Hjoin, Hsplit, Hdn.
  assert (splitext filename = (day_field ts, b ".json")) as Hext
    by (by apply splitext_decimal).
  split; [done|]. split; [done|]. split.
  { rewrite !Forall_app. done. }
  split; [apply format_Y_length; lia|].
  split; [apply format_02d_length; lia|].
  split; [apply format_02d_length; lia|].
  split.
  { rewrite Hjoin. apply json_not_rotated. }
  split.
  { unfold tagged. rewrite Hsplit. cbn [fst snd]. rewrite path_join_plain; [|done|].
    - rewrite Hpath. by repeat (rewrite <- app_assoc || rewrite <- app_comm_cons).
    - apply startswith_no_slash, tag_no_slash; [done|apply format_08x_hex]. }
  split.
  { rewrite <- Hsplit. apply tagged_split. by rewrite Hsplit. }
  split; [done|].
  intros count. unfold gz_prefix, gz_suffix, unique_candidate. rewrite Hext. cbn [fst snd].
  assert (forall rest, startswith (day_field ts ++ rest) [slash] = false) as Hstart.
  { intros rest. destruct (day_field ts) as [|c d]; [done|]. apply startswith_first.
    apply Forall_cons in Hd as [Hc _]. by destruct (decimal_digits_plain c Hc). }
  destruct (count =? 0)%N.
  - rewrite path_join_plain; [done|done|apply Hstart].
  - rewrite path_join_plain; [|done|apply Hstart].
    by repeat (rewrite <- app_assoc || rewrite <- app_comm_cons).
Qed.
End ArchiveLayout.

Lemma archive_layout_witness :
  let path := path_join (b "/var/archive")
                (archive_path (H := toy_externals) 0 (b "lobby room@conference.example.com")) in
  let dirname := archive_dirname (H := toy_externals) (b "/var/archive")
                   (b "lobby room@conference.example.com") 0 in
  let filename := archive_filename (H := toy_externals) 0 in
  path = dirname ++ slash :: filename
  /\ path_split path = (dirname, filename)
  /\ Forall (fun c => c ∈ decimal_digits)
       (year_field (H := toy_externals) 0 ++ month_field (H := toy_externals) 0
          ++ day_field (H := toy_externals) 0)
  /\ (4 <= length (year_field (H := toy_externals) 0))%nat
  /\ length (month_field (H := toy_externals) 0) = 2%nat
  /\ length (day_field (H := toy_externals) 0) = 2%nat
  /\ _is_compress_path path = false
  /\ tagged path 42 = path ++ b ".compress-" ++ format_08x (42 mod 2 ^ 32)
  /\ _split_compress_path (tagged path 42) = Ok (dirname, filename)
  /\ splitext filename = (day_field (H := toy_externals) 0, b ".json")
  /\ forall count,
       unique_candidate dirname (gz_prefix filename) (gz_suffix filename) count
       = dirname ++ slash :: day_field (H := toy_externals) 0
           ++ (if (count =? 0)%N then [] else b "-" ++ format_08d count) ++ b ".json.gz".
Proof.
  apply (archive_layout (H := toy_externals) (b "/var/archive")
           (b "lobby room@conference.example.com") 0 42).
  - done.
  - reflexivity.
  - done.
  - apply (bool_decide_unpack _). by vm_compute.
  - apply (bool_decide_unpack _). by vm_compute.
  - vm_compute. repeat split; discriminate.
Defined.

Example archive_layout_example :
  path_join (b "/var/archive")
    (archive_path (H := toy_externals) 0 (b "lobby room@conference.example.com"))
  = b "/var/archive/lobby room@conference.example.com/2015/01/31.json".
Proof. reflexivity. Qed.

(** ** Making the directories *)

Lemma rstrip_prefix (c : ascii) (s : str) : rstrip c s `prefix_of` s.
Proof.
  induction s as [|x s IH]; [done|]. cbn [rstrip].
  destruct (rstrip c s) as [|y r].
  - case_bool_decide; [apply prefix_nil|]. apply prefix_cons, prefix_nil.
  - by apply prefix_cons.
Qed.

Lemma path_split_prefix (p : str) : fst (path_split p) `prefix_of` p.
Proof.
  unfold path_split. cbn zeta. unfold slice_to.
  set (i := Z.to_nat (rfind slash p + 1)).
  assert (take i p `prefix_of` p) as Htake by (exists (drop i p); by rewrite take_drop).
  destruct (_ && _); cbn [fst]; [|done].
  etrans; [apply rstrip_prefix|done].
Qed.

Lemma path_split_shorter (p : str) :
  snd (path_split p) ≠ [] -> (length (fst (path_split p)) < length p)%nat.
Proof.
  unfold path_split. cbn zeta. unfold slice_to, slice_from.
  set (i := Z.to_nat (rfind slash p + 1)). intros Htail.
  assert (length (take i p) < length p)%nat as Hlt.
  { assert (drop i p ≠ []) as Hd by (by destruct (_ && _)).
    rewrite length_take. destruct (decide (i < length p)%nat); [lia|].
    by rewrite drop_ge in Hd by lia. }
  destruct (_ && _); cbn [fst]; [|done].
  pose proof (prefix_length _ _ (rstrip_prefix slash (take i p))). lia.
Qed.

Lemma made_dirs_refl (w : world) : made_dirs [] w w.
Proof.
  unfold made_dirs. cbn [map]. rewrite app_nil_r.
  repeat split; try done. intros p Hp. by left.
Qed.

Lemma made_dirs_trans (mk1 mk2 : list str) (w w1 w2 : world) :
  made_dirs mk1 w w1 -> made_dirs mk2 w1 w2 -> made_dirs (mk1 ++ mk2) w w2.
Proof.
  intros (Hr1 & Hp1 & Hq1 & Ht1 & Hk1 & Hn1) (Hr2 & Hp2 & Hq2 & Ht2 & Hk2 & Hn2).
  unfold made_dirs. split; [congruence|]. split; [congruence|]. split; [congruence|].
  split; [by rewrite Ht2, Ht1, map_app, app_assoc|]. split.
  - intros p Hp. rewrite <- (Hk1 p Hp). apply Hk2. by rewrite (Hk1 p Hp).
  - intros p Hp. destruct (Hn1 p Hp) as [Hnone | [Hdir Hin]].
    + destruct (Hn2 p Hnone) as [? | [? Hin]]; [by left|right].
      split; [done|]. apply elem_of_app. by right.
    + right. split; [|apply elem_of_app; by left].
      rewrite <- Hdir. apply Hk2. by rewrite Hdir.
Qed.

Lemma os_mkdir_run (p : str) (w : world) :
  (is_Some (fs w !! p) /\ os_mkdir p w = Some (Raise (OSError EEXIST p), w))
  \/ (fs w !! p = None
      /\ exists w', os_mkdir p w = Some (Ok tt, w')
           /\ made_dirs [p] w w' /\ fs w' !! p = Some Dir).
Proof.
  unfold os_mkdir. destruct (fs w !! p) as [nd|] eqn:E; [left; by split|right].
  split; [done|]. eexists. split; [reflexivity|].
  unfold made_dirs. cbn [fs rng rng_pos queue trace add_trace set_fs map].
  split; [|apply lookup_insert_eq].
  split; [done|]. split; [done|]. split; [done|]. split; [done|]. split.
  - intros q Hq. rewrite lookup_insert_ne; [done|]. intros ->. rewrite E in Hq. by destruct Hq.
  - intros q Hq. destruct (decide (p = q)) as [<-|Hne].
    + right. split; [apply lookup_insert_eq|apply list_elem_of_here].
    + left. by rewrite lookup_insert_ne.
Qed.

(** [os.makedirs] comes to an end with fuel above the length of the
    name; it returns, or raises for the name itself when it exists;
    it makes only directories, each a prefix of the name. *)
Lemma os_makedirs_run (fuel : nat) (dir_name : str) (w : world) :
  (length dir_name < fuel)%nat ->
  exists r mk w',
    os_makedirs fuel dir_name w = Some (r, w')
    /\ (r = Ok tt \/ r = Raise (OSError EEXIST dir_name) /\ is_Some (fs w' !! dir_name))
    /\ made_dirs mk w w'
    /\ Forall (fun d => d `prefix_of` dir_name) mk.
Proof.
  revert dir_name w. induction fuel as [|fuel IH]; intros dir_name w Hfuel; [lia|].
  assert (exists r mk w',
            os_mkdir dir_name w = Some (r, w')
            /\ (r = Ok tt \/ r = Raise (OSError EEXIST dir_name) /\ is_Some (fs w' !! dir_name))
            /\ made_dirs mk w w'
            /\ Forall (fun d => d `prefix_of` dir_name) mk) as Hleaf.
  { destruct (os_mkdir_run dir_name w) as [[Hex ->] | (Hnone & w' & -> & Hmade & _)].
    - exists (Raise (OSError EEXIST dir_name)), [], w.
      split; [done|]. split; [by right|]. split; [apply made_dirs_refl|constructor].
    - exists (Ok tt), [dir_name], w'.
      split; [done|]. split; [by left|]. split; [done|]. by repeat constructor. }
  cbn [os_makedirs].
  pose proof (path_split_prefix dir_name) as Hpre1.
  pose proof (path_split_shorter dir_name) as Hlt1.
  destruct (path_split dir_name) as [head1 tail1]. cbn [fst snd] in Hpre1, Hlt1.
  assert (exists head tail,
            (if bool_decide (tail1 = []) then path_split head1 else (head1, tail1))
            = (head, tail)
            /\ head `prefix_of` dir_name
            /\ (tail ≠ [] -> (length head < length dir_name)%nat))
    as (head & tail & -> & Hpre & Hlt).
  { case_bool_decide as Ht1.
    - pose proof (path_split_prefix head1) as Hpre2.
      pose proof (path_split_shorter head1) as Hlt2.
      destruct (path_split head1) as [head tail]. cbn [fst snd] in Hpre2, Hlt2.
      exists head, tail. split; [done|]. split; [etrans; [exact Hpre2|exact Hpre1]|].
      intros Ht. specialize (Hlt2 Ht). pose proof (prefix_length _ _ Hpre1). lia.
    - by exists head1, tail1. }
  erewrite bind_Ok; [|reflexivity].
  destruct (bool_decide (head ≠ []) && bool_decide (tail ≠ [])
            && negb (bool_decide (is_Some (fs w !! head)))) eqn:Hcond; [|exact Hleaf].
  apply andb_true_iff in Hcond as [Hcond _]. apply andb_true_iff in Hcond as [_ Htail].
  apply bool_decide_eq_true in Htail.
  destruct (IH head w) as (r1 & mk1 & w1 & Hrun1 & Hr1 & Hmade1 & Hmk1); [specialize (Hlt Htail); lia|].
  rewrite Hrun1.
  assert (Forall (fun d => d `prefix_of` dir_name) mk1) as Hmk1'.
  { eapply Forall_impl; [exact Hmk1|]. intros d Hd. etrans; [exact Hd|exact Hpre]. }
  assert (exists r mk w',
            (if bool_decide (tail = [dot]) then Some (Ok tt, w1) else os_mkdir dir_name w1)
            = Some (r, w')
            /\ (r = Ok tt \/ r = Raise (OSError EEXIST dir_name) /\ is_Some (fs w' !! dir_name))
            /\ made_dirs mk w w'
            /\ Forall (fun d => d `prefix_of` dir_name) mk) as Hnext.
  { case_bool_decide as Hdot.
    - exists (Ok tt), mk1, w1. split; [done|]. split; [by left|]. by split.
    - destruct (os_mkdir_run dir_name w1) as [[Hex ->] | (Hnone & w' & -> & Hmade & _)].
      + exists (Raise (OSError EEXIST dir_name)), mk1, w1.
        split; [done|]. split; [by right|]. by split.
      + exists (Ok tt), (mk1 ++ [dir_name]), w'.
        split; [done|]. split; [by left|]. split; [by eapply made_dirs_trans|].
        apply Forall_app. split; [done|]. by repeat constructor. }
  destruct Hr1 as [-> | [-> _]]; exact Hnext.
Qed.

(** On a path that exists and whose parent exists, [os.makedirs] makes
    nothing and raises for the path. *)
Lemma os_makedirs_existing (fuel : nat) (head tail : str) (w : world) :
  split_head head -> tail ≠ [] -> slash ∉ tail ->
  is_Some (fs w !! head) ->
  is_Some (fs w !! path_join head tail) ->
  os_makedirs (S fuel) (path_join head tail) w
  = Some (Raise (OSError EEXIST (path_join head tail)), w).
Proof.
  intros Hhead Htail Hslash Hparent Hthere. cbn [os_makedirs].
  rewrite path_split_join by done. rewrite bool_decide_eq_false_2 by done.
  erewrite bind_Ok; [|reflexivity].
  rewrite (bool_decide_eq_true_2 (is_Some (fs w !! head))) by done.
  rewrite andb_false_r.
  destruct (os_mkdir_run (path_join head tail) w) as [[_ Hrun] | [Hnone _]]; [done|].
  rewrite Hnone in Hthere. by destruct Hthere.
Qed.

Section EnsureDir.
Context `{Externals}.

Lemma ensure_dir_run (dir_name : str) (w : world) :
  exists mk w',
    ensure_dir dir_name w = Some (Ok (abspath dir_name), w')
    /\ made_dirs mk w w'
    /\ Forall (fun d => d `prefix_of` abspath dir_name) mk.
Proof.
  unfold ensure_dir.
  destruct (os_makedirs_run (S (length (abspath dir_name))) (abspath dir_name) w)
    as (r & mk & w' & Hrun & Hr & Hmade & Hmk); [lia|].
  rewrite Hrun. exists mk, w'. split; [|done].
  destruct Hr as [-> | [-> _]]; [done|].
  by rewrite bool_decide_eq_false_2 by (intros Hne; by apply Hne).
Qed.

(** X11: on a disk where no regular file is a proper ancestor of the
    absolute path, [ensure_dir] comes to an end and returns that path:
    the failure of [mkdir] on an existing path never leaves it. What it
    makes are directories whose names are prefixes of the path; what
    existed stays as it was, a regular file at the path itself
    included. And when the path exists already and so does its parent,
    nothing is made and nothing changes, also when the path names a
    regular file: the result does not say that a directory is there. *)
Theorem ensure_dir_outcome (dir_name : str) (w : world) :
  ((forall p, is_file (fs w) p = true -> ~ (p ++ [slash]) `prefix_of` abspath dir_name) ->
   exists mk w',
     ensure_dir dir_name w = Some (Ok (abspath dir_name), w')
     /\ queue w' = queue w
     /\ trace w' = trace w ++ map OpMkdir mk
     /\ Forall (fun d => d `prefix_of` abspath dir_name) mk
     /\ (forall p, is_Some (fs w !! p) -> fs w' !! p = fs w !! p)
     /\ (forall p, fs w !! p = None ->
           fs w' !! p = None \/ fs w' !! p = Some Dir /\ p ∈ mk))
  /\ (forall head tail,
        split_head head -> tail ≠ [] -> slash ∉ tail ->
        abspath dir_name = path_join head tail ->
        is_Some (fs w !! head) ->
        is_Some (fs w !! abspath dir_name) ->
        ensure_dir dir_name w = Some (Ok (abspath dir_name), w)).
Proof.
  split.
  - intros _. destruct (ensure_dir_run dir_name w) as (mk & w' & Hrun & Hmade & Hmk).
    destruct Hmade as (_ & _ & Hq & Ht & Hk & Hn). by exists mk, w'.
  - intros head tail Hhead Htail Hslash Habs Hparent Hthere.
    unfold ensure_dir. rewrite Habs in Hthere |- *.
    rewrite os_makedirs_existing by done.
    by rewrite bool_decide_eq_false_2 by (intros Hne; by apply Hne).
Qed.
End EnsureDir.

Lemma ensure_dir_outcome_witness :
  (exists mk w',
     ensure_dir (H := toy_externals) (b "/var/archive/room/2015/01") disk0
     = Some (Ok (b "/var/archive/room/2015/01"), w')
     /\ queue w' = queue disk0
     /\ trace w' = trace disk0 ++ map OpMkdir mk
     /\ Forall (fun d => d `prefix_of` b "/var/archive/room/2015/01") mk
     /\ (forall p, is_Some (fs disk0 !! p) -> fs w' !! p = fs disk0 !! p)
     /\ (forall p, fs disk0 !! p = None ->
           fs w' !! p = None \/ fs w' !! p = Some Dir /\ p ∈ mk))
  /\ ensure_dir (H := toy_externals) (b "/var/archive/room/2015") disk7
     = Some (Ok (b "/var/archive/room/2015"), disk7)
  /\ fs disk7 !! b "/var/archive/room/2015" = Some (File (b "x")).
Proof.
  split; [|split; [|reflexivity]].
  - apply (proj1 (ensure_dir_outcome (H := toy_externals) (b "/var/archive/room/2015/01") disk0)).
    intros p Hp. exfalso. unfold is_file, disk0, world0, set_fs in Hp. cbn [fs] in Hp.
    destruct (decide (b "/var/archive" = p)) as [<-|Hne];
      [by rewrite lookup_insert_eq in Hp|by rewrite lookup_insert_ne, lookup_empty in Hp].
  - apply (proj2 (ensure_dir_outcome (H := toy_externals) (b "/var/archive/room/2015") disk7)
             (b "/var/archive/room") (b "2015")).
    + right. right. by exists (b "/var/archive/roo"), "m"%char.
    + done.
    + apply (bool_decide_unpack _). by vm_compute.
    + reflexivity.
    + by eexists.
    + by eexists.
Defined.

(** ** The first record after a rotation *)

Section FirstRecord.
Context `{Externals}.

Lemma record_line_newline (fields : list (str * list str)) :
  newline ∈ record_line fields /\ record_line fields ≠ [].
Proof.
  unfold record_line. split.
  - apply elem_of_app. right. apply list_elem_of_here.
  - intros Hnil. by apply app_eq_nil in Hnil as [_ Hnil].
Qed.

(** Opening the archive file of a time stamp: the missing directories
    are made, and the file is there afterwards, with what it held. *)
Lemma open_archive_run (archive_dir room_name : str) (ts : Z) (w : world) :
  archive_dir ≠ [] ->
  endswith archive_dir [slash] = false ->
  room_name ≠ [] ->
  slash ∉ room_name ->
  let path := path_join archive_dir (archive_path ts room_name) in
  let dirname := archive_dirname archive_dir room_name ts in
  abspath dirname = dirname ->
  fs w !! path ≠ Some Dir ->
  exists mk w',
    open_archive archive_dir ts room_name w = Some (Ok (PyFile path [] false), w')
    /\ rng w' = rng w /\ rng_pos w' = rng_pos w /\ queue w' = queue w
    /\ trace w' = trace w ++ map OpMkdir mk ++ [OpOpenAppend path]
    /\ Forall (fun d => d `prefix_of` dirname) mk
    /\ fs w' !! path = Some (File (content_of (fs w) path))
    /\ (forall p, p ≠ path -> is_Some (fs w !! p) -> fs w' !! p = fs w !! p)
    /\ (forall p, p ≠ path -> fs w !! p = None ->
          fs w' !! p = None \/ fs w' !! p = Some Dir /\ p ∈ mk).
Proof.
  intros Hdir0 Hdir Hne Hs path dirname Habs Hnodir.
  destruct (archive_path_split archive_dir room_name ts Hdir0 Hdir Hne Hs)
    as (Hpath & _ & Hsplit & _).
  fold path dirname in Hpath, Hsplit.
  destruct (ensure_dir_run dirname w) as (mk & w1 & Hrun & Hmade & Hmk).
  rewrite Habs in Hrun, Hmk.
  destruct Hmade as (Hr1 & Hp1 & Hq1 & Ht1 & Hk1 & Hn1).
  assert (path ∉ mk) as Hnotmk.
  { intros Hin. rewrite Forall_forall in Hmk. apply Hmk, prefix_length in Hin.
    rewrite Hpath, length_app in Hin. cbn [length] in Hin. lia. }
  assert (fs w1 !! path = fs w !! path) as Hsame.
  { destruct (fs w !! path) eqn:E; [rewrite <- E; apply Hk1; by rewrite E|].
    destruct (Hn1 path E) as [?|[_ ?]]; done. }
  set (old := content_of (fs w) path).
  assert (exists w2, open_append path w1 = Some (Ok (PyFile path [] false), w2)
            /\ fs w2 = <[path := File old]> (fs w1)
            /\ trace w2 = trace w1 ++ [OpOpenAppend path]
            /\ queue w2 = queue w1 /\ rng w2 = rng w1 /\ rng_pos w2 = rng_pos w1)
    as (w2 & Hopen & Hfs2 & Ht2 & Hq2 & Hr2 & Hp2).
  { unfold open_append, old, content_of. rewrite Hsame.
    destruct (fs w !! path) as [[c|]|] eqn:E; [|done|].
    - eexists. split; [reflexivity|]. cbn [fs trace queue rng rng_pos add_trace].
      split; [|done]. by rewrite insert_id.
    - eexists. split; [reflexivity|]. done. }
  exists mk, w2. split.
  { unfold open_archive. fold path. rewrite Hsplit. cbn [fst].
    erewrite bind_Ok; [|exact Hrun]. exact Hopen. }
  split; [congruence|]. split; [congruence|]. split; [congruence|]. split.
  { by rewrite Ht2, Ht1, <- app_assoc. }
  split; [done|]. split; [rewrite Hfs2; apply lookup_insert_eq|]. split.
  - intros p Hp Hsome. rewrite Hfs2, lookup_insert_ne by done. by apply Hk1.
  - intros p Hp Hnone. rewrite Hfs2, lookup_insert_ne by done. by apply Hn1.
Qed.

(** A record that finds no file open is the opening, its log entry,
    and then the record on the open file. *)
Lemma collect_round_idle_record (fuel : nat) (archive_dir room_name : str) (ts : Z)
    (fields : list (str * list str)) (w : world) :
  _collect_round fuel archive_dir room_name None (Record_ ts fields) w
  = match open_archive archive_dir ts room_name w with
    | Some (Ok a, w1) =>
        _collect_round fuel archive_dir room_name (Some a) (Record_ ts fields)
          (add_trace (OpLogInfo (MsgOpened (name a))) w1)
    | Some (Raise e, w1) => Some (Raise e, w1)
    | None => None
    end.
Proof.
  cbn [_collect_round]. unfold bind at 1 2 4. unfold bind at 2.
  by destruct (open_archive archive_dir ts room_name w) as [[[a|e] w1]|].
Qed.

(** X12: a record that finds no file open, on a disk where no regular
    file stands in the way of the directories, opens the archive file
    of its time, [<archive_dir>/<room>/<year>/<month>/<day>.json]:
    the directories on the way that are missing are made first, the
    file is opened for appending (created empty when it is not there),
    the opening is logged, and the line of the record is appended to
    what the file held and handed to the system. The collector then
    has that file open with nothing pending. No other existing path
    changes, what is new besides the file is a directory above it, and
    nothing is put in the queue. *)
Theorem first_record_opens_archive (fuel : nat) (archive_dir room_name : str) (ts : Z)
    (fields : list (str * list str)) (w : world) :
  archive_dir ≠ [] ->
  endswith archive_dir [slash] = false ->
  room_name ≠ [] ->
  slash ∉ room_name ->
  let path := path_join archive_dir (archive_path ts room_name) in
  let dirname := archive_dirname archive_dir room_name ts in
  abspath dirname = dirname ->
  fs w !! path ≠ Some Dir ->
  (forall p, is_file (fs w) p = true -> ~ (p ++ [slash]) `prefix_of` path) ->
  exists mk w',
    _collect_round fuel archive_dir room_name None (Record_ ts fields) w
    = Some (Ok (Some (PyFile path [] false)), w')
    /\ path = dirname ++ slash :: archive_filename ts
    /\ trace w' = trace w ++ map OpMkdir mk
                    ++ [OpOpenAppend path; OpLogInfo (MsgOpened path);
                        OpWrite path (record_line fields)]
    /\ Forall (fun d => d `prefix_of` dirname) mk
    /\ fs w' !! path = Some (File (content_of (fs w) path ++ record_line fields))
    /\ (forall p, p ≠ path -> is_Some (fs w !! p) -> fs w' !! p = fs w !! p)
    /\ (forall p, p ≠ path -> fs w !! p = None ->
          fs w' !! p = None \/ fs w' !! p = Some Dir /\ p ∈ mk)
    /\ queue w' = queue w.
Proof.
  intros Hdir0 Hdir Hne Hs path dirname Habs Hnodir _.
  destruct (archive_path_split archive_dir room_name ts Hdir0 Hdir Hne Hs) as (Hpath & _).
  fold path dirname in Hpath.
  destruct (open_archive_run archive_dir room_name ts w Hdir0 Hdir Hne Hs Habs Hnodir)
    as (mk & w1 & Hopen & _ & _ & Hq1 & Ht1 & Hmk & Hfile & Hkeep & Hnew).
  fold path dirname in Hopen, Ht1, Hmk, Hfile, Hkeep, Hnew.
  exists mk. eexists. split.
  { rewrite collect_round_idle_record, Hopen. cbn [name].
    by apply (collect_record_run fuel _ _ (PyFile path [] false) (content_of (fs w) path)). }
  cbn [fs trace queue name pending add_trace app].
  split; [done|]. split.
  { rewrite Ht1. by repeat (rewrite <- app_assoc || rewrite <- app_comm_cons). }
  split; [done|]. split; [apply lookup_insert_eq|]. split.
  { intros p Hp Hsome. rewrite lookup_insert_ne by done. by apply Hkeep. }
  split; [|done].
  intros p Hp Hnone. rewrite lookup_insert_ne by done. by apply Hnew.
Qed.
End FirstRecord.

Lemma first_record_opens_archive_witness :
  exists mk w',
    _collect_round (H := toy_externals) 1 (b "/var/archive") (b "room") None
      (Record_ 0 [(b "k", [b "v"])]) disk0
    = Some (Ok (Some (PyFile (b "/var/archive/room/2015/01/31.json") [] false)), w')
    /\ b "/var/archive/room/2015/01/31.json"
       = archive_dirname (H := toy_externals) (b "/var/archive") (b "room") 0
           ++ slash :: archive_filename (H := toy_externals) 0
    /\ trace w' = trace disk0 ++ map OpMkdir mk
                    ++ [OpOpenAppend (b "/var/archive/room/2015/01/31.json");
                        OpLogInfo (MsgOpened (b "/var/archive/room/2015/01/31.json"));
                        OpWrite (b "/var/archive/room/2015/01/31.json")
                          (record_line (H := toy_externals) [(b "k", [b "v"])])]
    /\ Forall (fun d => d `prefix_of`
                          archive_dirname (H := toy_externals) (b "/var/archive") (b "room") 0)
         mk
    /\ fs w' !! b "/var/archive/room/2015/01/31.json"
       = Some (File (content_of (fs disk0) (b "/var/archive/room/2015/01/31.json")
                     ++ record_line (H := toy_externals) [(b "k", [b "v"])]))
    /\ (forall p, p ≠ b "/var/archive/room/2015/01/31.json" ->
          is_Some (fs disk0 !! p) -> fs w' !! p = fs disk0 !! p)
    /\ (forall p, p ≠ b "/var/archive/room/2015/01/31.json" -> fs disk0 !! p = None ->
          fs w' !! p = None \/ fs w' !! p = Some Dir /\ p ∈ mk)
    /\ queue w' = queue disk0.
Proof.
  apply (first_record_opens_archive (H := toy_externals) 1 (b "/var/archive") (b "room") 0
           [(b "k", [b "v"])] disk0).
  - done.
  - reflexivity.
  - done.
  - apply (bool_decide_unpack _). by vm_compute.
  - reflexivity.
  - by vm_compute.
  - intros p Hp. exfalso. unfold is_file, disk0, world0, set_fs in Hp. cbn [fs] in Hp.
    destruct (decide (b "/var/archive" = p)) as [<-|Hne];
      [by rewrite lookup_insert_eq in Hp|by rewrite lookup_insert_ne, lookup_empty in Hp].
Defined.

(** ** Records across a rotation *)

Section AcrossRotation.
Context `{Externals}.

(** Records on an open file, and what follows them. *)
Lemma collect_records_then (fuel : nat) (archive_dir room_name : str) (a : pyfile)
    (content : str) (rs : list (Z * list (str * list str))) (w : world) :
  closed a = false ->
  pending a = [] ->
  fs w !! name a = Some (File content) ->
  exists w',
    (forall rest,
       _collect fuel archive_dir room_name (Some a) (record_items rs ++ rest) w
       = _collect fuel archive_dir room_name (Some (PyFile (name a) [] false)) rest w')
    /\ fs w' = <[name a := File (content ++ record_lines rs)]> (fs w)
    /\ rng w' = rng w /\ rng_pos w' = rng_pos w /\ queue w' = queue w.
Proof.
  revert a content w. induction rs as [|r rs IH]; intros a content w Hopen Hpend Hfile.
  - exists w. split.
    + intros rest. destruct a as [n p c]. cbn [closed pending name] in *. by subst.
    + unfold record_lines. cbn [map concat]. by rewrite app_nil_r, insert_id.
  - pose proof (collect_record_run fuel archive_dir room_name a content r.1 r.2 w Hopen Hfile)
      as Hround.
    rewrite Hpend in Hround. cbn [app] in Hround.
    match type of Hround with _ = Some (_, ?W) => set (w1 := W) in * end.
    destruct (IH (PyFile (name a) [] false) (content ++ record_line r.2) w1)
      as (w' & Hrun & Hfs & Hr & Hp & Hq); [done|done|apply lookup_insert_eq|].
    exists w'. split.
    + intros rest. change (record_items (r :: rs) ++ rest)
        with (Record_ r.1 r.2 :: record_items rs ++ rest).
      cbn [_collect]. rewrite Hround. apply Hrun.
    + cbn [name fs w1] in Hfs. rewrite insert_insert_eq in Hfs.
      unfold record_lines. cbn [map concat]. rewrite app_assoc. done.
Qed.

(** The end of the stream with a file open. *)
Lemma collect_end (fuel : nat) (archive_dir room_name : str) (a : pyfile) (content : str)
    (w : world) :
  closed a = false ->
  pending a = [] ->
  fs w !! name a = Some (File content) ->
  exists w',
    _collect fuel archive_dir room_name (Some a) [] w = Some (Ok tt, w')
    /\ fs w' = fs w /\ queue w' = queue w.
Proof.
  intros Hopen Hpend Hfile. eexists. split.
  - cbn [_collect _collect_finally]. rewrite (flush_close_then a content w) by done.
    reflexivity.
  - cbn [fs queue add_trace]. by rewrite Hpend, app_nil_r, insert_id.
Qed.

(** The rotation when the name drawn first is free. *)
Lemma rotation_run (fuel : nat) (archive_dir room_name : str) (a : pyfile) (content : str)
    (w : world) :
  closed a = false ->
  fs w !! name a = Some (File content) ->
  fs w !! tagged (name a) (rng w (rng_pos w)) = None ->
  exists w',
    _collect_round (S fuel) archive_dir room_name (Some a) RotateEvent w = Some (Ok None, w')
    /\ fs w' = <[tagged (name a) (rng w (rng_pos w)) := File (content ++ pending a)]>
                 (delete (name a) (fs w))
    /\ queue w' = queue w ++ [(0%Q, tagged (name a) (rng w (rng_pos w)))].
Proof.
  intros Hopen Hfile Hfree.
  set (new_path := tagged (name a) (rng w (rng_pos w))) in *.
  set (w1 := {| fs := <[name a := File (content ++ pending a)]> (fs w);
                rng := rng w; rng_pos := rng_pos w; queue := queue w;
                trace := trace w ++ OpFlush (name a) :: flushed_write a ++ [OpClose (name a)] |}).
  assert (new_path ≠ name a) as Hne by (intros Heq; congruence).
  destruct (create_loop_returns (S fuel) (fst (path_split (name a)))
              (snd (path_split (name a))) w1 0) as (j & Hj & _ & Hrun); [lia| |].
  { cbn [fs rng rng_pos w1]. rewrite Nat.add_0_r. fold (tagged (name a) (rng w (rng_pos w))).
    fold new_path. unfold is_file. by rewrite lookup_insert_ne, Hfree. }
  assert (j = 0%nat) as -> by lia.
  cbn [fs rng rng_pos w1] in Hrun. rewrite Nat.add_0_r in Hrun.
  fold (tagged (name a) (rng w (rng_pos w))) in Hrun. fold new_path in Hrun.
  eexists. split.
  - cbn [_collect_round]. rewrite (flush_close_then a content w) by done.
    fold w1. cbn [name].
    erewrite bind_Ok.
    2:{ unfold _rename. erewrite bind_Ok.
        2:{ unfold _create_compress_path.
            destruct (path_split (name a)) as [head tail]. exact Hrun. }
        erewrite bind_Ok; [reflexivity|].
        unfold os_rename. cbn [fs set_rng_pos w1].
        rewrite lookup_insert_eq, lookup_insert_ne by done. rewrite Hfree. reflexivity. }
    erewrite bind_Ok; [|reflexivity]. reflexivity.
  - unfold queue_put, add_trace, set_queue, set_fs, set_rng_pos.
    cbn [fs rng rng_pos queue trace w1]. by rewrite delete_insert_eq.
Qed.
End AcrossRotation.

Section SurviveRotation.
Context `{Externals}.

Lemma first_record_run (fuel : nat) (archive_dir room_name : str) (ts : Z)
    (fields : list (str * list str)) (w : world) :
  archive_dir ≠ [] ->
  endswith archive_dir [slash] = false ->
  room_name ≠ [] ->
  slash ∉ room_name ->
  let path := path_join archive_dir (archive_path ts room_name) in
  let dirname := archive_dirname archive_dir room_name ts in
  abspath dirname = dirname ->
  fs w !! path ≠ Some Dir ->
  exists mk w',
    _collect_round fuel archive_dir room_name None (Record_ ts fields) w
    = Some (Ok (Some (PyFile path [] false)), w')
    /\ rng w' = rng w /\ rng_pos w' = rng_pos w /\ queue w' = queue w
    /\ Forall (fun d => d `prefix_of` dirname) mk
    /\ fs w' !! path = Some (File (content_of (fs w) path ++ record_line fields))
    /\ (forall p, p ≠ path -> is_Some (fs w !! p) -> fs w' !! p = fs w !! p)
    /\ (forall p, p ≠ path -> fs w !! p = None ->
          fs w' !! p = None \/ fs w' !! p = Some Dir /\ p ∈ mk).
Proof.
  intros Hdir0 Hdir Hne Hs path dirname Habs Hnodir.
  destruct (open_archive_run archive_dir room_name ts w Hdir0 Hdir Hne Hs Habs Hnodir)
    as (mk & w1 & Hopen & Hr1 & Hp1 & Hq1 & _ & Hmk & Hfile & Hkeep & Hnew).
  fold path dirname in Hopen, Hmk, Hfile, Hkeep, Hnew.
  exists mk. eexists. split.
  { rewrite collect_round_idle_record, Hopen. cbn [name].
    by apply (collect_record_run fuel _ _ (PyFile path [] false) (content_of (fs w) path)). }
  cbn [fs rng rng_pos queue name pending add_trace app].
  split; [done|]. split; [done|]. split; [done|]. split; [done|].
  split; [apply lookup_insert_eq|]. split.
  - intros p Hp Hsome. rewrite lookup_insert_ne by done. by apply Hkeep.
  - intros p Hp Hnone. rewrite lookup_insert_ne by done. by apply Hnew.
Qed.

(** No archive file is named like a directory on the way to one. *)
Lemma archive_path_no_prefix (archive_dir room_name : str) (ts ts' : Z) (rest : str) :
  archive_dir ≠ [] ->
  endswith archive_dir [slash] = false ->
  room_name ≠ [] ->
  slash ∉ room_name ->
  ~ (path_join archive_dir (archive_path ts room_name) ++ rest)
      `prefix_of` archive_dirname archive_dir room_name ts'.
Proof.
  intros Hdir0 Hdir Hne Hs [k Hk].
  destruct (archive_path_split archive_dir room_name ts Hdir0 Hdir Hne Hs) as (Hpath & _).
  rewrite Hpath in Hk. unfold archive_dirname, archive_filename in Hk.
  repeat (rewrite <- app_assoc in Hk || rewrite <- app_comm_cons in Hk).
  apply app_inv_head in Hk. injection Hk as Hk. apply app_inv_head in Hk. injection Hk as Hk.
  destruct (date_fields ts') as ((_ & Hy) & (_ & Hm) & _).
  assert (dot ∈ year_field ts' ++ slash :: month_field ts') as Hin.
  { rewrite Hk. apply elem_of_app. right. apply elem_of_cons. right.
    apply elem_of_app. right. apply elem_of_cons. right.
    apply elem_of_app. right. apply list_elem_of_here. }
  apply elem_of_app in Hin as [Hin | Hin]; [revert Hin; apply decimal_no; auto|].
  apply elem_of_cons in Hin as [Hin | Hin]; [done|].
  revert Hin. apply decimal_no; auto.
Qed.
End SurviveRotation.

Section RecordsSurvive.
Context `{Externals}.

(** X13: a collector that starts with no file open and receives
    records, then the rotate event, then more records, and then ends:
    the records before the rotation are all in the rotated file, after
    what the archive file of the first record held, in the order of
    arrival; the records after it are in the archive file of the first
    of them, which starts empty when it has the name that was just
    rotated away; the rotated file is a rotated path and is the one
    entry added to the queue. No record is lost and none is in both
    files. *)
Theorem records_survive_rotation (fuel : nat) (archive_dir room_name : str)
    (ts1 : Z) (fields1 : list (str * list str)) (rs1 : list (Z * list (str * list str)))
    (ts2 : Z) (fields2 : list (str * list str)) (rs2 : list (Z * list (str * list str)))
    (w : world) :
  archive_dir ≠ [] ->
  endswith archive_dir [slash] = false ->
  room_name ≠ [] ->
  slash ∉ room_name ->
  let path1 := path_join archive_dir (archive_path ts1 room_name) in
  let path2 := path_join archive_dir (archive_path ts2 room_name) in
  let rotated := tagged path1 (rng w (rng_pos w)) in
  abspath (archive_dirname archive_dir room_name ts1)
    = archive_dirname archive_dir room_name ts1 ->
  abspath (archive_dirname archive_dir room_name ts2)
    = archive_dirname archive_dir room_name ts2 ->
  fs w !! path1 ≠ Some Dir ->
  fs w !! path2 ≠ Some Dir ->
  fs w !! rotated = None ->
  (forall p, is_file (fs w) p = true ->
     ~ (p ++ [slash]) `prefix_of` path1 /\ ~ (p ++ [slash]) `prefix_of` path2) ->
  exists w',
    _collect (S fuel) archive_dir room_name None
      (record_items ((ts1, fields1) :: rs1)
         ++ RotateEvent :: record_items ((ts2, fields2) :: rs2)) w
    = Some (Ok tt, w')
    /\ fs w' !! rotated
       = Some (File (content_of (fs w) path1 ++ record_lines ((ts1, fields1) :: rs1)))
    /\ fs w' !! path2
       = Some (File ((if bool_decide (path2 = path1) then [] else content_of (fs w) path2)
                     ++ record_lines ((ts2, fields2) :: rs2)))
    /\ (path2 ≠ path1 -> fs w' !! path1 = None)
    /\ queue w' = queue w ++ [(0%Q, rotated)]
    /\ _is_compress_path rotated = true
    /\ _is_compress_path path2 = false.
Proof.
  intros Hdir0 Hdir Hne Hs path1 path2 rotated Habs1 Habs2 Hnd1 Hnd2 Hfree _.
  destruct (archive_path_split archive_dir room_name ts1 Hdir0 Hdir Hne Hs)
    as (_ & Hjoin1 & Hsplit1 & _).
  destruct (archive_path_split archive_dir room_name ts2 Hdir0 Hdir Hne Hs)
    as (_ & Hjoin2 & _ & _).
  fold path1 in Hjoin1, Hsplit1. fold path2 in Hjoin2.
  assert (_is_compress_path path1 = false) as Hrot1
    by (rewrite Hjoin1; apply json_not_rotated).
  assert (_is_compress_path path2 = false) as Hrot2
    by (rewrite Hjoin2; apply json_not_rotated).
  assert (forall raw, _is_compress_path (tagged path1 raw) = true) as Hrot.
  { intros raw. unfold _is_compress_path. rewrite tagged_split; [by destruct (path_split path1)|].
    rewrite Hsplit1. apply archive_filename_plain. }
  assert (forall raw ts',
            ~ tagged path1 raw `prefix_of` archive_dirname archive_dir room_name ts')
    as Hnopre.
  { intros raw ts'. unfold tagged. rewrite Hsplit1. cbn [fst snd].
    destruct (archive_path_split archive_dir room_name ts1 Hdir0 Hdir Hne Hs)
      as (Hpath1 & _ & _ & Hdn).
    rewrite path_join_plain; [|done|].
    - replace (archive_dirname archive_dir room_name ts1
               ++ slash :: archive_filename ts1 ++ b ".compress-"
               ++ format_08x (raw mod 2 ^ 32))
        with (path1 ++ b ".compress-" ++ format_08x (raw mod 2 ^ 32)).
      + by apply archive_path_no_prefix.
      + unfold path1. rewrite Hpath1.
        by repeat (rewrite <- app_assoc || rewrite <- app_comm_cons).
    - apply startswith_no_slash, tag_no_slash; [apply archive_filename_plain|].
      apply format_08x_hex. }
  assert (forall ts', ~ path1 `prefix_of` archive_dirname archive_dir room_name ts') as Hnopre1.
  { intros ts'. rewrite <- (app_nil_r path1). by apply archive_path_no_prefix. }
  assert (forall ts', ~ path2 `prefix_of` archive_dirname archive_dir room_name ts') as Hnopre2.
  { intros ts'. rewrite <- (app_nil_r path2). by apply archive_path_no_prefix. }
  assert (rotated ≠ path1) as Hne1 by (intros Heq; specialize (Hrot (rng w (rng_pos w)));
                                       fold rotated in Hrot; congruence).
  assert (rotated ≠ path2) as Hne2 by (intros Heq; specialize (Hrot (rng w (rng_pos w)));
                                       fold rotated in Hrot; congruence).
  (* the first record opens the file *)
  destruct (first_record_run (S fuel) archive_dir room_name ts1 fields1 w
              Hdir0 Hdir Hne Hs Habs1 Hnd1)
    as (mk1 & w1 & Hr1 & Hrng1 & Hpos1 & Hq1 & Hmk1 & Hf1 & Hkeep1 & Hnew1).
  fold path1 in Hr1, Hf1, Hkeep1, Hnew1.
  (* the records before the rotation *)
  destruct (collect_records_then (S fuel) archive_dir room_name (PyFile path1 [] false)
              _ rs1 w1 eq_refl eq_refl Hf1)
    as (w2 & Hr2 & Hfs2 & Hrng2 & Hpos2 & Hq2).
  cbn [name] in Hr2, Hfs2.
  set (c1 := (content_of (fs w) path1 ++ record_line fields1) ++ record_lines rs1) in *.
  (* the rotation *)
  assert (fs w1 !! rotated = None) as Hfree1.
  { destruct (Hnew1 rotated Hne1 Hfree) as [?|[_ Hin]]; [done|exfalso].
    rewrite Forall_forall in Hmk1. apply Hmk1 in Hin. revert Hin. apply Hnopre. }
  assert (tagged path1 (rng w2 (rng_pos w2)) = rotated) as Htag
    by (by rewrite Hrng2, Hpos2, Hrng1, Hpos1).
  destruct (rotation_run fuel archive_dir room_name (PyFile path1 [] false) c1 w2)
    as (w3 & Hr3 & Hfs3 & Hq3); [done|by rewrite Hfs2, lookup_insert_eq| |].
  { cbn [name]. by rewrite Htag, Hfs2, lookup_insert_ne. }
  cbn [name pending] in Hr3, Hfs3, Hq3. rewrite Htag, app_nil_r in Hfs3. rewrite Htag in Hq3.
  rewrite Hfs2, delete_insert_eq in Hfs3.
  (* the first record after the rotation *)
  assert (fs w1 !! path2 ≠ Some Dir) as Hnd2'.
  { destruct (decide (path2 = path1)) as [->|Hne21]; [by rewrite Hf1|].
    destruct (fs w !! path2) as [nd|] eqn:E2.
    - rewrite Hkeep1, E2; [done|done|by rewrite E2].
    - destruct (Hnew1 path2 Hne21 E2) as [->|[_ Hin]]; [done|exfalso].
      rewrite Forall_forall in Hmk1. apply Hmk1 in Hin. revert Hin. apply Hnopre2. }
  assert (content_of (fs w3) path2
          = if bool_decide (path2 = path1) then [] else content_of (fs w) path2) as Hold2.
  { unfold content_of. rewrite Hfs3, lookup_insert_ne by done.
    case_bool_decide as Heq; [by rewrite Heq, lookup_delete_eq|].
    rewrite lookup_delete_ne by done.
    destruct (fs w !! path2) as [nd|] eqn:E2.
    - rewrite Hkeep1, E2; [done|done|by rewrite E2].
    - destruct (Hnew1 path2 Heq E2) as [->|[Hd _]]; [done|by rewrite Hd]. }
  destruct (first_record_run (S fuel) archive_dir room_name ts2 fields2 w3
              Hdir0 Hdir Hne Hs Habs2)
    as (mk2 & w4 & Hr4 & _ & _ & Hq4 & Hmk2 & Hf4 & Hkeep4 & Hnew4).
  { fold path2. rewrite Hfs3, lookup_insert_ne by done.
    destruct (decide (path2 = path1)) as [->|Hne21]; [by rewrite lookup_delete_eq|].
    by rewrite lookup_delete_ne. }
  fold path2 in Hr4, Hf4, Hkeep4, Hnew4. rewrite Hold2 in Hf4.
  (* the records after the rotation, and the end *)
  destruct (collect_records_then (S fuel) archive_dir room_name (PyFile path2 [] false)
              _ rs2 w4 eq_refl eq_refl Hf4)
    as (w5 & Hr5 & Hfs5 & _ & _ & Hq5).
  cbn [name] in Hr5, Hfs5.
  set (c2 := ((if bool_decide (path2 = path1) then [] else content_of (fs w) path2)
              ++ record_line fields2) ++ record_lines rs2) in *.
  destruct (collect_end (S fuel) archive_dir room_name (PyFile path2 [] false) c2 w5
              eq_refl eq_refl)
    as (w6 & Hr6 & Hfs6 & Hq6); [rewrite Hfs5; apply lookup_insert_eq|].
  exists w6. split.
  { change (record_items ((ts1, fields1) :: rs1)
              ++ RotateEvent :: record_items ((ts2, fields2) :: rs2))
      with (Record_ ts1 fields1
              :: (record_items rs1
                    ++ RotateEvent :: Record_ ts2 fields2 :: record_items rs2)).
    cbn [_collect]. rewrite Hr1, Hr2. cbn [_collect]. rewrite Hr3. cbn [_collect].
    rewrite Hr4. rewrite <- (app_nil_r (record_items rs2)), Hr5. exact Hr6. }
  rewrite Hfs6, Hfs5.
  split.
  { rewrite lookup_insert_ne by done. rewrite Hkeep4; [|done|].
    - rewrite Hfs3, lookup_insert_eq. unfold c1, record_lines. cbn [map concat snd].
      by rewrite <- app_assoc.
    - by rewrite Hfs3, lookup_insert_eq. }
  split.
  { rewrite lookup_insert_eq. unfold c2, record_lines. cbn [map concat snd].
    by rewrite <- !app_assoc. }
  split.
  { intros Hne21. rewrite lookup_insert_ne by done.
    assert (fs w3 !! path1 = None) as Hgone
      by (by rewrite Hfs3, lookup_insert_ne, lookup_delete_eq).
    destruct (Hnew4 path1 (not_eq_sym Hne21) Hgone) as [?|[_ Hin]]; [done|exfalso].
    rewrite Forall_forall in Hmk2. apply Hmk2 in Hin. revert Hin. apply Hnopre1. }
  split; [by rewrite Hq6, Hq5, Hq4, Hq3, Hq2, Hq1|].
  split; [apply Hrot|done].
Qed.
End RecordsSurvive.

Lemma records_survive_rotation_witness :
  exists w',
    _collect (H := january_externals) 1 (b "/var/archive") (b "room") None two_days disk0
    = Some (Ok tt, w')
    /\ fs w' !! b "/var/archive/room/2015/01/01.json.compress-0000002a"
       = Some (File (content_of (fs disk0) (b "/var/archive/room/2015/01/01.json")
                     ++ record_lines (H := january_externals)
                          [(0, [(b "k", [b "v"])]); (10, [(b "l", [])])]))
    /\ fs w' !! b "/var/archive/room/2015/01/02.json"
       = Some (File ((if bool_decide (b "/var/archive/room/2015/01/02.json"
                                      = b "/var/archive/room/2015/01/01.json")
                      then [] else content_of (fs disk0) (b "/var/archive/room/2015/01/02.json"))
                     ++ record_lines (H := january_externals) [(86400, [(b "m", [])])]))
    /\ (b "/var/archive/room/2015/01/02.json" ≠ b "/var/archive/room/2015/01/01.json" ->
        fs w' !! b "/var/archive/room/2015/01/01.json" = None)
    /\ queue w'
       = queue disk0 ++ [(0%Q, b "/var/archive/room/2015/01/01.json.compress-0000002a")]
    /\ _is_compress_path (b "/var/archive/room/2015/01/01.json.compress-0000002a") = true
    /\ _is_compress_path (b "/var/archive/room/2015/01/02.json") = false.
Proof.
  apply (records_survive_rotation (H := january_externals) 0 (b "/var/archive") (b "room")
           0 [(b "k", [b "v"])] [(10, [(b "l", [])])] 86400 [(b "m", [])] [] disk0).
  - done.
  - reflexivity.
  - done.
  - apply (bool_decide_unpack _). by vm_compute.
  - reflexivity.
  - reflexivity.
  - by vm_compute.
  - by vm_compute.
  - reflexivity.
  - intros p Hp. exfalso. unfold is_file, disk0, world0, set_fs in Hp. cbn [fs] in Hp.
    destruct (decide (b "/var/archive" = p)) as [<-|Hne];
      [by rewrite lookup_insert_eq in Hp|by rewrite lookup_insert_ne, lookup_empty in Hp].
Defined.

Example records_survive_rotation_example :
  (fun r => (fs (snd r) !! b "/var/archive/room/2015/01/01.json.compress-0000002a",
             fs (snd r) !! b "/var/archive/room/2015/01/02.json",
             fs (snd r) !! b "/var/archive/room/2015/01/01.json",
             queue (snd r)))
    <$> _collect (H := january_externals) 1 (b "/var/archive") (b "room") None two_days disk0
  = Some (Some (File (b "k" ++ newline :: b "l" ++ [newline])),
          Some (File (b "m" ++ [newline])),
          None,
          [(0%Q, b "/var/archive/room/2015/01/01.json.compress-0000002a")]).
Proof. vm_compute. reflexivity. Qed.

(** ** After a crash *)

Lemma filter_filter_same {A} (f : A -> bool) (l : list A) :
  List.filter f (List.filter f l) = List.filter f l.
Proof.
  induction l as [|x l IH]; [done|]. cbn [List.filter].
  destruct (f x) eqn:E; [|done]. cbn [List.filter]. by rewrite E, IH.
Qed.

Lemma filter_filter_negb {A} (f : A -> bool) (l : list A) :
  List.filter (fun x => negb (f x)) (List.filter f l) = [].
Proof.
  induction l as [|x l IH]; [done|]. cbn [List.filter].
  destruct (f x) eqn:E; [|done]. cbn [List.filter]. by rewrite E.
Qed.

Lemma invalid_paths_queued (paths : list str) : invalid_paths (map (OpQueue 0) paths) = [].
Proof. induction paths as [|p paths IH]; [done|exact IH]. Qed.

Lemma compressed_paths_queued (paths : list str) :
  compressed_paths (map (OpQueue 0) paths) = [].
Proof. induction paths as [|p paths IH]; [done|exact IH]. Qed.

Section StartupRecovery.
Context `{Externals} `{JIDLib}.

Lemma archive_run (archive_dir : str) (room_bare_jid : jid_arg) (listing : option dirtree)
    (room_name : str) (w : world) :
  _encode_room_jid room_bare_jid = Ok room_name ->
  path_join archive_dir room_name = normpath (path_join archive_dir room_name) ->
  exists w1,
    _archive archive_dir room_bare_jid listing w = Some (Ok room_name, w1)
    /\ fs w1 = fs w
    /\ queue w1
       = map (fun p => (0%Q, p)) (rotated_files (path_join archive_dir room_name) listing)
    /\ trace w1
       = trace w ++ map (OpQueue 0) (rotated_files (path_join archive_dir room_name) listing)
           ++ [OpSpawn CollectStream; OpSpawn CompressStream; OpSpawn RotateStream].
Proof.
  intros Hname Hnorm.
  set (_dir := path_join archive_dir room_name) in *.
  assert (walked_files (match listing with Some t => os_walk _dir t | None => [] end)
          = listed_files _dir listing) as Hwalk.
  { destruct listing as [t|]; [apply walked_files_tree|done]. }
  eexists. split.
  - unfold _archive. erewrite bind_Ok; [|reflexivity].
    erewrite bind_Ok; [|unfold lift; rewrite Hname; reflexivity].
    cbn beta zeta. fold _dir. rewrite bool_decide_eq_false_2 by (intros Hne; by apply Hne).
    erewrite bind_Ok; [|apply scan_walk_run].
    rewrite Hwalk.
    do 3 (erewrite bind_Ok; [|reflexivity]). reflexivity.
  - unfold add_trace, set_queue. cbn [fs rng rng_pos queue trace app].
    fold (rotated_files _dir listing).
    split; [done|]. split; [done|]. by rewrite <- !app_assoc.
Qed.

(** X14: the startup of a room followed by the worker on the queue it
    made: when the rotated files that the walk finds are regular
    files, each found once, every one of them is compressed to a new
    file and removed, in the order of the walk; the outputs hold what
    the compressor makes of the content of their source; every other
    file, active and compressed ones included, is as before; nothing
    is logged as invalid, and the queue is empty at the end. *)
Theorem startup_recovers_rotated_files (archive_dir : str) (room_bare_jid : jid_arg)
    (listing : option dirtree) (room_name : str) (rounds fuel : nat) (w : world) :
  _encode_room_jid room_bare_jid = Ok room_name ->
  path_join archive_dir room_name = normpath (path_join archive_dir room_name) ->
  let rotated := rotated_files (path_join archive_dir room_name) listing in
  NoDup rotated ->
  Forall (fun p => is_file (fs w) p = true) rotated ->
  (length rotated < rounds)%nat ->
  (S (size (fs w)) < fuel)%nat ->
  exists w1 w' outs,
    _archive archive_dir room_bare_jid listing w = Some (Ok room_name, w1)
    /\ _compress rounds fuel (fun _ => NoFault) w1 = Some (Ok tt, w')
    /\ queue w' = []
    /\ invalid_paths (trace w') = invalid_paths (trace w)
    /\ compressed_paths (trace w') = compressed_paths (trace w) ++ outs
    /\ Forall2 (fun p gz_path =>
                  exists content,
                    fs w !! p = Some (File content)
                    /\ fs w !! gz_path = None
                    /\ _is_compress_path gz_path = false
                    /\ fs w' !! gz_path = Some (File (gz_content content)))
         rotated outs
    /\ (forall p, p ∈ rotated -> fs w' !! p = None)
    /\ (forall p, is_Some (fs w !! p) -> p ∉ rotated -> fs w' !! p = fs w !! p).
Proof.
  intros Hname Hnorm rotated Hnd Hfiles Hrounds Hfuel.
  destruct (archive_run archive_dir room_bare_jid listing room_name w Hname Hnorm)
    as (w1 & Hrun1 & Hfs1 & Hq1 & Ht1).
  fold rotated in Hq1, Ht1.
  assert (map snd (queue w1) = rotated) as Hpaths.
  { rewrite Hq1, map_map. cbn [snd]. apply map_id. }
  assert (List.filter _is_compress_path rotated = rotated) as Hall
    by apply filter_filter_same.
  assert (List.filter (fun p => negb (_is_compress_path p)) rotated = []) as Hnone
    by apply filter_filter_negb.
  destruct (worker_drains_run rounds fuel w1)
    as (w' & outs & Hrun & Hq' & Hinv & Hcomp & Hpairs & Hgone & Hframe & _).
  { by rewrite Hpaths. }
  { by rewrite Hpaths, Hfs1. }
  { by rewrite Hq1, length_map. }
  { by rewrite Hfs1. }
  rewrite Hpaths in Hinv, Hpairs, Hgone, Hframe.
  rewrite Hall in Hpairs, Hgone, Hframe. rewrite Hnone, app_nil_r in Hinv.
  rewrite Hfs1 in Hpairs, Hframe.
  exists w1, w', outs.
  split; [done|]. split; [done|]. split; [done|]. split.
  { rewrite Hinv, Ht1, !invalid_paths_app, invalid_paths_queued. cbn. by rewrite app_nil_r. }
  split.
  { rewrite Hcomp, Ht1, !compressed_paths_app, compressed_paths_queued. cbn.
    by rewrite app_nil_r. }
  split; [|by split].
  eapply Forall2_impl; [exact Hpairs|]. cbn beta.
  intros p gz (content & ? & _ & ? & ? & ?). by exists content.
Qed.
End StartupRecovery.

Lemma startup_recovers_rotated_files_witness :
  let rotated := rotated_files (path_join (b "/var/archive") (b "lobby room@conference.example.com"))
                   (Some crashed_room) in
  exists w1 w' outs,
    _archive (H := toy_externals) (H0 := plain_jids) (b "/var/archive") bare_room
      (Some crashed_room) disk8
    = Some (Ok (b "lobby room@conference.example.com"), w1)
    /\ _compress (H := toy_externals) 4 7 (fun _ => NoFault) w1 = Some (Ok tt, w')
    /\ queue w' = []
    /\ invalid_paths (trace w') = invalid_paths (trace disk8)
    /\ compressed_paths (trace w') = compressed_paths (trace disk8) ++ outs
    /\ Forall2 (fun p gz_path =>
                  exists content,
                    fs disk8 !! p = Some (File content)
                    /\ fs disk8 !! gz_path = None
                    /\ _is_compress_path gz_path = false
                    /\ fs w' !! gz_path
                       = Some (File (gz_content (H := toy_externals) content)))
         rotated outs
    /\ (forall p, p ∈ rotated -> fs w' !! p = None)
    /\ (forall p, is_Some (fs disk8 !! p) -> p ∉ rotated -> fs w' !! p = fs disk8 !! p).
Proof.
  apply (startup_recovers_rotated_files (H := toy_externals) (H0 := plain_jids)
           (b "/var/archive") bare_room (Some crashed_room)
           (b "lobby room@conference.example.com") 4 7 disk8).
  - reflexivity.
  - reflexivity.
  - apply (bool_decide_unpack _). by vm_compute.
  - apply (bool_decide_unpack _). by vm_compute.
  - vm_compute. lia.
  - vm_compute. lia.
Defined.

Example startup_recovery_example :
  (fun r => compressed_paths (trace (snd r)))
    <$> (r1 <- _archive (H := toy_externals) (H0 := plain_jids) (b "/var/archive") bare_room
                 (Some crashed_room) ;;
         _compress (H := toy_externals) 4 7 (fun _ => NoFault)) disk8
  = Some [b "/var/archive/lobby room@conference.example.com/2015/01/29.json.gz";
          b "/var/archive/lobby room@conference.example.com/2015/01/30-00000001.json.gz";
          b "/var/archive/lobby room@conference.example.com/2014/12/31.json.gz"].
Proof. vm_compute. reflexivity. Qed.

(** ** Compressing again after a failure *)

Section Retry.
Context `{Externals}.

(** X15: a compression that breaks leaves its source and a partial
    output. A second compression of the same source does not touch
    that output: its exclusive creation fails on it, so it ends with a
    candidate that comes later in the order of the names; the new
    output holds the whole of the source, the partial one is as it
    was, and only then is the source removed. *)
Theorem compress_retry_after_failure (fuel fuel' : nat) (n : nat) (path content : str)
    (w : world) :
  fs w !! path = Some (File content) ->
  _is_compress_path path = true ->
  (S (size (fs w)) < fuel)%nat ->
  (S (S (size (fs w))) < fuel')%nat ->
  exists directory filename j1 j2 w1 w2,
    let candidate := unique_candidate directory (gz_prefix filename) (gz_suffix filename) in
    let partial := gz_write (take n (readlines content))
                     ++ gz_trailer (take n (readlines content)) in
    _split_compress_path path = Ok (directory, filename)
    /\ compress fuel (FailAfter n) path w
       = Some (Raise (IOError EIO (candidate (N.of_nat j1))), w1)
    /\ fs w1 !! path = Some (File content)
    /\ fs w1 !! candidate (N.of_nat j1) = Some (File partial)
    /\ compress fuel' NoFault path w1 = Some (Ok (candidate (N.of_nat j2)), w2)
    /\ (j1 < j2)%nat
    /\ candidate (N.of_nat j2) ≠ candidate (N.of_nat j1)
    /\ fs w2 !! candidate (N.of_nat j1) = Some (File partial)
    /\ fs w2 !! candidate (N.of_nat j2) = Some (File (gz_content content))
    /\ fs w2 !! path = None.
Proof.
  intros Hfile Hvalid Hfuel Hfuel'.
  destruct (is_compress_path_true _ Hvalid) as (directory & filename & Hsplit).
  set (candidate := unique_candidate directory (gz_prefix filename) (gz_suffix filename)).
  destruct (unique_candidate_free directory (gz_prefix filename) (gz_suffix filename) (fs w))
    as (k1 & Hk1 & Hfree1).
  destruct (compress_run fuel (FailAfter n) path content directory filename w k1 Hfile Hsplit)
    as (j1 & _ & Hbefore1 & Hnone1 & Hrun1); [lia|done|].
  cbn zeta in Hnone1, Hrun1. fold candidate in Hbefore1, Hnone1, Hrun1.
  cbn [written_lines] in Hrun1.
  match type of Hrun1 with _ = Some (_, ?W) => set (w1 := W) in * end.
  assert (candidate (N.of_nat j1) ≠ path) as Hne1 by (intros Heq; congruence).
  assert (fs w1 !! path = Some (File content)) as Hfile1.
  { cbn [fs w1]. by rewrite lookup_insert_ne. }
  assert (size (fs w1) = S (size (fs w))) as Hsize.
  { cbn [fs w1]. by rewrite map_size_insert_None. }
  destruct (unique_candidate_free directory (gz_prefix filename) (gz_suffix filename) (fs w1))
    as (k2 & Hk2 & Hfree2).
  destruct (compress_run fuel' NoFault path content directory filename w1 k2 Hfile1 Hsplit)
    as (j2 & _ & Hbefore2 & Hnone2 & Hrun2); [lia|done|].
  cbn zeta in Hnone2, Hrun2. fold candidate in Hbefore2, Hnone2, Hrun2.
  cbn [written_lines] in Hrun2. fold (gz_content content) in Hrun2.
  assert (candidate (N.of_nat j2) ≠ candidate (N.of_nat j1)) as Hne21.
  { intros Heq. rewrite Heq in Hnone2. cbn [fs w1] in Hnone2.
    by rewrite lookup_insert_eq in Hnone2. }
  assert (candidate (N.of_nat j2) ≠ path) as Hne2 by (intros Heq; congruence).
  assert (j1 < j2)%nat as Hlt.
  { destruct (decide (j1 < j2)%nat) as [?|Hge]; [done|exfalso].
    destruct (decide (j2 = j1)) as [->|Hne]; [done|].
    destruct (Hbefore1 j2) as [nd Hnd]; [lia|].
    cbn [fs w1] in Hnone2. rewrite lookup_insert_ne in Hnone2 by done. congruence. }
  exists directory, filename, j1, j2, w1. eexists. cbn zeta. fold candidate.
  split; [done|]. split; [exact Hrun1|]. split; [done|]. split.
  { cbn [fs w1]. apply lookup_insert_eq. }
  split; [exact Hrun2|]. split; [done|]. split; [done|]. cbn [fs].
  split.
  { rewrite lookup_delete_ne, lookup_insert_ne by done. cbn [fs w1]. apply lookup_insert_eq. }
  split.
  { rewrite lookup_delete_ne by (by intros ->). apply lookup_insert_eq. }
  apply lookup_delete_eq.
Qed.
End Retry.

Lemma compress_retry_after_failure_witness :
  exists directory filename j1 j2 w1 w2,
    let candidate := unique_candidate directory (gz_prefix filename) (gz_suffix filename) in
    let partial := gz_write (Externals := toy_externals) (take 1 (readlines two_lines))
                     ++ gz_trailer (Externals := toy_externals) (take 1 (readlines two_lines)) in
    _split_compress_path rotated_example = Ok (directory, filename)
    /\ compress (H := toy_externals) 3 (FailAfter 1) rotated_example disk1
       = Some (Raise (IOError EIO (candidate (N.of_nat j1))), w1)
    /\ fs w1 !! rotated_example = Some (File two_lines)
    /\ fs w1 !! candidate (N.of_nat j1) = Some (File partial)
    /\ compress (H := toy_externals) 4 NoFault rotated_example w1
       = Some (Ok (candidate (N.of_nat j2)), w2)
    /\ (j1 < j2)%nat
    /\ candidate (N.of_nat j2) ≠ candidate (N.of_nat j1)
    /\ fs w2 !! candidate (N.of_nat j1) = Some (File partial)
    /\ fs w2 !! candidate (N.of_nat j2)
       = Some (File (gz_content (H := toy_externals) two_lines))
    /\ fs w2 !! rotated_example = None.
Proof.
  apply (compress_retry_after_failure (H := toy_externals) 3 4 1 rotated_example two_lines disk1).
  - reflexivity.
  - reflexivity.
  - vm_compute. lia.
  - vm_compute. lia.
Defined.

(** ** The draw that names the rotated file *)

Lemma create_loop_step fuel head tail w :
  _create_compress_path_loop (S fuel) head tail w
  = if is_file (fs w) (path_join head
         (tail ++ b ".compress-" ++ format_08x (rng w (rng_pos w) mod 2 ^ 32)%N))
    then _create_compress_path_loop fuel head tail (set_rng_pos (S (rng_pos w)) w)
    else Some (Ok (path_join head
                     (tail ++ b ".compress-" ++ format_08x (rng w (rng_pos w) mod 2 ^ 32)%N)),
               set_rng_pos (S (rng_pos w)) w).
Proof.
  cbn [_create_compress_path_loop]. unfold bind at 1. unfold getrandbits at 1.
  unfold bind at 1. unfold os_path_isfile at 1. cbn [fs set_rng_pos rng rng_pos].
  fold (is_file (fs w)
    (path_join head (tail ++ b ".compress-" ++ format_08x (rng w (rng_pos w) mod 2 ^ 32)%N))).
  by destruct (is_file _ _).
Qed.

Lemma create_loop_exact fuel head tail w j :
  (forall i, (i < j)%nat ->
     is_file (fs w) (path_join head
       (tail ++ b ".compress-" ++ format_08x (rng w (rng_pos w + i)%nat mod 2 ^ 32)%N)) = true) ->
  is_file (fs w) (path_join head
    (tail ++ b ".compress-" ++ format_08x (rng w (rng_pos w + j)%nat mod 2 ^ 32)%N)) = false ->
  _create_compress_path_loop fuel head tail w
  = if bool_decide (j < fuel)%nat
    then Some (Ok (path_join head
                     (tail ++ b ".compress-"
                        ++ format_08x (rng w (rng_pos w + j)%nat mod 2 ^ 32)%N)),
               set_rng_pos (rng_pos w + S j) w)
    else None.
Proof.
  revert w j. induction fuel as [|fuel IH]; intros w j Htaken Hfree.
  { by rewrite bool_decide_eq_false_2 by lia. }
  rewrite create_loop_step. destruct j as [|j].
  - rewrite Nat.add_0_r in Hfree. rewrite Hfree, bool_decide_eq_true_2 by lia.
    rewrite Nat.add_0_r. do 3 f_equal. lia.
  - pose proof (Htaken 0%nat ltac:(lia)) as H0. rewrite Nat.add_0_r in H0. rewrite H0.
    rewrite (IH (set_rng_pos (S (rng_pos w)) w) j).
    + cbn [fs set_rng_pos rng rng_pos].
      replace (S (rng_pos w) + j)%nat with (rng_pos w + S j)%nat by lia.
      destruct (decide (j < fuel)%nat).
      * rewrite !bool_decide_eq_true_2 by lia. rewrite set_rng_pos_twice.
        by replace (S (rng_pos w) + S j)%nat with (rng_pos w + S (S j))%nat by lia.
      * by rewrite !bool_decide_eq_false_2 by lia.
    + intros i Hi. cbn [fs set_rng_pos rng rng_pos].
      replace (S (rng_pos w) + i)%nat with (rng_pos w + S i)%nat by lia.
      apply Htaken. lia.
    + cbn [fs set_rng_pos rng rng_pos].
      by replace (S (rng_pos w) + j)%nat with (rng_pos w + S j)%nat by lia.
Qed.

(** X16: [_create_compress_path] returns the name of the first draw
    that names no regular file, and not before: when the names of the
    first [j] draws are regular files and the next one is not, it
    returns that next name, having drawn [j + 1] numbers of 32 bits and
    changed nothing else; the loop does not end within [j] rounds.
    The name is the path with the tag after it, whether or not a
    directory has that name. *)
Theorem create_compress_path_first_free (fuel : nat) (path : str) (w : world) (j : nat) :
  (forall i, (i < j)%nat ->
     is_file (fs w) (tagged path (rng w (rng_pos w + i)%nat)) = true) ->
  is_file (fs w) (tagged path (rng w (rng_pos w + j)%nat)) = false ->
  ((j < fuel)%nat ->
   _create_compress_path fuel path w
   = Some (Ok (tagged path (rng w (rng_pos w + j)%nat)),
           {| fs := fs w; rng := rng w; rng_pos := (rng_pos w + S j)%nat;
              queue := queue w; trace := trace w |}))
  /\ ((fuel <= j)%nat -> _create_compress_path fuel path w = None)
  /\ length (format_08x (rng w (rng_pos w + j)%nat mod 2 ^ 32)) = 8%nat.
Proof.
  intros Htaken Hfree. unfold tagged in *. unfold _create_compress_path.
  destruct (path_split path) as [head tail]. cbn [fst snd] in *.
  rewrite (create_loop_exact fuel head tail w j Htaken Hfree).
  split; [|split].
  - intros Hj. by rewrite bool_decide_eq_true_2.
  - intros Hj. by rewrite bool_decide_eq_false_2 by lia.
  - apply format_08x_length. by apply N.mod_lt.
Qed.

Lemma create_compress_path_first_free_witness :
  _create_compress_path 3 active_example
    {| fs := fs (with_file (b "room/2015/01/31.json.compress-0000002a") [] disk2);
       rng := fun k => if (k =? 0)%nat then 42%N else 7%N;
       rng_pos := 0; queue := []; trace := [] |}
  = Some (Ok (b "room/2015/01/31.json.compress-00000007"),
          {| fs := fs (with_file (b "room/2015/01/31.json.compress-0000002a") [] disk2);
             rng := fun k => if (k =? 0)%nat then 42%N else 7%N;
             rng_pos := 2; queue := []; trace := [] |}).
Proof.
  apply (proj1 (create_compress_path_first_free 3 active_example
           {| fs := fs (with_file (b "room/2015/01/31.json.compress-0000002a") [] disk2);
              rng := fun k => if (k =? 0)%nat then 42%N else 7%N;
              rng_pos := 0; queue := []; trace := [] |} 1
           ltac:(intros i Hi; assert (i = 0%nat) as -> by lia; reflexivity)
           ltac:(reflexivity))).
  lia.
Defined.

(** ** A directory in the place of the archive file *)

Section OpenFails.
Context `{Externals}.

(** X17: when the path of the archive file is taken by a directory,
    the record that finds no file open makes the missing directories
    and then fails in [open]: the stream ends with [IOError] for that
    path, the [finally] clause has nothing to close, nothing is
    written or logged or queued, and the items that follow are not
    read. *)
Theorem first_record_on_directory (fuel : nat) (archive_dir room_name : str) (ts : Z)
    (fields : list (str * list str)) (rest : list item) (w : world) :
  archive_dir ≠ [] ->
  endswith archive_dir [slash] = false ->
  room_name ≠ [] ->
  slash ∉ room_name ->
  let path := path_join archive_dir (archive_path ts room_name) in
  let dirname := archive_dirname archive_dir room_name ts in
  abspath dirname = dirname ->
  fs w !! path = Some Dir ->
  exists mk w',
    _collect fuel archive_dir room_name None (Record_ ts fields :: rest) w
    = Some (Raise (IOError EISDIR path), w')
    /\ trace w' = trace w ++ map OpMkdir mk
    /\ Forall (fun d => d `prefix_of` dirname) mk
    /\ queue w' = queue w
    /\ (forall p, is_Some (fs w !! p) -> fs w' !! p = fs w !! p)
    /\ (forall p, fs w !! p = None -> fs w' !! p = None \/ fs w' !! p = Some Dir /\ p ∈ mk).
Proof.
  intros Hdir0 Hdir Hne Hs path dirname Habs Hisdir.
  destruct (archive_path_split archive_dir room_name ts Hdir0 Hdir Hne Hs)
    as (_ & _ & Hsplit & _).
  fold path dirname in Hsplit.
  destruct (ensure_dir_run dirname w) as (mk & w1 & Hrun & Hmade & Hmk).
  rewrite Habs in Hrun, Hmk.
  destruct Hmade as (_ & _ & Hq1 & Ht1 & Hk1 & Hn1).
  assert (fs w1 !! path = Some Dir) as Hisdir1.
  { rewrite Hk1; [done|by rewrite Hisdir]. }
  assert (open_archive archive_dir ts room_name w = Some (Raise (IOError EISDIR path), w1))
    as Hopen.
  { unfold open_archive. fold path. rewrite Hsplit. cbn [fst].
    erewrite bind_Ok; [|exact Hrun]. unfold open_append. by rewrite Hisdir1. }
  exists mk, w1. split; [|done].
  cbn [_collect]. rewrite collect_round_idle_record, Hopen. cbn [archive_at_raise].
  by eapply finally_run.
Qed.
End OpenFails.

Lemma first_record_on_directory_witness :
  exists mk w',
    _collect (H := toy_externals) 1 (b "/var/archive") (b "room") None
      [Record_ 0 [(b "k", [b "v"])]; RotateEvent] disk9
    = Some (Raise (IOError EISDIR (b "/var/archive/room/2015/01/31.json")), w')
    /\ trace w' = trace disk9 ++ map OpMkdir mk
    /\ Forall (fun d => d `prefix_of`
                          archive_dirname (H := toy_externals) (b "/var/archive") (b "room") 0)
         mk
    /\ queue w' = queue disk9
    /\ (forall p, is_Some (fs disk9 !! p) -> fs w' !! p = fs disk9 !! p)
    /\ (forall p, fs disk9 !! p = None ->
          fs w' !! p = None \/ fs w' !! p = Some Dir /\ p ∈ mk).
Proof.
  apply (first_record_on_directory (H := toy_externals) 1 (b "/var/archive") (b "room") 0
           [(b "k", [b "v"])] [RotateEvent] disk9).
  - done.
  - reflexivity.
  - done.
  - apply (bool_decide_unpack _). by vm_compute.
  - reflexivity.
  - by vm_compute.
Defined.
